(** * openapi-spec-parser: the endpoint extractor (src/core/extractor.ts)

    A shallow embedding of the schema resolution and simplification engine:
    the reference resolver, the composition flattener, the name recoverer,
    the schema simplifier and the operation extractor with its dialect
    adapter, followed by the properties proved about them.

    Conventions of the embedding.
    - A document is a tree of JavaScript values ([value]).  An object is the
      list of its own enumerable properties in the order JavaScript
      enumerates them (array indices ascending, then the other keys in
      insertion order); prototype members are not part of the model.
    - A string is a sequence of one-byte code units.
    - A number is an integer; the extractor only copies numbers and tests
      them for truthiness.
    - Objects have no identity: the extractor never mutates a document and
      compares objects in one place only (the Set of getEffectiveSchema).
    - A recursive function takes the remaining call depth [fuel]; running
      out of it is the engine's stack overflow. *)

From Stdlib Require Import String Ascii List ZArith NArith Bool Lia Arith.
From Stdlib Require Import DecimalString DecimalN Sorting.Sorted Sorting.Permutation.
Import ListNotations.
Open Scope string_scope.

Set Implicit Arguments.

(* ================================================================== *)
(** ** Strings *)

Module Str.

(** [s.split(c)] for a one-character separator. *)
Fixpoint split (c : ascii) (s : string) : list string :=
  match s with
  | EmptyString => [EmptyString]
  | String a s' =>
      if Ascii.eqb a c then EmptyString :: split c s'
      else match split c s' with
           | [] => [String a EmptyString]
           | p :: ps => String a p :: ps
           end
  end.

(** [s.startsWith(p)] *)
Definition startsWith (p s : string) : bool := String.prefix p s.

(** [s.endsWith(suf)] *)
Fixpoint endsWith (suf s : string) : bool :=
  String.eqb s suf ||
  match s with
  | EmptyString => false
  | String _ s' => endsWith suf s'
  end.

(** [s.includes(sub)] *)
Fixpoint includes (sub s : string) : bool :=
  String.prefix sub s ||
  match s with
  | EmptyString => false
  | String _ s' => includes sub s'
  end.

(** The code units of a string, each as a one-unit string. *)
Fixpoint units (s : string) : list string :=
  match s with
  | EmptyString => []
  | String a s' => String a EmptyString :: units s'
  end.

(** [s.replace(/[{}]/g, '')] *)
Fixpoint removeBraces (s : string) : string :=
  match s with
  | EmptyString => EmptyString
  | String a s' =>
      if Ascii.eqb a "{" || Ascii.eqb a "}" then removeBraces s'
      else String a (removeBraces s')
  end.

(** [s.replace(/\//g, '_')] *)
Fixpoint slashesToUnderscores (s : string) : string :=
  match s with
  | EmptyString => EmptyString
  | String a s' =>
      String (if Ascii.eqb a "/" then "_"%char else a) (slashesToUnderscores s')
  end.

(** [s.replace(/^_/, '')] *)
Definition dropLeadingUnderscore (s : string) : string :=
  match s with
  | String a s' => if Ascii.eqb a "_" then s' else s
  | EmptyString => EmptyString
  end.

(** [parts.join(sep)] *)
Fixpoint join (sep : string) (parts : list string) : string :=
  match parts with
  | [] => EmptyString
  | [p] => p
  | p :: ps => p ++ sep ++ join sep ps
  end.

(** The decimal text of an array index. *)
Definition ofIndex (n : N) : string := NilEmpty.string_of_uint (N.to_uint n).

(** A property key is an array index when it is the canonical decimal text
    of an integer below 2^32 - 1; such keys are enumerated first, in
    ascending order. *)
Definition arrayIndex (k : string) : option N :=
  match NilEmpty.uint_of_string k with
  | Some d =>
      if String.eqb (NilEmpty.string_of_uint (Decimal.unorm d)) k
      then (let n := N.of_uint d in
            if (n <? 4294967295)%N then Some n else None)
      else None
  | None => None
  end.

End Str.

(* ================================================================== *)
(** ** JavaScript values *)

Unset Elimination Schemes.
Inductive value : Type :=
| VUndef
| VNull
| VBool (b : bool)
| VNum (n : Z)
| VStr (s : string)
| VArr (elems : list value)
| VObj (entries : list (string * value)).
Set Elimination Schemes.

Definition object := list (string * value).

(** Outcome of a call: a value or a thrown error. *)
Inductive error : Type := TypeError | SyntaxError | StackOverflow.

Inductive result (A : Type) : Type :=
| Ok (a : A)
| Err (e : error).

Arguments Ok {A} a.
Arguments Err {A} e.

Definition bind {A B} (r : result A) (k : A -> result B) : result B :=
  match r with
  | Ok a => k a
  | Err e => Err e
  end.

Declare Scope js_scope.
Delimit Scope js_scope with js.
Notation "x <- e ;; k" := (bind e (fun x => k))
  (at level 61, e at next level, right associativity) : js_scope.
Notation "' p <- e ;; k" := (bind e (fun x => let p := x in k))
  (at level 61, p pattern, e at next level, right associativity) : js_scope.
Open Scope js_scope.

(** A loop whose body may throw, threading the loop's local state. *)
Fixpoint foldM {A S} (body : S -> A -> result S) (l : list A) (s : S) : result S :=
  match l with
  | [] => Ok s
  | a :: l' => s' <- body s a ;; foldM body l' s'
  end.

Module Js.

(** ToBoolean *)
Definition truthy (v : value) : bool :=
  match v with
  | VUndef | VNull => false
  | VBool b => b
  | VNum n => negb (n =? 0)%Z
  | VStr s => negb (String.eqb s "")
  | VArr _ | VObj _ => true
  end.

Definition nullish (v : value) : bool :=
  match v with
  | VUndef | VNull => true
  | _ => false
  end.

(** [a || b] *)
Definition or (a b : value) : value := if truthy a then a else b.

(** [a ?? b] *)
Definition coalesce (a b : value) : value := if nullish a then b else a.

(** [typeof v === 'string'] *)
Definition isString (v : value) : bool :=
  match v with VStr _ => true | _ => false end.

(** [typeof v === 'object'] *)
Definition isObjectType (v : value) : bool :=
  match v with VNull | VArr _ | VObj _ => true | _ => false end.

(** [v === s] for a string literal [s] *)
Definition strictEqStr (v : value) (s : string) : bool :=
  match v with VStr s' => String.eqb s' s | _ => false end.

(** Own-property lookup in an object. *)
Fixpoint lookup (k : string) (o : object) : option value :=
  match o with
  | [] => None
  | (k', v) :: o' => if String.eqb k' k then Some v else lookup k o'
  end.

(** [v[k]] and [v?.[k]]: reading a property never fails on a value that
    is not null or undefined; primitives have no own properties except
    the length and the code units of a string.  On a nullish receiver the
    optional chain gives undefined. *)
Definition prop (k : string) (v : value) : value :=
  match v with
  | VObj o => match lookup k o with Some x => x | None => VUndef end
  | VArr l =>
      match Str.arrayIndex k with
      | Some n => nth (N.to_nat n) l VUndef
      | None => if String.eqb k "length" then VNum (Z.of_nat (List.length l)) else VUndef
      end
  | VStr s =>
      match Str.arrayIndex k with
      | Some n => nth (N.to_nat n) (map VStr (Str.units s)) VUndef
      | None => if String.eqb k "length" then VNum (Z.of_nat (String.length s)) else VUndef
      end
  | _ => VUndef
  end.

(** [v[k]] where [v] may be null or undefined: that read throws. *)
Definition get (k : string) (v : value) : result value :=
  if nullish v then Err TypeError else Ok (prop k v).

(** [o[k] = v] on an ordinary object: an existing key keeps its place, a
    new array index goes to its numeric position, any other new key to
    the end. *)
Fixpoint replace (k : string) (v : value) (o : object) : object :=
  match o with
  | [] => []
  | (k', v') :: o' =>
      if String.eqb k' k then (k', v) :: o' else (k', v') :: replace k v o'
  end.

Fixpoint insertIndex (n : N) (k : string) (v : value) (o : object) : object :=
  match o with
  | [] => [(k, v)]
  | (k', v') :: o' =>
      match Str.arrayIndex k' with
      | Some n' =>
          if (n' <? n)%N then (k', v') :: insertIndex n k v o'
          else (k, v) :: o
      | None => (k, v) :: o
      end
  end.

Definition set (k : string) (v : value) (o : object) : object :=
  match lookup k o with
  | Some _ => replace k v o
  | None =>
      match Str.arrayIndex k with
      | Some n => insertIndex n k v o
      | None => (o ++ [(k, v)])%list
      end
  end.

Fixpoint indexedFrom (i : N) (l : list value) : object :=
  match l with
  | [] => []
  | x :: l' => (Str.ofIndex i, x) :: indexedFrom (N.succ i) l'
  end.

(** [Object.entries(v)]: the own enumerable properties. *)
Definition entries (v : value) : object :=
  match v with
  | VObj o => o
  | VArr l => indexedFrom 0 l
  | VStr s => indexedFrom 0 (map VStr (Str.units s))
  | _ => []
  end.

(** [Object.keys(v)] *)
Definition keys (v : value) : list string := map fst (entries v).

(** [{ ...acc, ...v }]: copy the own properties of [v] onto [acc]. *)
Definition spread (acc : object) (v : value) : object :=
  fold_left (fun o kv => set (fst kv) (snd kv) o) (entries v) acc.

(** [[...v]]: the elements of an iterable; spreading anything else
    throws. *)
Definition iterate (v : value) : result (list value) :=
  match v with
  | VArr l => Ok l
  | VStr s => Ok (map VStr (Str.units s))
  | _ => Err TypeError
  end.

(** SameValueZero, as used by Set and Array.prototype.includes.  Two
    objects of a document are never the same object. *)
Definition sameValueZero (a b : value) : bool :=
  match a, b with
  | VUndef, VUndef => true
  | VNull, VNull => true
  | VBool x, VBool y => Bool.eqb x y
  | VNum x, VNum y => (x =? y)%Z
  | VStr x, VStr y => String.eqb x y
  | _, _ => false
  end.

(** [Array.from(new Set(l))] *)
Definition dedupe (l : list value) : list value :=
  fold_left
    (fun seen x => if existsb (fun y => sameValueZero y x) seen then seen else (seen ++ [x])%list)
    l [].

(** [x.includes('array')] on whatever [x] is: a substring test on a
    string, a membership test on an array, a TypeError otherwise. *)
Definition includesArray (x : value) : result bool :=
  match x with
  | VStr s => Ok (Str.includes "array" s)
  | VArr l => Ok (existsb (fun y => strictEqStr y "array") l)
  | _ => Err TypeError
  end.

(** [l.find(pred)] with a predicate that may throw. *)
Fixpoint find (pred : value -> result bool) (l : list value) : result value :=
  match l with
  | [] => Ok VUndef
  | x :: l' => b <- pred x ;; if b then Ok x else find pred l'
  end.

(** [l.filter(pred)] with a predicate that may throw. *)
Fixpoint filter (pred : value -> result bool) (l : list value) : result (list value) :=
  match l with
  | [] => Ok []
  | x :: l' =>
      b <- pred x ;;
      rest <- filter pred l' ;;
      Ok (if b then x :: rest else rest)
  end.

(** [l.map(f)] with a callback that may throw. *)
Fixpoint mapM {A B} (f : A -> result B) (l : list A) : result (list B) :=
  match l with
  | [] => Ok []
  | x :: l' => y <- f x ;; rest <- mapM f l' ;; Ok (y :: rest)
  end.

Definition ofName (n : option string) : value :=
  match n with Some s => VStr s | None => VUndef end.

End Js.

(* ================================================================== *)
(** ** The data model of the output (src/types/openapi.ts) *)

Inductive HttpMethod : Type := GET | POST | PUT | PATCH | DELETE | OPTIONS | HEAD.

Definition methodName (m : HttpMethod) : string :=
  match m with
  | GET => "get" | POST => "post" | PUT => "put" | PATCH => "patch"
  | DELETE => "delete" | OPTIONS => "options" | HEAD => "head"
  end.

Module ParameterInfo.
Record t : Type := make {
  name : value;
  location : value;          (* the field [in] *)
  required : value;
  type : value;
  description : value;
  example : value
}.
End ParameterInfo.

Module RequestBodyInfo.
Record t : Type := make {
  required : value;
  contentType : string;
  schema : value;            (* a SimplifiedSchema *)
  schemaName : option string;
  example : value
}.
End RequestBodyInfo.

Module ResponseInfo.
Record t : Type := make {
  statusCode : string;
  description : value;
  schema : value;            (* a SimplifiedSchema, or undefined *)
  schemaName : option string;
  example : value
}.
End ResponseInfo.

Module EndpointInfo.
Record t : Type := make {
  operationId : value;
  method : HttpMethod;
  path : string;
  summary : value;
  description : value;
  tags : value;
  parameters : list ParameterInfo.t;
  requestBody : option RequestBodyInfo.t;
  responses : list ResponseInfo.t
}.
End EndpointInfo.

(** The working object [result] of getEffectiveSchema. *)
Module Effective.
Record t : Type := make {
  properties : object;
  type : value;
  enum : value;
  items : value;
  required : list value
}.

Definition toValue (r : t) : value :=
  VObj [ ("properties", VObj (properties r));
         ("type", type r);
         ("enum", enum r);
         ("items", items r);
         ("required", VArr (required r)) ].
End Effective.

(** Library and engine functions the extractor calls and this development
    does not define: the regular-expression engine, Unicode upper-casing,
    JSON.stringify and the ToString conversion of template literals. *)
Record Builtins : Type := {
  RegExp : string -> result (string -> bool);
  toUpperCase : string -> string;
  JSON_stringify : value -> value;
  ToString : value -> string
}.

Record ExtractorOptions : Type := {
  excludeTags : option (list string);
  excludePaths : option (list string);
  excludeDeprecated : option bool;
  originalSpec : value
}.

(* ================================================================== *)
(** ** The extractor (src/core/extractor.ts) *)

Definition HTTP_METHODS : list HttpMethod := [GET; POST; PUT; PATCH; DELETE; OPTIONS; HEAD].

Definition importantCodes : list string :=
  ["200"; "201"; "204"; "400"; "401"; "403"; "404"; "500"].

Definition composites : list string := ["allOf"; "anyOf"; "oneOf"].

(** [if (found)] on a string-or-undefined result. *)
Definition nameFound (n : option string) : bool :=
  match n with
  | Some s => Js.truthy (VStr s)
  | None => false
  end.

(** [a ?? b] where both sides are calls that may throw; [b] runs only when
    [a] gave undefined. *)
Definition coalesceName (a b : result (option string)) : result (option string) :=
  x <- a ;;
  match x with
  | Some _ => Ok x
  | None => b
  end.

(** The inner loop of rule 2: the first branch that yields a name. *)
Fixpoint firstFound (recur : value -> result (option string)) (items : list value)
  : result (option string) :=
  match items with
  | [] => Ok None
  | item :: rest =>
      found <- recur item ;;
      if nameFound found then Ok found else firstFound recur rest
  end.

(** The outer loop of rule 2, over the composition keywords. *)
Fixpoint scanComposites (recur : value -> result (option string)) (schema : value)
  (keys : list string) : result (option string) :=
  match keys with
  | [] => Ok None
  | key :: rest =>
      found <- match Js.prop key schema with
               | VArr items => firstFound recur items
               | _ => Ok None
               end ;;
      if nameFound found then Ok found else scanComposites recur schema rest
  end.

(** [itemName.endsWith('[]') ? itemName : `${itemName}[]`] *)
Definition withArrayMarker (itemName : string) : string :=
  if Str.endsWith "[]" itemName then itemName else itemName ++ "[]".

(** Rule 1 of extractSchemaName: [schema.$ref && typeof schema.$ref ===
    'string'], and then the last of [schema.$ref.split('/')]. *)
Definition directName (schema : value) : option string :=
  match Js.prop "$ref" schema with
  | VStr ref => if Js.truthy (VStr ref) then Some (last (Str.split "/" ref) "") else None
  | _ => None
  end.

Fixpoint extractSchemaName (fuel : nat) (schema : value) : result (option string) :=
  match fuel with
  | O => Err StackOverflow
  | S fuel =>
      if negb (Js.truthy schema) then Ok None
      else
        (* 1. a direct $ref *)
        match directName schema with
        | Some name => Ok (Some name)
        | None =>
            (* 2. a $ref inside allOf, anyOf, oneOf *)
            found <- scanComposites (extractSchemaName fuel) schema composites ;;
            if nameFound found then Ok found
            else
              (* 3. an array: look at its items *)
              if Js.strictEqStr (Js.prop "type" schema) "array"
                 && Js.truthy (Js.prop "items" schema)
              then
                itemName <- extractSchemaName fuel (Js.prop "items" schema) ;;
                match itemName with
                | Some n => if nameFound itemName then Ok (Some (withArrayMarker n)) else Ok None
                | None => Ok None
                end
              else Ok None
        end
  end.

Section WithBuiltins.
Variable builtins : Builtins.

Fixpoint getSchemaType (fuel : nat) (schema : value) : result value :=
  match fuel with
  | O => Err StackOverflow
  | S fuel =>
      if negb (Js.truthy schema) then Ok (VStr "unknown")
      else if Js.strictEqStr (Js.prop "type" schema) "array"
              && Js.truthy (Js.prop "items" schema)
      then
        itemType <- getSchemaType fuel (Js.prop "items" schema) ;;
        Ok (VStr (ToString builtins itemType ++ "[]"))
      else if Js.truthy (Js.prop "enum" schema)
      then
        match Js.prop "enum" schema with
        | VArr vs =>
            Ok (VStr (Str.join " | "
                        (map (fun v => match JSON_stringify builtins v with
                                       | VUndef | VNull => ""
                                       | s => ToString builtins s
                                       end) vs)))
        | _ => Err TypeError
        end
      else Ok (Js.coalesce (Js.prop "type" schema) (VStr "object"))
  end.

Definition generateOperationId (method : HttpMethod) (path : string) : string :=
  let cleanPath :=
    toUpperCase builtins
      (Str.dropLeadingUnderscore (Str.slashesToUnderscores (Str.removeBraces path))) in
  toUpperCase builtins (methodName method) ++ "_" ++ cleanPath.

Definition extractParameter (fuel : nat) (param : value) : result ParameterInfo.t :=
  schema <- Js.get "schema" param ;;
  type <- getSchemaType fuel schema ;;
  Ok (ParameterInfo.make
        (Js.prop "name" param)
        (Js.prop "in" param)
        (Js.coalesce (Js.prop "required" param) (VBool false))
        type
        (Js.prop "description" param)
        (Js.coalesce (Js.prop "example" param) (Js.prop "example" schema))).

End WithBuiltins.

(** The loop of resolveRef over the pointer segments: [None] is the early
    [return schema].  [current[part]] is read as a member that [current]
    holds itself; what a value finds on its prototype chain is outside the
    model, and the properties of the walk are stated for the pointers that
    read own members only ([Doc.ownReads]). *)
Fixpoint walk (parts : list string) (current : value) : option value :=
  match parts with
  | [] => Some current
  | part :: rest =>
      if Js.truthy current && Js.isObjectType current
      then walk rest (Js.prop (if String.eqb part "definitions" then "definitions" else part)
                              current)
      else None
  end.

Fixpoint resolveRef (fuel : nat) (schema spec : value) : result value :=
  match fuel with
  | O => Err StackOverflow
  | S fuel =>
      if negb (Js.truthy schema) || negb (Js.truthy spec)
         || negb (Js.isString (Js.prop "$ref" schema))
      then Ok schema
      else
        match Js.prop "$ref" schema with
        | VStr ref =>
            if negb (Str.startsWith "#/" ref) then Ok schema
            else
              let parts := tl (Str.split "/" ref) in
              match walk parts spec with
              | None => Ok schema
              | Some current =>
                  (* follow aliases *)
                  if Js.truthy current then resolveRef fuel current spec else Ok schema
              end
        | _ => Ok schema
        end
  end.

(** One round of the allOf loop of getEffectiveSchema. *)
Definition mergeBranch (acc : Effective.t) (subEffective : value) : result Effective.t :=
  let properties :=
    Js.spread (Js.spread [] (VObj (Effective.properties acc)))
              (Js.or (Js.prop "properties" subEffective) (VObj [])) in
  let type :=
    if negb (Js.truthy (Effective.type acc)) && Js.truthy (Js.prop "type" subEffective)
    then Js.prop "type" subEffective else Effective.type acc in
  let enum :=
    if negb (Js.truthy (Effective.enum acc)) && Js.truthy (Js.prop "enum" subEffective)
    then Js.prop "enum" subEffective else Effective.enum acc in
  let items :=
    if negb (Js.truthy (Effective.items acc)) && Js.truthy (Js.prop "items" subEffective)
    then Js.prop "items" subEffective else Effective.items acc in
  required <-
    (if Js.truthy (Js.prop "required" subEffective)
     then more <- Js.iterate (Js.prop "required" subEffective) ;;
          Ok (Js.dedupe (Effective.required acc ++ more)%list)
     else Ok (Effective.required acc)) ;;
  Ok (Effective.make properties type enum items required).

Fixpoint getEffectiveSchema (fuel : nat) (schema spec : value) : result value :=
  match fuel with
  | O => Err StackOverflow
  | S fuel =>
      if negb (Js.truthy schema) then Ok (VObj [])
      else
        resolved <- resolveRef fuel schema spec ;;
        properties <- Js.get "properties" resolved ;;
        required <-
          (if Js.truthy (Js.prop "required" resolved)
           then Js.iterate (Js.prop "required" resolved)
           else Ok []) ;;
        let acc :=
          Effective.make
            (Js.spread [] (Js.or properties (VObj [])))
            (Js.prop "type" resolved)
            (Js.prop "enum" resolved)
            (Js.prop "items" resolved)
            required in
        acc <-
          match Js.prop "allOf" resolved with
          | VArr subs =>
              foldM (fun acc sub =>
                       subEffective <- getEffectiveSchema fuel sub spec ;;
                       mergeBranch acc subEffective)
                    subs acc
          | _ => Ok acc
          end ;;
        Ok (Effective.toValue acc)
  end.

(** The value returned for an absent schema. *)
Definition unknownSchema : value := VObj [("type", VStr "unknown")].

(** One round of the property loop of simplifySchema; [recur] is the
    recursive call and [properties] the object [simplified.properties] built
    so far. *)
Definition simplifyProperty (recur : value -> value -> option string -> result value)
  (fuel : nat) (effectiveOriginal : value) (properties : object) (entry : string * value)
  : result object :=
  let key := fst entry in
  let prop := snd entry in
  let originalProp := Js.prop key (Js.prop "properties" effectiveOriginal) in
  propName <-
    coalesceName (extractSchemaName fuel originalProp) (extractSchemaName fuel prop) ;;
  simplifiedProp <- recur prop originalProp propName ;;
  Ok (Js.set key simplifiedProp properties).

Fixpoint simplifySchema (fuel : nat) (schema originalSchema : value)
  (schemaName : option string) (originalSpec : value) : result value :=
  match fuel with
  | O => Err StackOverflow
  | S fuel =>
      if negb (Js.truthy schema) then Ok unknownSchema
      else
        (* 1. metadata *)
        resolvedName <-
          coalesceName
            (coalesceName (Ok schemaName) (extractSchemaName fuel originalSchema))
            (extractSchemaName fuel schema) ;;
        let description :=
          Js.coalesce (Js.prop "description" schema) (Js.prop "description" originalSchema) in
        let example :=
          Js.coalesce (Js.prop "example" schema) (Js.prop "example" originalSchema) in
        (* 2. effective schemas *)
        effective <- getEffectiveSchema fuel schema originalSpec ;;
        effectiveOriginal <-
          (if Js.truthy originalSchema
           then getEffectiveSchema fuel originalSchema originalSpec
           else Ok VUndef) ;;
        (* 3. basic information *)
        let type :=
          Js.or (Js.prop "type" effective)
                (if (0 <? List.length (Js.keys (Js.or (Js.prop "properties" effective) (VObj []))))%nat
                 then VStr "object" else VStr "unknown") in
        let simplified : object :=
          [ ("type", type);
            ("schemaName", Js.ofName resolvedName);
            ("description", description);
            ("example", example);
            ("enum", Js.prop "enum" effective);
            ("required", Js.prop "required" effective) ] in
        (* 4. object properties *)
        simplified <-
          (if Js.truthy (Js.prop "properties" effective)
           then
             properties <-
               foldM (simplifyProperty
                        (fun prop originalProp propName =>
                           simplifySchema fuel prop originalProp propName originalSpec)
                        fuel effectiveOriginal)
                     (Js.entries (Js.prop "properties" effective)) [] ;;
             Ok (Js.set "properties" (VObj properties) simplified)
           else Ok simplified) ;;
        (* 5. array items *)
        isArray <- Js.includesArray type ;;
        if isArray && Js.truthy (Js.or (Js.prop "items" effective) (Js.prop "items" schema))
        then
          let items := Js.or (Js.prop "items" effective) (Js.prop "items" schema) in
          let originalItems :=
            Js.or (Js.prop "items" effectiveOriginal) (Js.prop "items" originalSchema) in
          itemName <-
            coalesceName (extractSchemaName fuel originalItems)
                         (extractSchemaName fuel items) ;;
          simplifiedItems <- simplifySchema fuel items originalItems itemName originalSpec ;;
          Ok (VObj (Js.set "items" simplifiedItems simplified))
        else Ok (VObj simplified)
  end.

(** One round of the loop of extractResponses over [importantCodes];
    [acc] is the list [result] built so far. *)
Definition extractResponsesStep (fuel : nat) (responses originalResponses originalSpec : value)
  (acc : list ResponseInfo.t) (statusCode : string) : result (list ResponseInfo.t) :=
  response <- Js.get statusCode responses ;;
  if negb (Js.truthy response) then Ok acc
  else
    let content := Js.prop "application/json" (Js.prop "content" response) in
    let rawSchema := Js.coalesce (Js.prop "schema" content) (Js.prop "schema" response) in
    let originalResponse := Js.prop statusCode originalResponses in
    let originalContent :=
      Js.prop "application/json" (Js.prop "content" originalResponse) in
    let originalSchema :=
      Js.coalesce (Js.prop "schema" originalContent)
                  (Js.prop "schema" originalResponse) in
    schemaName <-
      coalesceName (extractSchemaName fuel originalSchema)
                   (extractSchemaName fuel rawSchema) ;;
    schema <-
      (if Js.truthy rawSchema
       then simplifySchema fuel rawSchema originalSchema schemaName originalSpec
       else Ok VUndef) ;;
    Ok (acc ++ [ ResponseInfo.make
                   statusCode
                   (Js.coalesce (Js.prop "description" response) (VStr ""))
                   schema
                   schemaName
                   (Js.coalesce (Js.prop "example" content)
                                (Js.prop "example" rawSchema)) ])%list.

Definition extractResponses (fuel : nat) (responses originalResponses originalSpec : value)
  : result (list ResponseInfo.t) :=
  foldM (extractResponsesStep fuel responses originalResponses originalSpec)
        importantCodes [].

Definition extractRequestBody (fuel : nat) (body originalBody originalSpec : value)
  : result (option RequestBodyInfo.t) :=
  content <- Js.get "content" body ;;
  if negb (Js.truthy content) then Ok None
  else
    (* application/json first, else the first content type *)
    let contentType : option string :=
      if Js.truthy (Js.prop "application/json" content)
      then Some "application/json"
      else hd_error (Js.keys content) in
    match contentType with
    | None => Ok None
    | Some contentType =>
        if negb (Js.truthy (VStr contentType)) then Ok None
        else
          let mediaType := Js.prop contentType content in
          let rawSchema := Js.prop "schema" mediaType in
          let originalMediaType := Js.prop contentType (Js.prop "content" originalBody) in
          let originalSchema := Js.prop "schema" originalMediaType in
          schemaName <-
            coalesceName (extractSchemaName fuel originalSchema)
                         (extractSchemaName fuel rawSchema) ;;
          schema <- simplifySchema fuel rawSchema originalSchema schemaName originalSpec ;;
          Ok (Some (RequestBodyInfo.make
                      (Js.coalesce (Js.prop "required" body) (VBool false))
                      contentType
                      schema
                      schemaName
                      (Js.coalesce (Js.prop "example" mediaType)
                                   (Js.prop "example" rawSchema))))
    end.

Definition extractSwagger2BodyParam (fuel : nat)
  (bodyParam originalBodyParam originalSpec : value) : result (option RequestBodyInfo.t) :=
  rawSchema <- Js.get "schema" bodyParam ;;
  if negb (Js.truthy rawSchema) then Ok None
  else
    let originalSchema := Js.prop "schema" originalBodyParam in
    schemaName <-
      coalesceName (extractSchemaName fuel originalSchema)
                   (extractSchemaName fuel rawSchema) ;;
    schema <- simplifySchema fuel rawSchema originalSchema schemaName originalSpec ;;
    Ok (Some (RequestBodyInfo.make
                (Js.coalesce (Js.prop "required" bodyParam) (VBool false))
                "application/json"
                schema
                schemaName
                (Js.prop "example" rawSchema))).

(** [(p) => p.in === 'body'] *)
Definition isBodyParam (p : value) : result bool :=
  loc <- Js.get "in" p ;; Ok (Js.strictEqStr loc "body").

(** [(p) => p.in !== 'body'] *)
Definition isNotBodyParam (p : value) : result bool :=
  loc <- Js.get "in" p ;; Ok (negb (Js.strictEqStr loc "body")).

(** [if (node?.$ref) node = resolveRef(node, originalSpec)], as done for the
    original request body and the original response table. *)
Definition resolveIfRef (fuel : nat) (node originalSpec : value) : result value :=
  if Js.truthy (Js.prop "$ref" node) then resolveRef fuel node originalSpec else Ok node.

(** [originalOperation?.parameters?.find((p) => p.in === 'body')] *)
Definition originalBodyParamOf (originalOperation : value) : result value :=
  match Js.prop "parameters" originalOperation with
  | VUndef | VNull => Ok VUndef
  | VArr ps => Js.find isBodyParam ps
  | _ => Err TypeError
  end.

Definition extractEndpointRequestBody (fuel : nat)
  (operation bodyParam originalOperation originalSpec : value)
  : result (option RequestBodyInfo.t) :=
  originalRequestBody <-
    resolveIfRef fuel (Js.prop "requestBody" originalOperation) originalSpec ;;
  originalBodyParam <- originalBodyParamOf originalOperation ;;
  requestBody <- Js.get "requestBody" operation ;;
  if Js.truthy requestBody
  then extractRequestBody fuel requestBody originalRequestBody originalSpec
  else if Js.truthy bodyParam
  then extractSwagger2BodyParam fuel bodyParam originalBodyParam originalSpec
  else Ok None.

Definition extractEndpointResponses (fuel : nat)
  (operation originalOperation originalSpec : value) : result (list ResponseInfo.t) :=
  originalResponses <-
    resolveIfRef fuel (Js.prop "responses" originalOperation) originalSpec ;;
  responses <- Js.get "responses" operation ;;
  extractResponses fuel responses originalResponses originalSpec.

(** [some(tag => excludeTags.includes(tag))] on the tag list. *)
Definition someExcluded (excludeTags : list string) (tags : value) : result bool :=
  match tags with
  | VArr ts =>
      Ok (existsb (fun tag => existsb (fun e => Js.sameValueZero (VStr e) tag) excludeTags) ts)
  | _ => Err TypeError
  end.

Section Endpoints.
Variable builtins : Builtins.

(** The list of all parameters and, of it, the part extractAllParameters
    returns as [bodyParam]. *)
Definition allParameters (operation pathItem : value) : result (list value) :=
  pathLevel <- Js.get "parameters" pathItem ;;
  opLevel <- Js.get "parameters" operation ;;
  pathParams <- Js.iterate (Js.coalesce pathLevel (VArr [])) ;;
  opParams <- Js.iterate (Js.coalesce opLevel (VArr [])) ;;
  Ok (pathParams ++ opParams)%list.

Definition extractAllParameters (fuel : nat) (operation pathItem : value)
  : result (list ParameterInfo.t * value) :=
  allParams <- allParameters operation pathItem ;;
  bodyParam <- Js.find isBodyParam allParams ;;
  nonBodyParams <- Js.filter isNotBodyParam allParams ;;
  parameters <- Js.mapM (extractParameter builtins fuel) nonBodyParams ;;
  Ok (parameters, bodyParam).

Definition extractEndpoint (fuel : nat) (path : string) (method : HttpMethod)
  (operation pathItem originalOperation originalSpec : value) : result EndpointInfo.t :=
  declaredId <- Js.get "operationId" operation ;;
  let operationId :=
    Js.coalesce declaredId (VStr (generateOperationId builtins method path)) in
  (* 1. parameters *)
  ' (parameters, bodyParam) <- extractAllParameters fuel operation pathItem ;;
  (* 2. request body *)
  requestBody <-
    extractEndpointRequestBody fuel operation bodyParam originalOperation originalSpec ;;
  (* 3. responses *)
  responses <- extractEndpointResponses fuel operation originalOperation originalSpec ;;
  Ok (EndpointInfo.make
        operationId
        method
        path
        (Js.prop "summary" operation)
        (Js.prop "description" operation)
        (Js.coalesce (Js.prop "tags" operation) (VArr [VStr "default"]))
        parameters
        requestBody
        responses).

(** One round of the inner loop of extractEndpoints, over [HTTP_METHODS]. *)
Definition extractEndpointsMethod (fuel : nat) (excludeTags : list string)
  (excludeDeprecated : bool) (originalSpec : value) (path : string)
  (pathItem originalPathItem : value)
  (endpoints : list EndpointInfo.t) (method : HttpMethod) : result (list EndpointInfo.t) :=
  let operation := Js.prop (methodName method) pathItem in
  if negb (Js.truthy operation) then Ok endpoints
  else if excludeDeprecated && Js.truthy (Js.prop "deprecated" operation)
  then Ok endpoints
  else
    let tags := Js.coalesce (Js.prop "tags" operation) (VArr [VStr "default"]) in
    excluded <- someExcluded excludeTags tags ;;
    if excluded then Ok endpoints
    else
      let originalOperation := Js.prop (methodName method) originalPathItem in
      endpoint <-
        extractEndpoint fuel path method operation pathItem originalOperation originalSpec ;;
      Ok (endpoints ++ [endpoint])%list.

(** One round of the outer loop of extractEndpoints, over the path table. *)
Definition extractEndpointsPath (fuel : nat) (excludeTags : list string)
  (excludeDeprecated : bool) (originalSpec : value)
  (excludePathRegexes : list (string -> bool)) (originalPaths : value)
  (endpoints : list EndpointInfo.t) (entry : string * value) : result (list EndpointInfo.t) :=
  let path := fst entry in
  let pathItem := snd entry in
  if negb (Js.truthy pathItem) then Ok endpoints
  else if existsb (fun regex => regex path) excludePathRegexes then Ok endpoints
  else
    let originalPathItem := Js.prop path originalPaths in
    foldM (extractEndpointsMethod fuel excludeTags excludeDeprecated originalSpec
                                  path pathItem originalPathItem)
          HTTP_METHODS endpoints.

Definition extractEndpoints (fuel : nat) (spec : value) (options : ExtractorOptions)
  : result (list EndpointInfo.t) :=
  let excludeTags := match excludeTags options with Some l => l | None => [] end in
  let excludePaths := match excludePaths options with Some l => l | None => [] end in
  let excludeDeprecated :=
    match excludeDeprecated options with Some b => b | None => true end in
  let originalSpec := originalSpec options in
  excludePathRegexes <- Js.mapM (RegExp builtins) excludePaths ;;
  declaredPaths <- Js.get "paths" spec ;;
  let paths := Js.coalesce declaredPaths (VObj []) in
  let originalPaths := Js.coalesce (Js.prop "paths" originalSpec) (VObj []) in
  foldM (extractEndpointsPath fuel excludeTags excludeDeprecated originalSpec
                              excludePathRegexes originalPaths)
        (Js.entries paths) [].

End Endpoints.

(* ================================================================== *)
(** ** An instance of the built-ins, for running the extractor on examples:
    upper-casing of ASCII letters, a regular-expression engine that accepts
    no pattern, JSON text and string conversion of strings only. *)

Definition asciiUpper (a : ascii) : ascii :=
  let n := nat_of_ascii a in
  if ((97 <=? n) && (n <=? 122))%nat then ascii_of_nat (n - 32) else a.

Fixpoint stringUpper (s : string) : string :=
  match s with
  | EmptyString => EmptyString
  | String a s' => String (asciiUpper a) (stringUpper s')
  end.

Definition exampleBuiltins : Builtins :=
  {| RegExp := fun _ => Err SyntaxError;
     toUpperCase := stringUpper;
     JSON_stringify :=
       fun v => match v with
                | VStr s => VStr (String (ascii_of_nat 34) (s ++ String (ascii_of_nat 34) ""))
                | _ => VUndef
                end;
     ToString := fun v => match v with VStr s => s | _ => "" end |}.

(* ================================================================== *)
(** ** Notions used to state the properties *)

Module Spec.

(** No [/] occurs in the string. *)
Fixpoint noSlash (s : string) : bool :=
  match s with
  | EmptyString => true
  | String a s' => negb (Ascii.eqb a "/") && noSlash s'
  end.

(** [n] is the final path segment of [ref]: the text after the last [/],
    or all of [ref] when it has none. *)
Definition finalSegment (ref n : string) : Prop :=
  noSlash n = true /\ (ref = n \/ exists pre, ref = pre ++ "/" ++ n).

(** [s] ends with [suf]. *)
Definition hasSuffix (suf s : string) : Prop := exists stem, s = stem ++ suf.

(** The node's own [$ref] is a non-empty string. *)
Definition directRef (schema : value) (ref : string) : Prop :=
  Js.prop "$ref" schema = VStr ref /\ ref <> "".

(** The value a pointer leads to by plain successive key lookup. *)
Definition lookupPath (parts : list string) (root : value) : value :=
  fold_left (fun current part => Js.prop part current) parts root.

(** An object in the sense of the pointer walk: an object or an array. *)
Definition isObject (v : value) : bool :=
  match v with
  | VObj _ | VArr _ => true
  | _ => false
  end.

(** Some lookup of the walk is attempted on a value that is not an object:
    the document itself, or what an earlier segment led to. *)
Definition walkBlocked (parts : list string) (root : value) : Prop :=
  exists pre part post,
    parts = (pre ++ part :: post)%list /\ isObject (lookupPath pre root) = false.

(** The schema node of a response: that of its JSON content, else the one
    the older dialect attaches to the response itself. *)
Definition responseSchema (response : value) : value :=
  Js.coalesce (Js.prop "schema" (Js.prop "application/json" (Js.prop "content" response)))
              (Js.prop "schema" response).

(** The tags an operation is filtered and listed by:
    [operation.tags ?? ['default']]. *)
Definition effectiveTags (operation : value) : value :=
  Js.coalesce (Js.prop "tags" operation) (VArr [VStr "default"]).

(** Some declared tag is an excluded one. *)
Definition someTagExcluded (excludeTags : list string) (tags : list value) : Prop :=
  exists tag, In (VStr tag) tags /\ In tag excludeTags.

(** The operation of [method] on [pathItem] passes the filters of the inner
    loop: it is declared, it is not a deprecated operation that the options
    exclude, and none of its tags is excluded. *)
Definition operationRetained (excludeTags : list string) (excludeDeprecated : bool)
  (pathItem : value) (method : HttpMethod) : Prop :=
  let operation := Js.prop (methodName method) pathItem in
  Js.truthy operation = true
  /\ excludeDeprecated && Js.truthy (Js.prop "deprecated" operation) = false
  /\ exists tags, effectiveTags operation = VArr tags /\ ~ someTagExcluded excludeTags tags.

(** The order in which an object enumerates two distinct keys: array
    indices ascending, then the other keys. *)
Definition keyBefore (k k' : string) : Prop :=
  k <> k' /\
  match Str.arrayIndex k, Str.arrayIndex k' with
  | Some n, Some n' => (n < n')%N
  | Some _, None => True
  | None, Some _ => False
  | None, None => True
  end.

(** The property list of a real object: distinct keys in enumeration
    order. *)
Definition canonical (o : object) : Prop := StronglySorted keyBefore (map fst o).

(** The property map a flattened branch contributes to a merge:
    [subEffective.properties || {}]. *)
Definition branchProperties (subEffective : value) : object :=
  Js.entries (Js.or (Js.prop "properties" subEffective) (VObj [])).

(** Looking a key up in the union of [base] and the [branches], where each
    map overrides all the maps before it. *)
Definition overrideLookup (k : string) (base : object) (branches : list object)
  : option value :=
  fold_left (fun found branch =>
               match Js.lookup k branch with
               | Some v => Some v
               | None => found
               end)
            branches (Js.lookup k base).

(** The object simplifySchema builds for a present schema: the six fields of
    the literal, then [properties], then [items] when there are any. *)
Definition nodeValue (type name description example enum : value)
  (required : list value) (properties : object) (items : option value) : value :=
  VObj ([ ("type", type);
          ("schemaName", name);
          ("description", description);
          ("example", example);
          ("enum", enum);
          ("required", VArr required);
          ("properties", VObj properties) ]
        ++ match items with
           | Some node => [("items", node)]
           | None => []
           end).

(** The trees simplifySchema builds for a present schema ([present]) and the
    property maps inside them ([outputs]), whose members are such trees or
    the node of an absent schema. *)
Inductive present : value -> Prop :=
| present_node type name description example enum required properties isArray :
    Js.truthy type = true ->
    Js.includesArray type = Ok isArray ->
    canonical properties ->
    outputs properties ->
    present (nodeValue type name description example enum required properties None)
| present_array type name description example enum required properties items :
    Js.truthy type = true ->
    Js.includesArray type = Ok true ->
    canonical properties ->
    outputs properties ->
    present items ->
    present (nodeValue type name description example enum required properties (Some items))
with outputs : object -> Prop :=
| outputs_nil : outputs []
| outputs_unknown key rest :
    outputs rest -> outputs ((key, unknownSchema) :: rest)
| outputs_present key node rest :
    present node -> outputs rest -> outputs ((key, node) :: rest).

(** A node carries a properties map and a required array, and so do, in
    turn, its array items and each of its property nodes other than the
    node of an absent schema. *)
Inductive populated : value -> Prop :=
| populated_intro node properties required :
    Js.prop "properties" node = VObj properties ->
    Js.prop "required" node = VArr required ->
    (forall key child, In (key, child) properties ->
                       child <> unknownSchema -> populated child) ->
    (forall items, Js.lookup "items" (Js.entries node) = Some items -> populated items) ->
    populated node.

(** A member of a property map: the node of an absent schema, or a tree
    built for a present one. *)
Definition simplifiedNode (node : value) : Prop :=
  node = unknownSchema \/ present node.

(** What a call of the simplifier returns, by the presence of its schema. *)
Definition returnsSimplified (schema out : value) : Prop :=
  if Js.truthy schema then present out else out = unknownSchema.

(** [v ?? undefined] *)
Definition dropNullish (v : value) : value := Js.coalesce v VUndef.

(** What simplifying a simplified tree again makes of it: the node of an
    absent schema is completed with the fields of a present one, every
    recovered name is dropped, a null description or example becomes
    undefined, and the rest stays. *)
Inductive resimplified : value -> value -> Prop :=
| resimplified_unknown :
    resimplified unknownSchema
                 (nodeValue (VStr "unknown") VUndef VUndef VUndef VUndef [] [] None)
| resimplified_node type name description example enum required properties properties' :
    resimplifiedAll properties properties' ->
    resimplified
      (nodeValue type name description example enum required properties None)
      (nodeValue type VUndef (dropNullish description) (dropNullish example) enum
                 required properties' None)
| resimplified_array type name description example enum required
                     properties properties' items items' :
    resimplifiedAll properties properties' ->
    resimplified items items' ->
    resimplified
      (nodeValue type name description example enum required properties (Some items))
      (nodeValue type VUndef (dropNullish description) (dropNullish example) enum
                 required properties' (Some items'))
with resimplifiedAll : object -> object -> Prop :=
| resimplifiedAll_nil : resimplifiedAll [] []
| resimplifiedAll_cons key node node' rest rest' :
    resimplified node node' ->
    resimplifiedAll rest rest' ->
    resimplifiedAll ((key, node) :: rest) ((key, node') :: rest').

End Spec.

Scheme present_outputs_ind := Minimality for Spec.present Sort Prop
  with outputs_present_ind := Minimality for Spec.outputs Sort Prop.
Combined Scheme present_mutind from present_outputs_ind, outputs_present_ind.


(* ================================================================== *)
(** ** The preprocessor's extension filter (src/core/preprocessor.ts) *)

(** [key.startsWith('x-internal') || key.startsWith('x-hidden')] *)
Definition isInternalKey (key : string) : bool :=
  Str.startsWith "x-internal" key || Str.startsWith "x-hidden" key.

(** removeExtensions edits the document in place and returns nothing: the
    function below gives the document as the call leaves it.  Its recursion
    follows the nesting of the document: a key to delete is noted and its
    value is not visited, any other value is visited, and the noted keys are
    deleted at the end, which leaves the other keys in their order.  An
    object that the document holds in two places is visited from both; the
    second visit finds nothing left to delete, so the tree read from either
    place is the one given here. *)
Fixpoint removeExtensions (obj : value) : value :=
  match obj with
  | VArr elems => VArr (map removeExtensions elems)
  | VObj entries =>
      VObj ((fix record (es : object) : object :=
               match es with
               | [] => []
               | (key, v) :: es' =>
                   if isInternalKey key then record es'
                   else (key, removeExtensions v) :: record es'
               end) entries)
  | _ => obj
  end.

(* ================================================================== *)
(** ** The rule generator: nested schema names (src/core/generator.ts) *)

(** [names.add(x)] on the members of a Set in insertion order. *)
Definition setAdd (x : value) (names : list value) : list value :=
  if existsb (fun y => Js.sameValueZero y x) names then names else (names ++ [x])%list.

(** The inner function of collectNestedSchemaNames; [names] is the Set it
    fills and [rootSchemaName] the name it leaves out, a string or
    undefined. *)
Fixpoint traverse (fuel : nat) (rootSchemaName : value) (s : value) (names : list value)
  : result (list value) :=
  match fuel with
  | O => Err StackOverflow
  | S fuel =>
      schemaName <- Js.get "schemaName" s ;;
      let names :=
        if Js.truthy schemaName && negb (Js.sameValueZero schemaName rootSchemaName)
        then setAdd schemaName names else names in
      names <-
        (if Js.truthy (Js.prop "properties" s)
         then foldM (fun names prop => traverse fuel rootSchemaName prop names)
                    (map snd (Js.entries (Js.prop "properties" s))) names
         else Ok names) ;;
      if Js.truthy (Js.prop "items" s)
      then traverse fuel rootSchemaName (Js.prop "items" s) names
      else Ok names
  end.

Section Generator.
Variable builtins : Builtins.

(** The order of [Array.prototype.sort()] without a comparator: by the
    code units of the string forms. *)
Definition sortsBefore (x y : value) : bool :=
  String.leb (ToString builtins x) (ToString builtins y).

Fixpoint insertSorted (x : value) (sorted : list value) : list value :=
  match sorted with
  | [] => [x]
  | y :: rest => if sortsBefore x y then x :: sorted else y :: insertSorted x rest
  end.

(** [names.sort()]: the sort is stable, and no member is undefined. *)
Definition sort (names : list value) : list value := fold_right insertSorted [] names.

Definition collectNestedSchemaNames (fuel : nat) (schema : value)
  (rootSchemaName : option string) : result (list value) :=
  names <- traverse fuel (Js.ofName rootSchemaName) schema [] ;;
  Ok (sort names).

End Generator.

(* ================================================================== *)
(** ** The rule generator: file names (src/core/generator.ts) *)

(** The character classes [[a-z]] and [[A-Z]]. *)
Definition isLowerLetter (a : ascii) : bool :=
  let n := nat_of_ascii a in ((97 <=? n) && (n <=? 122))%nat.

Definition isUpperLetter (a : ascii) : bool :=
  let n := nat_of_ascii a in ((65 <=? n) && (n <=? 90))%nat.

(** [s.replace(/([a-z])([A-Z])/g, '$1-$2')].  A match is a lowercase letter
    followed by a capital; two matches cannot overlap, so a hyphen goes
    between the two letters of every such pair. *)
Fixpoint splitLowerUpper (s : string) : string :=
  match s with
  | EmptyString => EmptyString
  | String a rest =>
      match rest with
      | String b _ =>
          if isLowerLetter a && isUpperLetter b
          then String a (String "-" (splitLowerUpper rest))
          else String a (splitLowerUpper rest)
      | EmptyString => String a EmptyString
      end
  end.

(** [s.replace(/([A-Z]+)([A-Z][a-z])/g, '$1-$2')].  A match is a run of at
    least two capitals followed by a lowercase letter, the hyphen going
    before the last capital of the run: the greedy [[A-Z]+] takes the whole
    run and gives back one capital.  A match ends on a lowercase letter and
    the next one starts on a capital, so whether a hyphen goes before a
    capital depends on its two neighbours only: a capital before it and a
    lowercase letter after it.  [afterCapital] tells whether the letter
    before [s] is a capital. *)
Fixpoint splitCapitalRun (afterCapital : bool) (s : string) : string :=
  match s with
  | EmptyString => EmptyString
  | String b rest =>
      let lowerNext :=
        match rest with
        | String c _ => isLowerLetter c
        | EmptyString => false
        end in
      if afterCapital && isUpperLetter b && lowerNext
      then String "-" (String b (splitCapitalRun (isUpperLetter b) rest))
      else String b (splitCapitalRun (isUpperLetter b) rest)
  end.

(** toKebabCase, given the engine's [toLowerCase]. *)
Definition toKebabCase (toLowerCase : string -> string) (str : string) : string :=
  toLowerCase (splitCapitalRun false (splitLowerUpper str)).

(* ================================================================== *)
(** ** The rule generator: example objects (src/core/generator.ts) *)

Section Examples.
Variable builtins : Builtins.

(** The engine's numeric reading of a string or of an object, as far as
    [x > 0] needs it. *)
Variable convertsAboveZero : value -> bool.

(** [x > 0] *)
Definition aboveZero (x : value) : bool :=
  match x with
  | VUndef | VNull => false
  | VBool b => b
  | VNum n => (0 <? n)%Z
  | _ => convertsAboveZero x
  end.

(** The text of an element in [Array.prototype.join]. *)
Definition elementText (v : value) : string :=
  match v with
  | VUndef | VNull => ""
  | _ => ToString builtins v
  end.

Fixpoint buildExampleObject (fuel : nat) (schema : value) (useExamples : bool)
  : result value :=
  match fuel with
  | O => Err StackOverflow
  | S fuel =>
      (* an example, when there is one and examples are wanted *)
      example <- (if useExamples then Js.get "example" schema else Ok VUndef) ;;
      if useExamples && negb (match example with VUndef => true | _ => false end)
      then Ok example
      else
        enum <- Js.get "enum" schema ;;
        if Js.truthy enum && aboveZero (Js.prop "length" enum)
        then
          match enum with
          | VArr members => Ok (VStr (Str.join " | " (map elementText members)))
          | _ => Err TypeError
          end
        else
          let type := Js.prop "type" schema in
          if Js.strictEqStr type "string" then Ok (VStr "string")
          else if Js.strictEqStr type "number" || Js.strictEqStr type "integer"
          then Ok (VNum 0)
          else if Js.strictEqStr type "boolean" then Ok (VBool true)
          else if Js.strictEqStr type "array"
          then
            if Js.truthy (Js.prop "items" schema)
            then item <- buildExampleObject fuel (Js.prop "items" schema) useExamples ;;
                 Ok (VArr [item])
            else Ok (VArr [])
          else if Js.strictEqStr type "object"
          then
            if Js.truthy (Js.prop "properties" schema)
            then
              obj <- foldM (fun obj entry =>
                              member <- buildExampleObject fuel (snd entry) useExamples ;;
                              Ok (Js.set (fst entry) member obj))
                           (Js.entries (Js.prop "properties" schema)) [] ;;
              Ok (VObj obj)
            else Ok (VObj [])
          else Ok type
  end.

End Examples.

(* ================================================================== *)
(** ** More notions used to state the properties *)

Module Doc.

(** The nesting depth of a document: 0 for a primitive. *)
Fixpoint depth (v : value) : nat :=
  match v with
  | VArr elems => S (fold_right (fun x n => Nat.max (depth x) n) 0%nat elems)
  | VObj entries =>
      S ((fix members (es : object) : nat :=
            match es with
            | [] => 0%nat
            | (_, x) :: es' => Nat.max (depth x) (members es')
            end) entries)
  | _ => 0%nat
  end.

(** Some object of the document, at any depth, has a key that
    removeExtensions deletes. *)
Fixpoint hasInternalKey (v : value) : bool :=
  match v with
  | VArr elems => existsb hasInternalKey elems
  | VObj entries =>
      (fix members (es : object) : bool :=
         match es with
         | [] => false
         | (key, x) :: es' => isInternalKey key || hasInternalKey x || members es'
         end) entries
  | _ => false
  end.

(** What removeExtensions leaves of the members of an object. *)
Definition keptEntries (es : object) : object :=
  map (fun kv => (fst kv, removeExtensions (snd kv)))
      (List.filter (fun kv => negb (isInternalKey (fst kv))) es).

(** The keys removeExtensions keeps. *)
Definition keptKeys (keys : list string) : list string :=
  List.filter (fun key => negb (isInternalKey key)) keys.

(** The schema of an array of [items]. *)
Definition arrayOf (items : value) : value :=
  VObj [("type", VStr "array"); ("items", items)].

(** [leaf] wrapped in [k] array schemas. *)
Fixpoint nestedArray (k : nat) (leaf : value) : value :=
  match k with
  | O => leaf
  | S k => arrayOf (nestedArray k leaf)
  end.

(** [k] array markers. *)
Fixpoint markers (k : nat) : string :=
  match k with
  | O => ""
  | S k => "[]" ++ markers k
  end.

(** The parameter is located in the body: [p.in === 'body']. *)
Definition inBody (p : value) : bool := Js.strictEqStr (Js.prop "in" p) "body".

(** The declared parameters that are not located in the body. *)
Definition nonBody (params : list value) : list value :=
  List.filter (fun p => negb (inBody p)) params.

(** The filters of the inner loop of extractEndpoints, as a test: the
    operation is declared, it is not a deprecated operation that the options
    exclude, and no tag of its tag list is excluded. *)
Definition retained (excludeTags : list string) (excludeDeprecated : bool)
  (pathItem : value) (method : HttpMethod) : bool :=
  let operation := Js.prop (methodName method) pathItem in
  Js.truthy operation
  && negb (excludeDeprecated && Js.truthy (Js.prop "deprecated" operation))
  && match Spec.effectiveTags operation with
     | VArr tags =>
         negb (existsb (fun tag =>
                          existsb (fun e => Js.sameValueZero (VStr e) tag) excludeTags)
                       tags)
     | _ => false
     end.

(** The operations of one entry of the path table that the extractor
    keeps, in the order of [HTTP_METHODS]. *)
Definition pathOperations (excludeTags : list string) (excludeDeprecated : bool)
  (regexes : list (string -> bool)) (entry : string * value)
  : list (string * HttpMethod) :=
  if Js.truthy (snd entry) && negb (existsb (fun regex => regex (fst entry)) regexes)
  then map (pair (fst entry))
           (List.filter (retained excludeTags excludeDeprecated (snd entry)) HTTP_METHODS)
  else [].

(** The path and method of an endpoint. *)
Definition endpointKey (ep : EndpointInfo.t) : string * HttpMethod :=
  (EndpointInfo.path ep, EndpointInfo.method ep).

(** The value a merge keeps for [type], [enum] or [items]: the node's own
    value when it is truthy, else the first truthy one among the branches,
    else the node's own value still. *)
Definition firstTruthy (own : value) (branches : list value) : value :=
  if Js.truthy own then own
  else match List.find Js.truthy branches with
       | Some v => v
       | None => own
       end.

(** The required list a flattened branch contributes to a merge. *)
Definition branchRequired (subEffective : value) : list value :=
  match Js.prop "required" subEffective with
  | VArr names => names
  | _ => []
  end.

(** No member of the list is the same value (SameValueZero) as an earlier
    member. *)
Inductive distinct : list value -> Prop :=
| distinct_nil : distinct []
| distinct_snoc seen x :
    distinct seen ->
    existsb (fun y => Js.sameValueZero y x) seen = false ->
    distinct (seen ++ [x]).

(** [member] is what the property loop of simplifySchema makes of the
    property [entry] of the flattened schema: the same key, holding the
    simplified form of the property's schema, taken with its counterpart in
    the flattened original and the name recovered from the two. *)
Definition simplifiedMember (fuel : nat) (effectiveOriginal originalSpec : value)
  (entry member : string * value) : Prop :=
  let originalProp := Js.prop (fst entry) (Js.prop "properties" effectiveOriginal) in
  fst member = fst entry
  /\ exists propName,
       coalesceName (extractSchemaName fuel originalProp)
                    (extractSchemaName fuel (snd entry)) = Ok propName
       /\ simplifySchema fuel (snd entry) originalProp propName originalSpec
          = Ok (snd member).

(** The nodes the generator visits in a simplified schema: the schema, the
    members of its properties and its items, and theirs in turn. *)
Inductive nested : value -> value -> Prop :=
| nested_self s : nested s s
| nested_property s child node :
    Js.truthy (Js.prop "properties" s) = true ->
    In child (map snd (Js.entries (Js.prop "properties" s))) ->
    nested child node ->
    nested s node
| nested_items s node :
    Js.truthy (Js.prop "items" s) = true ->
    nested (Js.prop "items" s) node ->
    nested s node.

(** What a visit of [s] adds to the Set of names: the truthy name, other
    than [root], of a node nested in [s]. *)
Definition collected (root s n : value) : Prop :=
  exists node,
    nested s node /\ Js.prop "schemaName" node = n
    /\ Js.truthy n = true /\ Js.sameValueZero n root = false.

(** The enum of a node, when it has one, is a list. *)
Definition enumListed (node : value) : Prop :=
  Js.truthy (Js.prop "enum" node) = true -> exists members, Js.prop "enum" node = VArr members.

(** The string without its hyphens. *)
Fixpoint withoutHyphens (s : string) : string :=
  match s with
  | EmptyString => EmptyString
  | String a rest =>
      if Ascii.eqb a "-" then withoutHyphens rest else String a (withoutHyphens rest)
  end.

(** Somewhere in the string a lowercase letter comes directly before a
    capital. *)
Fixpoint hasLowerUpper (s : string) : bool :=
  match s with
  | EmptyString => false
  | String a rest =>
      match rest with
      | String b _ => isLowerLetter a && isUpperLetter b || hasLowerUpper rest
      | EmptyString => false
      end
  end.

(** Somewhere in the string a capital stands between a capital and a
    lowercase letter. *)
Fixpoint hasCapitalRunEnd (afterCapital : bool) (s : string) : bool :=
  match s with
  | EmptyString => false
  | String b rest =>
      match rest with
      | String c _ =>
          afterCapital && isUpperLetter b && isLowerLetter c
          || hasCapitalRunEnd (isUpperLetter b) rest
      | EmptyString => false
      end
  end.

(** The names of the members that a plain object inherits from
    [Object.prototype]. *)
Definition objectPrototypeNames : list string :=
  [ "__proto__"; "constructor"; "hasOwnProperty"; "isPrototypeOf";
    "propertyIsEnumerable"; "toLocaleString"; "toString"; "valueOf";
    "__defineGetter__"; "__defineSetter__"; "__lookupGetter__"; "__lookupSetter__" ]%string.

(** Reading [part] from [current] reads what [current] holds itself: it
    holds a member of that name, or it is a plain object and the name is
    none of those it inherits, so that the read gives undefined.  (An array
    inherits its methods, whose names vary with the engine: of an array only
    the reads of a member it holds are counted.) *)
Definition ownRead (current : value) (part : string) : Prop :=
  Js.prop part current <> VUndef
  \/ ((exists members, current = VObj members) /\ ~ In part objectPrototypeNames).

(** Every lookup of the pointer walk reads what the value holds itself.
    The model of a property read covers own members only, so this is the
    condition under which the walk of the model is the walk of the code. *)
Definition ownReads (parts : list string) (root : value) : Prop :=
  forall pre part post,
    parts = (pre ++ part :: post)%list ->
    Spec.isObject (Spec.lookupPath pre root) = true ->
    ownRead (Spec.lookupPath pre root) part.

(** [node] is populated as the simplified form of [schema] has to be: for
    an absent schema it is the node of type "unknown"; for a present one it
    carries a properties map and a required array, the map holds, for each
    property of the flattened schema, a node populated as the simplified
    form of that property's schema, and its items node, if any, is
    populated as the simplified form of the items schema.  (The key
    [__proto__], which an assignment treats apart, is left out.) *)
Fixpoint populatedFrom (fuel : nat) (originalSpec schema node : value) : Prop :=
  match fuel with
  | O => False
  | S fuel =>
      if Js.truthy schema
      then
        exists effective properties required,
          getEffectiveSchema fuel schema originalSpec = Ok effective
          /\ Js.prop "properties" node = VObj properties
          /\ Js.prop "required" node = VArr required
          /\ (forall key prop,
                key <> "__proto__"%string ->
                In (key, prop) (Js.entries (Js.prop "properties" effective)) ->
                exists child,
                  Js.lookup key properties = Some child
                  /\ populatedFrom fuel originalSpec prop child)
          /\ (forall items,
                Js.lookup "items" (Js.entries node) = Some items ->
                populatedFrom fuel originalSpec
                              (Js.or (Js.prop "items" effective) (Js.prop "items" schema))
                              items)
      else node = unknownSchema
  end.

(** A word boundary lies between [a] and [b], [b] being followed by
    [rest]: a lowercase letter before a capital, or a capital before a
    capital that a lowercase letter follows. *)
Definition wordBoundary (a b : ascii) (rest : string) : bool :=
  isLowerLetter a && isUpperLetter b
  || isUpperLetter a && isUpperLetter b
     && match rest with String c _ => isLowerLetter c | EmptyString => false end.

(** [str] with a hyphen at each of its word boundaries and nowhere else;
    [before] is the character that comes before [str], if any. *)
Fixpoint hyphenateBoundaries (before : option ascii) (str : string) : string :=
  match str with
  | EmptyString => EmptyString
  | String b rest =>
      if match before with Some a => wordBoundary a b rest | None => false end
      then String "-" (String b (hyphenateBoundaries (Some b) rest))
      else String b (hyphenateBoundaries (Some b) rest)
  end.

(** [split] is [str] with hyphens inserted: every character of [str] is in
    [split], in order, and what [split] has besides is hyphens. *)
Inductive hyphenated : string -> string -> Prop :=
| hyphenated_end : hyphenated EmptyString EmptyString
| hyphenated_keep a str split :
    hyphenated str split -> hyphenated (String a str) (String a split)
| hyphenated_insert str split :
    hyphenated str split -> hyphenated str (String "-" split).

(** The strings among the members of a list. *)
Definition strings (l : list value) : list string :=
  flat_map (fun v => match v with VStr s => [s] | _ => [] end) l.

End Doc.

(* ================================================================== *)
(** * Properties *)

(** ** Strings *)

Lemma append_assoc (a b c : string) : (a ++ b) ++ c = a ++ (b ++ c).
Proof. induction a as [|x a IH]; simpl; [reflexivity | now rewrite IH]. Qed.

Lemma split_not_nil c s : Str.split c s <> [].
Proof.
  destruct s as [|a s]; simpl; [discriminate|].
  destruct (Ascii.eqb a c); [discriminate|].
  destruct (Str.split c s); discriminate.
Qed.

Lemma split_join s : Str.join "/" (Str.split "/" s) = s.
Proof.
  induction s as [|a s IH]; [reflexivity|].
  simpl. destruct (Ascii.eqb_spec a "/") as [->|Hne].
  - pose proof (split_not_nil "/" s) as Hnil.
    destruct (Str.split "/" s) as [|p ps] eqn:E; [congruence|].
    change (Str.join "/" ("" :: p :: ps)) with ("" ++ "/" ++ Str.join "/" (p :: ps)).
    rewrite IH. reflexivity.
  - pose proof (split_not_nil "/" s) as Hnil.
    destruct (Str.split "/" s) as [|p ps] eqn:E; [congruence|].
    destruct ps as [|q qs]; simpl in *; now rewrite <- IH.
Qed.

Lemma split_noSlash s : Forall (fun p => Spec.noSlash p = true) (Str.split "/" s).
Proof.
  induction s as [|a s IH]; simpl.
  - constructor; [reflexivity | constructor].
  - destruct (Ascii.eqb a "/") eqn:E.
    + constructor; [reflexivity | exact IH].
    + destruct (Str.split "/" s) as [|p ps]; simpl.
      * constructor; [simpl; now rewrite E | constructor].
      * inversion IH; subst. constructor; [simpl; rewrite E; simpl; assumption | assumption].
Qed.

Lemma join_last sep parts :
  parts <> [] ->
  Str.join sep parts = last parts "" \/
  exists pre, Str.join sep parts = pre ++ sep ++ last parts "".
Proof.
  induction parts as [|p ps IH]; [congruence|]. intros _.
  destruct ps as [|q qs]; [left; reflexivity|].
  right. destruct IH as [IH|[pre IH]]; [discriminate| |].
  - exists p. change (Str.join sep (p :: q :: qs)) with (p ++ sep ++ Str.join sep (q :: qs)).
    rewrite IH. reflexivity.
  - exists (p ++ sep ++ pre).
    change (Str.join sep (p :: q :: qs)) with (p ++ sep ++ Str.join sep (q :: qs)).
    rewrite IH. change (last (p :: q :: qs) "") with (last (q :: qs) "").
    now rewrite !append_assoc.
Qed.

Lemma last_split_finalSegment ref : Spec.finalSegment ref (last (Str.split "/" ref) "").
Proof.
  split.
  - pose proof (split_noSlash ref) as HF. pose proof (split_not_nil "/" ref) as Hn.
    rewrite Forall_forall in HF. apply HF.
    destruct (Str.split "/" ref) as [|p ps]; [congruence|].
    clear. revert p. induction ps as [|q qs IH]; intros p; [left; reflexivity|].
    right. apply IH.
  - destruct (join_last "/" (split_not_nil "/" ref)) as [H|[pre H]];
      rewrite split_join in H; [left | right; exists pre]; exact H.
Qed.

Lemma endsWith_hasSuffix suf s : Str.endsWith suf s = true <-> Spec.hasSuffix suf s.
Proof.
  split.
  - induction s as [|a s IH]; cbn [Str.endsWith].
    + rewrite orb_false_r. intros H. apply String.eqb_eq in H. subst. now exists "".
    + intros H. apply orb_true_iff in H. destruct H as [H|H].
      * apply String.eqb_eq in H. subst. now exists "".
      * destruct (IH H) as [stem ->]. now exists (String a stem).
  - intros [stem ->]. induction stem as [|a stem IH].
    + change ("" ++ suf) with suf.
      destruct suf; cbn [Str.endsWith]; now rewrite String.eqb_refl.
    + change (String a stem ++ suf) with (String a (stem ++ suf)).
      cbn [Str.endsWith]. rewrite IH. apply orb_true_r.
Qed.

(** ** The error monad *)

Lemma bind_Ok {A B} (r : result A) (k : A -> result B) (b : B) :
  bind r k = Ok b -> exists a, r = Ok a /\ k a = Ok b.
Proof. destruct r; simpl; [eauto | discriminate]. Qed.

Ltac inv_bind H :=
  let a := fresh "a" in
  let Ha := fresh "Ha" in
  apply bind_Ok in H; destruct H as [a [Ha H]].

(** ** Property reads *)

Lemma prop_defined_object k v :
  Str.arrayIndex k = None -> String.eqb k "length" = false ->
  Js.prop k v <> VUndef -> exists o, v = VObj o.
Proof.
  intros Hi Hl Hv. destruct v; simpl in Hv; try congruence.
  - rewrite Hi, Hl in Hv. congruence.
  - rewrite Hi, Hl in Hv. congruence.
  - eauto.
Qed.

(** ** The name recoverer *)

Lemma extractSchemaName_unfold fuel schema :
  extractSchemaName (S fuel) schema =
  if negb (Js.truthy schema) then Ok None
  else
    match directName schema with
    | Some name => Ok (Some name)
    | None =>
        found <- scanComposites (extractSchemaName fuel) schema composites ;;
        if nameFound found then Ok found
        else
          if Js.strictEqStr (Js.prop "type" schema) "array"
             && Js.truthy (Js.prop "items" schema)
          then
            itemName <- extractSchemaName fuel (Js.prop "items" schema) ;;
            match itemName with
            | Some n => if nameFound itemName then Ok (Some (withArrayMarker n)) else Ok None
            | None => Ok None
            end
          else Ok None
    end.
Proof. reflexivity. Qed.

Lemma extractSchemaName_direct_ref_aux fuel schema ref :
  Spec.directRef schema ref ->
  extractSchemaName (S fuel) schema = Ok (Some (last (Str.split "/" ref) ""))
  /\ Js.truthy schema = true.
Proof.
  intros [Href Hne].
  destruct (@prop_defined_object "$ref" schema eq_refl eq_refl) as [o ->];
    [rewrite Href; discriminate|].
  split; [|reflexivity].
  rewrite extractSchemaName_unfold. cbn [Js.truthy negb].
  unfold directName. rewrite Href.
  cbn [Js.truthy]. apply String.eqb_neq in Hne. rewrite Hne. reflexivity.
Qed.

(** C5 (as amended).  A schema node whose own [$ref] is a non-empty string is
    named by the final path segment of that reference: the text after its last
    slash.  The rule looks at the node alone, so it holds wherever the node
    sits in a document. *)
Theorem extractSchemaName_direct_ref (fuel : nat) (schema : value) (ref : string) :
  Spec.directRef schema ref ->
  exists name,
    extractSchemaName (S fuel) schema = Ok (Some name) /\ Spec.finalSegment ref name.
Proof.
  intros Hd. exists (last (Str.split "/" ref) ""). split.
  - now apply extractSchemaName_direct_ref_aux.
  - apply last_split_finalSegment.
Qed.

Lemma extractSchemaName_direct_ref_witness :
  exists name,
    extractSchemaName 1 (VObj [("$ref", VStr "#/definitions/Pet")]) = Ok (Some name)
    /\ Spec.finalSegment "#/definitions/Pet" name.
Proof.
  apply (@extractSchemaName_direct_ref 0 (VObj [("$ref", VStr "#/definitions/Pet")])
                                       "#/definitions/Pet").
  split; [reflexivity | discriminate].
Defined.

(** C5 as stated fails on an empty reference string: the node carries the
    string, its final segment is the empty string, and no name is recovered. *)
Lemma extractSchemaName_empty_ref :
  Js.prop "$ref" (VObj [("$ref", VStr "")]) = VStr ""
  /\ Spec.finalSegment "" ""
  /\ extractSchemaName 1 (VObj [("$ref", VStr "")]) = Ok None
  /\ forall fuel, extractSchemaName fuel (VObj [("$ref", VStr "")]) <> Ok (Some "").
Proof.
  split; [reflexivity|]. split; [split; [reflexivity | now left]|].
  split; [reflexivity|].
  intros [|fuel]; [discriminate|]. destruct fuel; discriminate.
Qed.

Lemma extractSchemaName_Some_truthy fuel schema name :
  extractSchemaName fuel schema = Ok (Some name) -> Js.truthy schema = true.
Proof.
  destruct fuel as [|fuel]; [discriminate|]. simpl.
  destruct (Js.truthy schema); [reflexivity | discriminate].
Qed.

Lemma withArrayMarker_spec N :
  Spec.hasSuffix "[]" (withArrayMarker N)
  /\ (Spec.hasSuffix "[]" N -> withArrayMarker N = N)
  /\ (~ Spec.hasSuffix "[]" N -> withArrayMarker N = N ++ "[]").
Proof.
  unfold withArrayMarker. destruct (Str.endsWith "[]" N) eqn:E.
  - apply endsWith_hasSuffix in E.
    split; [exact E|]. split; [reflexivity|]. intros H. now elim H.
  - split; [now exists N|]. split; [|reflexivity].
    intros H. apply endsWith_hasSuffix in H. congruence.
Qed.

(** C6 (as amended).  For an array-typed node that has no non-empty [$ref] of
    its own and no composition branch yielding a name, and whose item node
    resolves to a non-empty name [N], the recovered name is [N] with exactly
    one trailing marker: [N] itself when it already ends with the marker,
    [N] followed by the marker otherwise. *)
Theorem extractSchemaName_array_marker
  (fuel : nat) (schema : value) (N : string) (found : option string) :
  Js.strictEqStr (Js.prop "type" schema) "array" = true ->
  extractSchemaName fuel (Js.prop "items" schema) = Ok (Some N) ->
  N <> "" ->
  (forall ref, ~ Spec.directRef schema ref) ->
  scanComposites (extractSchemaName fuel) schema composites = Ok found ->
  nameFound found = false ->
  exists name,
    extractSchemaName (S fuel) schema = Ok (Some name)
    /\ Spec.hasSuffix "[]" name
    /\ (Spec.hasSuffix "[]" N -> name = N)
    /\ (~ Spec.hasSuffix "[]" N -> name = N ++ "[]").
Proof.
  intros Htype Hitems HN Hnoref Hscan Hfound.
  exists (withArrayMarker N). split; [|apply withArrayMarker_spec].
  assert (Hobj : exists o, schema = VObj o).
  { apply (@prop_defined_object "type"); try reflexivity.
    intros E. rewrite E in Htype. discriminate. }
  destruct Hobj as [o ->].
  pose proof (extractSchemaName_Some_truthy _ _ Hitems) as Htruthy.
  rewrite extractSchemaName_unfold. cbn [Js.truthy negb].
  assert (Hdirect : directName (VObj o) = None).
  { unfold directName. destruct (Js.prop "$ref" (VObj o)) eqn:E; try reflexivity.
    destruct (Js.truthy (VStr s)) eqn:T; [|reflexivity].
    exfalso. apply (Hnoref s). split; [exact E|].
    intros ->. discriminate. }
  rewrite Hdirect, Hscan. cbn [bind]. rewrite Hfound, Htype, Htruthy. cbn [andb].
  rewrite Hitems. cbn [bind nameFound Js.truthy].
  apply String.eqb_neq in HN. rewrite HN. reflexivity.
Qed.

Lemma extractSchemaName_array_marker_witness :
  exists name,
    extractSchemaName 2
      (VObj [("type", VStr "array");
             ("items", VObj [("$ref", VStr "#/definitions/Pet")])]) = Ok (Some name)
    /\ Spec.hasSuffix "[]" name
    /\ (Spec.hasSuffix "[]" "Pet" -> name = "Pet")
    /\ (~ Spec.hasSuffix "[]" "Pet" -> name = "Pet" ++ "[]").
Proof.
  apply (@extractSchemaName_array_marker 1
           (VObj [("type", VStr "array");
                  ("items", VObj [("$ref", VStr "#/definitions/Pet")])])
           "Pet" None).
  - reflexivity.
  - reflexivity.
  - discriminate.
  - intros ref [H _]. discriminate H.
  - reflexivity.
  - reflexivity.
Defined.

(** C6 as stated fails in three ways.  An array node that carries a reference
    of its own is named after that reference and gets no marker, though its
    items resolve to "Pet"; so is one with a named composition branch; and
    when the items resolve to the empty name, the array gets no name at all
    rather than the bare marker. *)
Lemma extractSchemaName_array_own_ref :
  let items := VObj [("$ref", VStr "#/definitions/Pet")] in
  let withRef :=
    VObj [("$ref", VStr "#/definitions/PetList"); ("type", VStr "array"); ("items", items)] in
  let withBranch :=
    VObj [("allOf", VArr [VObj [("$ref", VStr "#/definitions/Base")]]);
          ("type", VStr "array"); ("items", items)] in
  let emptyName :=
    VObj [("type", VStr "array"); ("items", VObj [("$ref", VStr "#/definitions/")])] in
  (Js.strictEqStr (Js.prop "type" withRef) "array" = true
   /\ extractSchemaName 1 (Js.prop "items" withRef) = Ok (Some "Pet")
   /\ extractSchemaName 2 withRef = Ok (Some "PetList")
   /\ forall fuel, extractSchemaName fuel withRef <> Ok (Some "Pet[]"))
  /\ (Js.strictEqStr (Js.prop "type" withBranch) "array" = true
      /\ extractSchemaName 1 (Js.prop "items" withBranch) = Ok (Some "Pet")
      /\ extractSchemaName 2 withBranch = Ok (Some "Base")
      /\ forall fuel, extractSchemaName fuel withBranch <> Ok (Some "Pet[]"))
  /\ (Js.strictEqStr (Js.prop "type" emptyName) "array" = true
      /\ extractSchemaName 1 (Js.prop "items" emptyName) = Ok (Some "")
      /\ extractSchemaName 2 emptyName = Ok None
      /\ forall fuel, extractSchemaName fuel emptyName <> Ok (Some "[]")).
Proof.
  cbv zeta. split; [|split].
  - split; [reflexivity|]. split; [reflexivity|]. split; [reflexivity|].
    intros [|fuel]; [discriminate|]. vm_compute. discriminate.
  - split; [reflexivity|]. split; [reflexivity|]. split; [reflexivity|].
    intros [|[|fuel]]; vm_compute; discriminate.
  - split; [reflexivity|]. split; [reflexivity|]. split; [reflexivity|].
    intros [|[|fuel]]; vm_compute; discriminate.
Qed.

(** ** The reference resolver *)

Lemma resolveRef_unfold fuel schema spec :
  resolveRef (S fuel) schema spec =
  if negb (Js.truthy schema) || negb (Js.truthy spec)
     || negb (Js.isString (Js.prop "$ref" schema))
  then Ok schema
  else
    match Js.prop "$ref" schema with
    | VStr ref =>
        if negb (Str.startsWith "#/" ref) then Ok schema
        else
          match walk (tl (Str.split "/" ref)) spec with
          | None => Ok schema
          | Some current =>
              if Js.truthy current then resolveRef fuel current spec else Ok schema
          end
    | _ => Ok schema
    end.
Proof. reflexivity. Qed.

Lemma walk_guard v : Js.truthy v && Js.isObjectType v = Spec.isObject v.
Proof. destruct v; simpl; rewrite ?andb_false_r; reflexivity. Qed.

Lemma walk_key part : (if String.eqb part "definitions" then "definitions" else part) = part.
Proof. destruct (String.eqb_spec part "definitions"); congruence. Qed.

Lemma walk_None parts root : walk parts root = None <-> Spec.walkBlocked parts root.
Proof.
  revert root. induction parts as [|part rest IH]; intros root; simpl.
  - split; [discriminate|]. intros (pre & p & post & E & _). destruct pre; discriminate.
  - rewrite walk_guard, walk_key. destruct (Spec.isObject root) eqn:Hobj.
    + rewrite IH. split.
      * intros (pre & p & post & E & H). exists (part :: pre), p, post. split.
        -- simpl. now rewrite E.
        -- exact H.
      * intros (pre & p & post & E & H). destruct pre as [|q pre].
        -- simpl in H. congruence.
        -- simpl in E. inversion E; subst. exists pre, p, post. split; [reflexivity | exact H].
    + split; [|reflexivity]. intros _. exists [], part, rest. split; [reflexivity | exact Hobj].
Qed.

Lemma walk_Some parts root target :
  walk parts root = Some target -> target = Spec.lookupPath parts root.
Proof.
  revert root. induction parts as [|part rest IH]; intros root; simpl.
  - congruence.
  - rewrite walk_key. destruct (Js.truthy root && Js.isObjectType root); [|discriminate].
    apply IH.
Qed.

(** C9 (as amended).  For a node whose [$ref] is the string [ref]:
    the node itself is returned when [ref] does not start with the in-document
    marker or when the document is absent; and, for a pointer every segment
    of which is looked up as a member the value holds itself, or in a plain
    object that neither holds nor inherits a member of that name, the node
    itself is returned when some lookup of the walk is attempted on a value
    that is not an object, or when the walk ends on a falsy value; when the
    walk of such a pointer goes through and ends on a truthy value,
    resolution continues from that value, so an alias is followed rather
    than returned (and a target that is not an object, such as a string, is
    returned as it is).  A segment that names an inherited member
    ([__proto__], [constructor], ...) of a value that does not hold it leads
    to an object of the engine, which this statement leaves out. *)
Theorem resolveRef_cases (fuel : nat) (schema spec : value) (ref : string) :
  Js.prop "$ref" schema = VStr ref ->
  let parts := tl (Str.split "/" ref) in
  let target := Spec.lookupPath parts spec in
  (Str.startsWith "#/" ref = false -> resolveRef (S fuel) schema spec = Ok schema)
  /\ (Js.truthy spec = false -> resolveRef (S fuel) schema spec = Ok schema)
  /\ (Doc.ownReads parts spec ->
      Spec.walkBlocked parts spec -> resolveRef (S fuel) schema spec = Ok schema)
  /\ (Doc.ownReads parts spec ->
      Js.truthy target = false -> resolveRef (S fuel) schema spec = Ok schema)
  /\ (Str.startsWith "#/" ref = true -> Js.truthy spec = true ->
      Doc.ownReads parts spec ->
      ~ Spec.walkBlocked parts spec -> Js.truthy target = true ->
      resolveRef (S fuel) schema spec = resolveRef fuel target spec).
Proof.
  intros Href parts target.
  destruct (@prop_defined_object "$ref" schema eq_refl eq_refl) as [o ->];
    [rewrite Href; discriminate|].
  rewrite resolveRef_unfold, Href. cbn [Js.truthy Js.isString negb orb].
  repeat split.
  - intros ->. now destruct (Js.truthy spec).
  - intros ->. reflexivity.
  - intros _ Hblocked. apply walk_None in Hblocked. fold parts. rewrite Hblocked.
    destruct (Js.truthy spec); [|reflexivity].
    now destruct (Str.startsWith "#/" ref).
  - intros _ Hfalsy. destruct (Js.truthy spec); [|reflexivity]. cbn [negb orb].
    destruct (Str.startsWith "#/" ref); [|reflexivity]. cbn [negb].
    fold parts. destruct (walk parts spec) as [current|] eqn:W; [|reflexivity].
    apply walk_Some in W. fold target in W. subst current. now rewrite Hfalsy.
  - intros Hmark Hspec _ Hfree Htruthy. rewrite Hspec, Hmark. cbn [negb orb].
    fold parts. destruct (walk parts spec) as [current|] eqn:W.
    + apply walk_Some in W. fold target in W. subst current. now rewrite Htruthy.
    + exfalso. apply Hfree. now apply walk_None.
Qed.

(** An alias is followed: the reference leads to a node that is itself a
    reference, and the resolver goes on to that node's target. *)
Lemma resolveRef_cases_witness :
  let spec :=
    VObj [("definitions",
           VObj [("Alias", VObj [("$ref", VStr "#/definitions/Pet")]);
                 ("Pet", VObj [("type", VStr "object")])])] in
  resolveRef 3 (VObj [("$ref", VStr "#/definitions/Alias")]) spec
  = Ok (VObj [("type", VStr "object")]).
Proof.
  intros spec.
  destruct (@resolveRef_cases 2 (VObj [("$ref", VStr "#/definitions/Alias")]) spec
              "#/definitions/Alias" eq_refl) as (_ & _ & _ & _ & Hfollow).
  rewrite Hfollow.
  - reflexivity.
  - reflexivity.
  - reflexivity.
  - intros pre part post E _.
    destruct pre as [|p1 [|p2 [|p3 pre]]]; simpl in E; inversion E; subst;
      left; discriminate.
  - intros (pre & part & post & E & H).
    destruct pre as [|p1 [|p2 [|p3 pre]]]; simpl in E; inversion E; subst;
      discriminate H.
  - reflexivity.
Defined.

(** C9 as stated fails when the last lookup yields a value that is not an
    object: a reference to the document title resolves to the title string,
    not to the reference node. *)
Lemma resolveRef_string_target :
  let spec := VObj [("info", VObj [("title", VStr "Petstore")])] in
  let schema := VObj [("$ref", VStr "#/info/title")] in
  Spec.lookupPath ["info"; "title"] spec = VStr "Petstore"
  /\ Spec.isObject (VStr "Petstore") = false
  /\ resolveRef 2 schema spec = Ok (VStr "Petstore")
  /\ forall fuel, resolveRef fuel schema spec <> Ok schema.
Proof.
  cbv zeta. split; [reflexivity|]. split; [reflexivity|]. split; [reflexivity|].
  intros [|[|fuel]]; vm_compute; discriminate.
Qed.


(** ** Objects *)

Open Scope list_scope.

Lemma arrayIndex_ofIndex k n : Str.arrayIndex k = Some n -> k = Str.ofIndex n.
Proof.
  unfold Str.arrayIndex, Str.ofIndex.
  destruct (NilEmpty.uint_of_string k) as [d|] eqn:Hd; [|discriminate].
  destruct (String.eqb_spec (NilEmpty.string_of_uint (Decimal.unorm d)) k) as [Hk|];
    [|discriminate].
  destruct (N.of_uint d <? 4294967295)%N; [|discriminate].
  intros H. inversion H; subst n. now rewrite DecimalN.Unsigned.to_of.
Qed.

Lemma arrayIndex_inj k k' n :
  Str.arrayIndex k = Some n -> Str.arrayIndex k' = Some n -> k = k'.
Proof.
  intros H H'. apply arrayIndex_ofIndex in H. apply arrayIndex_ofIndex in H'. congruence.
Qed.

Lemma lookup_None k (o : object) : Js.lookup k o = None <-> ~ In k (map fst o).
Proof.
  induction o as [|[k' v'] o IH]; simpl.
  - tauto.
  - destruct (String.eqb_spec k' k).
    + split; [discriminate | intros H; elim H; now left].
    + rewrite IH. tauto.
Qed.

Lemma lookup_app k (o o' : object) :
  Js.lookup k (o ++ o') =
  match Js.lookup k o with Some v => Some v | None => Js.lookup k o' end.
Proof.
  induction o as [|[k' v'] o IH]; simpl; [reflexivity|].
  now destruct (String.eqb k' k).
Qed.

Lemma lookup_replace k k' v (o : object) :
  Js.lookup k' (Js.replace k v o) =
  if String.eqb k k' then match Js.lookup k o with Some _ => Some v | None => None end
  else Js.lookup k' o.
Proof.
  induction o as [|[k1 v1] o IH]; simpl.
  - now destruct (String.eqb k k').
  - destruct (String.eqb_spec k1 k) as [->|Hne]; simpl.
    + destruct (String.eqb_spec k k'); reflexivity.
    + rewrite IH. destruct (String.eqb_spec k k') as [<-|Hkk'].
      * destruct (String.eqb_spec k1 k); [congruence | reflexivity].
      * reflexivity.
Qed.

Lemma lookup_insertIndex n k k' v (o : object) :
  Js.lookup k o = None ->
  Js.lookup k' (Js.insertIndex n k v o) = if String.eqb k k' then Some v else Js.lookup k' o.
Proof.
  induction o as [|[k1 v1] o IH]; simpl; intros Hk.
  - reflexivity.
  - destruct (String.eqb_spec k1 k) as [|Hne]; [discriminate|].
    destruct (Str.arrayIndex k1) as [n1|]; [destruct (n1 <? n)%N|]; simpl;
      try reflexivity.
    rewrite (IH Hk). destruct (String.eqb_spec k1 k') as [->|];
      [destruct (String.eqb_spec k k'); congruence | reflexivity].
Qed.

Lemma lookup_set k k' v (o : object) :
  Js.lookup k' (Js.set k v o) = if String.eqb k k' then Some v else Js.lookup k' o.
Proof.
  unfold Js.set. destruct (Js.lookup k o) eqn:Hk.
  - rewrite lookup_replace, Hk. reflexivity.
  - destruct (Str.arrayIndex k).
    + now apply lookup_insertIndex.
    + rewrite lookup_app. simpl. destruct (String.eqb_spec k k') as [<-|].
      * now rewrite Hk.
      * now destruct (Js.lookup k' o).
Qed.

Lemma keys_replace k v (o : object) : map fst (Js.replace k v o) = map fst o.
Proof.
  induction o as [|[k1 v1] o IH]; simpl; [reflexivity|].
  destruct (String.eqb k1 k); simpl; [reflexivity | now rewrite IH].
Qed.

Lemma keys_insertIndex n k v (o : object) x :
  In x (map fst (Js.insertIndex n k v o)) <-> x = k \/ In x (map fst o).
Proof.
  induction o as [|[k1 v1] o IH]; simpl.
  - intuition.
  - destruct (Str.arrayIndex k1) as [n1|]; [destruct (n1 <? n)%N|]; simpl;
      rewrite ?IH; intuition.
Qed.

Lemma canonical_insertIndex n k v (o : object) :
  Spec.canonical o -> Js.lookup k o = None -> Str.arrayIndex k = Some n ->
  Spec.canonical (Js.insertIndex n k v o).
Proof.
  unfold Spec.canonical. intros Hs Hk Hn.
  induction o as [|[k1 v1] o IH]; simpl.
  - constructor; constructor.
  - simpl in Hs, Hk. apply StronglySorted_inv in Hs. destruct Hs as [Hs Hall].
    destruct (String.eqb_spec k1 k) as [|Hne]; [discriminate|].
    assert (Hrest : Forall (Spec.keyBefore k) (map fst o) ->
                    Spec.keyBefore k k1 ->
                    StronglySorted Spec.keyBefore (k :: k1 :: map fst o)).
    { intros H1 H2. constructor; [constructor; assumption|]. constructor; assumption. }
    apply lookup_None in Hk.
    destruct (Str.arrayIndex k1) as [n1|] eqn:Hn1; [destruct (n1 <? n)%N eqn:Hlt|].
    + simpl. constructor; [now apply IH; [|apply lookup_None]|].
      rewrite Forall_forall in *. intros x Hx. apply keys_insertIndex in Hx.
      destruct Hx as [->|Hx]; [|auto].
      split; [assumption|]. rewrite Hn1, Hn. now apply N.ltb_lt.
    + apply N.ltb_ge in Hlt. apply Hrest.
      * rewrite Forall_forall in *. intros x Hx. specialize (Hall x Hx).
        destruct Hall as [_ Hall]. split; [intros ->; contradiction|].
        rewrite Hn1 in Hall. rewrite Hn. destruct (Str.arrayIndex x); [lia | exact I].
      * split; [congruence|]. rewrite Hn, Hn1.
        assert (n <> n1) by (intros ->; apply Hne; eapply arrayIndex_inj; eauto). lia.
    + apply Hrest.
      * rewrite Forall_forall in *. intros x Hx. specialize (Hall x Hx).
        destruct Hall as [_ Hall]. split; [intros ->; contradiction|].
        rewrite Hn1 in Hall. rewrite Hn. destruct (Str.arrayIndex x); [contradiction | exact I].
      * split; [congruence|]. now rewrite Hn, Hn1.
Qed.

Lemma canonical_snoc (o : object) k v :
  Spec.canonical o -> Js.lookup k o = None -> Str.arrayIndex k = None ->
  Spec.canonical (o ++ [(k, v)]).
Proof.
  unfold Spec.canonical. intros Hs Hk Hn. apply lookup_None in Hk.
  induction o as [|[k1 v1] o IH]; simpl in *.
  - constructor; constructor.
  - apply StronglySorted_inv in Hs. destruct Hs as [Hs Hall].
    constructor; [apply IH; tauto|].
    rewrite map_app, Forall_app. split; [assumption|].
    constructor; [|constructor]. split; [tauto|].
    simpl. rewrite Hn. now destruct (Str.arrayIndex k1).
Qed.

Lemma canonical_set k v (o : object) : Spec.canonical o -> Spec.canonical (Js.set k v o).
Proof.
  intros Hs. unfold Js.set. destruct (Js.lookup k o) eqn:Hk.
  - unfold Spec.canonical. now rewrite keys_replace.
  - destruct (Str.arrayIndex k) eqn:Hn.
    + now apply canonical_insertIndex.
    + now apply canonical_snoc.
Qed.

Lemma canonical_spread (acc : object) v : Spec.canonical acc -> Spec.canonical (Js.spread acc v).
Proof.
  unfold Js.spread. generalize (Js.entries v). intros es. revert acc.
  induction es as [|[k x] es IH]; intros acc Hacc; simpl; [assumption|].
  apply IH. now apply canonical_set.
Qed.

Lemma canonical_nil : Spec.canonical [].
Proof. constructor. Qed.

Lemma canonical_NoDup (o : object) : Spec.canonical o -> NoDup (map fst o).
Proof.
  unfold Spec.canonical. induction (map fst o) as [|k ks IH]; intros Hs; constructor.
  - apply StronglySorted_inv in Hs. destruct Hs as [_ Hall].
    rewrite Forall_forall in Hall. intros Hin. now destruct (Hall k Hin).
  - apply IH. now apply StronglySorted_inv in Hs.
Qed.

Lemma lookup_fold_set k (es acc : object) :
  NoDup (map fst es) ->
  Js.lookup k (fold_left (fun o kv => Js.set (fst kv) (snd kv) o) es acc) =
  match Js.lookup k es with Some v => Some v | None => Js.lookup k acc end.
Proof.
  revert acc. induction es as [|[k1 v1] es IH]; intros acc Hnd; simpl; [reflexivity|].
  inversion Hnd as [|? ? Hnotin Hnd']; subst. rewrite (IH _ Hnd'), lookup_set. simpl.
  destruct (String.eqb_spec k1 k) as [->|]; [|reflexivity].
  apply lookup_None in Hnotin. now rewrite Hnotin.
Qed.


(** ** The composition flattener *)

Lemma getEffectiveSchema_unfold fuel schema spec :
  getEffectiveSchema (S fuel) schema spec =
  if negb (Js.truthy schema) then Ok (VObj [])
  else
    resolved <- resolveRef fuel schema spec ;;
    properties <- Js.get "properties" resolved ;;
    required <-
      (if Js.truthy (Js.prop "required" resolved)
       then Js.iterate (Js.prop "required" resolved)
       else Ok []) ;;
    acc <-
      match Js.prop "allOf" resolved with
      | VArr subs =>
          foldM (fun acc sub =>
                   subEffective <- getEffectiveSchema fuel sub spec ;;
                   mergeBranch acc subEffective)
                subs
                (Effective.make
                   (Js.spread [] (Js.or properties (VObj [])))
                   (Js.prop "type" resolved)
                   (Js.prop "enum" resolved)
                   (Js.prop "items" resolved)
                   required)
      | _ => Ok (Effective.make
                   (Js.spread [] (Js.or properties (VObj [])))
                   (Js.prop "type" resolved)
                   (Js.prop "enum" resolved)
                   (Js.prop "items" resolved)
                   required)
      end ;;
    Ok (Effective.toValue acc).
Proof. reflexivity. Qed.

Lemma mergeBranch_properties acc subEffective acc' :
  mergeBranch acc subEffective = Ok acc' ->
  Effective.properties acc' =
  Js.spread (Js.spread [] (VObj (Effective.properties acc)))
            (Js.or (Js.prop "properties" subEffective) (VObj [])).
Proof.
  unfold mergeBranch. intros H. inv_bind H. inversion H. reflexivity.
Qed.

Lemma spread_lookup k acc v :
  NoDup (map fst (Js.entries v)) ->
  Js.lookup k (Js.spread acc v) =
  match Js.lookup k (Js.entries v) with Some x => Some x | None => Js.lookup k acc end.
Proof. intros Hnd. unfold Js.spread. now apply lookup_fold_set. Qed.

Lemma foldM_merge_canonical fuel spec subs acc acc' :
  foldM (fun acc sub =>
           subEffective <- getEffectiveSchema fuel sub spec ;;
           mergeBranch acc subEffective) subs acc = Ok acc' ->
  Spec.canonical (Effective.properties acc) ->
  Spec.canonical (Effective.properties acc').
Proof.
  revert acc. induction subs as [|sub subs IH]; intros acc H Hc; simpl in H.
  - inversion H. now subst.
  - inv_bind H. inv_bind Ha. apply (IH _ H).
    rewrite (mergeBranch_properties _ _ Ha). apply canonical_spread, canonical_spread.
    apply canonical_nil.
Qed.

(** The flattened view of a present schema is an object of five fields whose
    property map is a real object. *)
Lemma getEffectiveSchema_shape fuel schema spec eff :
  getEffectiveSchema fuel schema spec = Ok eff ->
  if Js.truthy schema
  then exists acc, eff = Effective.toValue acc /\ Spec.canonical (Effective.properties acc)
  else eff = VObj [].
Proof.
  destruct fuel as [|fuel]; [discriminate|]. rewrite getEffectiveSchema_unfold.
  destruct (Js.truthy schema); cbn [negb]; [|intros H; now inversion H].
  intros H. inv_bind H. inv_bind H. inv_bind H. inv_bind H. inversion H; subst eff.
  exists a2. split; [reflexivity|].
  assert (Hc0 : Spec.canonical (Js.spread [] (Js.or a0 (VObj []))))
    by apply canonical_spread, canonical_nil.
  destruct (Js.prop "allOf" a).
  1-5, 7: inversion Ha2; subst a2; exact Hc0.
  eapply foldM_merge_canonical; [exact Ha2 | exact Hc0].
Qed.

Lemma branchProperties_canonical fuel sub spec e :
  getEffectiveSchema fuel sub spec = Ok e -> Spec.canonical (Spec.branchProperties e).
Proof.
  intros H. apply getEffectiveSchema_shape in H. unfold Spec.branchProperties.
  destruct (Js.truthy sub).
  - destruct H as (acc & -> & Hc). exact Hc.
  - subst e. apply canonical_nil.
Qed.

Lemma foldM_merge_lookup fuel spec subs acc acc' :
  foldM (fun acc sub =>
           subEffective <- getEffectiveSchema fuel sub spec ;;
           mergeBranch acc subEffective) subs acc = Ok acc' ->
  Spec.canonical (Effective.properties acc) ->
  exists branches,
    Forall2 (fun sub branch =>
               exists e, getEffectiveSchema fuel sub spec = Ok e
                         /\ branch = Spec.branchProperties e) subs branches
    /\ forall k, Js.lookup k (Effective.properties acc') =
                 Spec.overrideLookup k (Effective.properties acc) branches.
Proof.
  revert acc. induction subs as [|sub subs IH]; intros acc H Hc; simpl in H.
  - inversion H; subst. exists []. split; [constructor | reflexivity].
  - inv_bind H. inv_bind Ha. rename a0 into e, a into acc1.
    pose proof (mergeBranch_properties _ _ Ha) as Hprops.
    assert (Hc1 : Spec.canonical (Effective.properties acc1)).
    { rewrite Hprops. apply canonical_spread, canonical_spread, canonical_nil. }
    destruct (IH _ H Hc1) as (branches & HF & Hlook).
    exists (Spec.branchProperties e :: branches). split.
    + constructor; [exists e; split; [assumption | reflexivity] | assumption].
    + intros k. rewrite Hlook. unfold Spec.overrideLookup. simpl. f_equal.
      rewrite Hprops.
      rewrite spread_lookup
        by (apply canonical_NoDup; eapply branchProperties_canonical; eassumption).
      fold (Spec.branchProperties e).
      destruct (Js.lookup k (Spec.branchProperties e)); [reflexivity|].
      rewrite spread_lookup by (now apply canonical_NoDup). simpl.
      now destruct (Js.lookup k (Effective.properties acc)).
Qed.

Lemma get_Ok k v x : Js.get k v = Ok x -> x = Js.prop k v /\ Js.nullish v = false.
Proof. unfold Js.get. destruct (Js.nullish v); [discriminate|]. intros H. now inversion H. Qed.

Lemma resolveRef_falsy fuel schema spec resolved :
  Js.truthy schema = false -> resolveRef fuel schema spec = Ok resolved -> resolved = schema.
Proof.
  destruct fuel as [|fuel]; [discriminate|]. rewrite resolveRef_unfold.
  intros ->. cbn [negb orb]. intros H. now inversion H.
Qed.

Lemma mergeBranch_returns acc fuel sub spec e :
  getEffectiveSchema fuel sub spec = Ok e -> exists acc', mergeBranch acc e = Ok acc'.
Proof.
  intros H. apply getEffectiveSchema_shape in H. unfold mergeBranch.
  destruct (Js.truthy sub).
  - destruct H as (a & -> & _). eexists. reflexivity.
  - subst e. eexists. reflexivity.
Qed.

Lemma foldM_merge_returns fuel spec subs effs :
  Forall2 (fun sub e => getEffectiveSchema fuel sub spec = Ok e) subs effs ->
  forall acc, exists acc',
    foldM (fun acc sub =>
             subEffective <- getEffectiveSchema fuel sub spec ;;
             mergeBranch acc subEffective) subs acc = Ok acc'.
Proof.
  induction 1 as [|sub e subs effs Hsub _ IH]; intros acc; simpl.
  - now exists acc.
  - rewrite Hsub. cbn [bind].
    destruct (@mergeBranch_returns acc fuel sub spec e Hsub) as [acc1 ->]. cbn [bind].
    apply IH.
Qed.

(** C2 (as amended).  For a node whose resolved form declares an all-of
    composition, the flattened property map is the union of the node's own
    properties and the property maps of all flattened branches: on a key
    collision a later branch overrides an earlier one, and every branch
    overrides the node's own direct properties.  The flattened view is
    produced as soon as the branches are flattened and the node's required
    list can be copied. *)
Theorem getEffectiveSchema_allOf_properties
  (fuel : nat) (schema spec resolved : value) (subs : list value) :
  resolveRef fuel schema spec = Ok resolved ->
  Js.prop "allOf" resolved = VArr subs ->
  (forall eff,
     getEffectiveSchema (S fuel) schema spec = Ok eff ->
     exists branches props,
       Forall2 (fun sub branch =>
                  exists e, getEffectiveSchema fuel sub spec = Ok e
                            /\ branch = Spec.branchProperties e) subs branches
       /\ Js.prop "properties" eff = VObj props
       /\ forall k,
            Js.lookup k props =
            Spec.overrideLookup k
              (Js.spread [] (Js.or (Js.prop "properties" resolved) (VObj []))) branches)
  /\ (forall required effs,
        (if Js.truthy (Js.prop "required" resolved)
         then Js.iterate (Js.prop "required" resolved) else Ok []) = Ok required ->
        Forall2 (fun sub e => getEffectiveSchema fuel sub spec = Ok e) subs effs ->
        exists eff, getEffectiveSchema (S fuel) schema spec = Ok eff).
Proof.
  intros Hres HallOf.
  assert (Htruthy : Js.truthy schema = true).
  { destruct (Js.truthy schema) eqn:T; [reflexivity|].
    rewrite (@resolveRef_falsy _ _ _ _ T Hres) in HallOf.
    destruct schema; try discriminate T; try discriminate HallOf. }
  split.
  - intros eff H.
    rewrite getEffectiveSchema_unfold, Htruthy, Hres in H. cbn [negb bind] in H.
    inv_bind H. apply get_Ok in Ha. destruct Ha as [-> _].
    inv_bind H. inv_bind H. inversion H; subst eff. clear H.
    rewrite HallOf in Ha0.
    apply foldM_merge_lookup in Ha0; [|apply canonical_spread, canonical_nil].
    destruct Ha0 as (branches & HF & Hlook).
    exists branches, (Effective.properties a0). split; [exact HF|]. split; [reflexivity|].
    exact Hlook.
  - intros required effs Hreq Heffs.
    rewrite getEffectiveSchema_unfold, Htruthy, Hres. cbn [negb bind].
    assert (Hget : Js.get "properties" resolved = Ok (Js.prop "properties" resolved)).
    { unfold Js.get. destruct resolved; try reflexivity; discriminate HallOf. }
    rewrite Hget, Hreq, HallOf. cbn [bind].
    destruct (@foldM_merge_returns fuel spec subs effs Heffs
                (Effective.make
                   (Js.spread [] (Js.or (Js.prop "properties" resolved) (VObj [])))
                   (Js.prop "type" resolved) (Js.prop "enum" resolved)
                   (Js.prop "items" resolved) required)) as [acc' ->].
    cbn [bind]. eexists. reflexivity.
Qed.

Lemma getEffectiveSchema_allOf_properties_witness :
  let own := VObj [("id", VObj [("type", VStr "string")])] in
  let sub := VObj [("properties", VObj [("id", VObj [("type", VStr "integer")]);
                                        ("name", VObj [("type", VStr "string")])])] in
  let schema := VObj [("properties", own); ("allOf", VArr [sub])] in
  exists eff branches props,
    getEffectiveSchema 3 schema VUndef = Ok eff
    /\ Forall2 (fun sub branch =>
                  exists e, getEffectiveSchema 2 sub VUndef = Ok e
                            /\ branch = Spec.branchProperties e) [sub] branches
    /\ Js.prop "properties" eff = VObj props
    /\ forall k,
         Js.lookup k props =
         Spec.overrideLookup k (Js.spread [] (Js.or (Js.prop "properties" schema) (VObj [])))
                             branches.
Proof.
  intros own sub schema.
  destruct (@getEffectiveSchema_allOf_properties 2 schema VUndef schema [sub]
              eq_refl eq_refl) as [Hunion Hreturns].
  destruct (getEffectiveSchema 2 sub VUndef) as [e|err] eqn:Esub;
    [|vm_compute in Esub; discriminate Esub].
  destruct (Hreturns [] [e] eq_refl) as [eff Heff].
  { constructor; [exact Esub | constructor]. }
  destruct (Hunion eff Heff) as (branches & props & HF & Hprops & Hlook).
  exists eff, branches, props. split; [exact Heff|]. split; [exact HF|].
  split; [exact Hprops | exact Hlook].
Defined.

(** C2 as stated fails where it lets the node's own properties win: the node
    declares [id] as a string, its only branch declares [id] as an integer, and
    the flattened map holds the branch's declaration. *)
Lemma getEffectiveSchema_branch_overrides_own :
  let schema :=
    VObj [("properties", VObj [("id", VObj [("type", VStr "string")])]);
          ("allOf", VArr [VObj [("properties",
                                 VObj [("id", VObj [("type", VStr "integer")])])]])] in
  Js.prop "id" (Js.prop "properties" schema) = VObj [("type", VStr "string")]
  /\ (exists eff, getEffectiveSchema 3 schema VUndef = Ok eff)
  /\ forall fuel eff,
       getEffectiveSchema fuel schema VUndef = Ok eff ->
       Js.prop "id" (Js.prop "properties" eff) = VObj [("type", VStr "integer")].
Proof.
  cbv zeta. split; [reflexivity|]. split; [eexists; vm_compute; reflexivity|].
  intros [|[|[|fuel]]] eff; try (vm_compute; discriminate).
  vm_compute. intros H. inversion H. reflexivity.
Qed.


(** ** Responses *)

Lemma extractResponsesStep_codes fuel responses originalResponses originalSpec acc code out :
  extractResponsesStep fuel responses originalResponses originalSpec acc code = Ok out ->
  map ResponseInfo.statusCode out =
  map ResponseInfo.statusCode acc
  ++ (if Js.truthy (Js.prop code responses) then [code] else []).
Proof.
  unfold extractResponsesStep. intros H. inv_bind H.
  apply get_Ok in Ha. destruct Ha as [-> _].
  destruct (Js.truthy (Js.prop code responses)); cbn [negb] in H.
  - inv_bind H. inv_bind H. inversion H; subst out. now rewrite map_app.
  - inversion H; subst out. now rewrite app_nil_r.
Qed.

Lemma foldM_extractResponses_codes fuel responses originalResponses originalSpec codes acc out :
  foldM (extractResponsesStep fuel responses originalResponses originalSpec) codes acc = Ok out ->
  map ResponseInfo.statusCode out =
  map ResponseInfo.statusCode acc
  ++ filter (fun code => Js.truthy (Js.prop code responses)) codes.
Proof.
  revert acc. induction codes as [|code codes IH]; intros acc H; simpl in H.
  - inversion H; subst out. now rewrite app_nil_r.
  - inv_bind H. rewrite (IH _ H), (extractResponsesStep_codes _ _ _ _ _ _ Ha), <- app_assoc.
    simpl. now destruct (Js.truthy (Js.prop code responses)).
Qed.

Lemma extractResponsesStep_absent fuel responses originalResponses originalSpec acc code :
  Js.nullish responses = false ->
  Js.truthy (Js.prop code responses) = false ->
  extractResponsesStep fuel responses originalResponses originalSpec acc code = Ok acc.
Proof.
  intros Hn Ht. unfold extractResponsesStep, Js.get. rewrite Hn. cbn [bind]. now rewrite Ht.
Qed.

Lemma extractResponsesStep_present fuel responses originalResponses originalSpec acc code
      name schema :
  Js.nullish responses = false ->
  Js.truthy (Js.prop code responses) = true ->
  coalesceName
    (extractSchemaName fuel (Spec.responseSchema (Js.prop code originalResponses)))
    (extractSchemaName fuel (Spec.responseSchema (Js.prop code responses))) = Ok name ->
  (if Js.truthy (Spec.responseSchema (Js.prop code responses))
   then simplifySchema fuel (Spec.responseSchema (Js.prop code responses))
                       (Spec.responseSchema (Js.prop code originalResponses))
                       name originalSpec
   else Ok VUndef) = Ok schema ->
  exists r,
    extractResponsesStep fuel responses originalResponses originalSpec acc code
    = Ok (acc ++ [r])
    /\ ResponseInfo.statusCode r = code
    /\ ResponseInfo.schema r = schema
    /\ ResponseInfo.schemaName r = name.
Proof.
  intros Hn Ht Hname Hschema. unfold extractResponsesStep, Js.get. rewrite Hn. cbn [bind].
  rewrite Ht. cbn [negb]. fold (Spec.responseSchema (Js.prop code responses)).
  fold (Spec.responseSchema (Js.prop code originalResponses)).
  rewrite Hname. cbn [bind]. rewrite Hschema. cbn [bind].
  eexists. split; [reflexivity|]. repeat split.
Qed.

(** C3.  The response list holds one entry per allow-listed status code that
    the response table declares, in allow-list order, and nothing else: a code
    outside the list never appears.  A table holding only "201" and "302"
    yields exactly the "201" entry, and does yield it as soon as the name and
    the schema of that response are worked out. *)
Theorem extractResponses_allow_list
  (fuel : nat) (responses originalResponses originalSpec : value) :
  (forall out,
     extractResponses fuel responses originalResponses originalSpec = Ok out ->
     map ResponseInfo.statusCode out
       = filter (fun code => Js.truthy (Js.prop code responses))
                ["200"; "201"; "204"; "400"; "401"; "403"; "404"; "500"]
     /\ (forall r, In r out ->
           In (ResponseInfo.statusCode r)
              ["200"; "201"; "204"; "400"; "401"; "403"; "404"; "500"])
     /\ (forall code,
           ~ In code ["200"; "201"; "204"; "400"; "401"; "403"; "404"; "500"] ->
           forall r, In r out -> ResponseInfo.statusCode r <> code))
  /\ (forall r201 r302,
        responses = VObj [("201", r201); ("302", r302)] ->
        Js.truthy r201 = true ->
        (forall out,
           extractResponses fuel responses originalResponses originalSpec = Ok out ->
           exists r, out = [r] /\ ResponseInfo.statusCode r = "201")
        /\ (forall name schema,
              coalesceName
                (extractSchemaName fuel
                   (Spec.responseSchema (Js.prop "201" originalResponses)))
                (extractSchemaName fuel (Spec.responseSchema r201)) = Ok name ->
              (if Js.truthy (Spec.responseSchema r201)
               then simplifySchema fuel (Spec.responseSchema r201)
                      (Spec.responseSchema (Js.prop "201" originalResponses))
                      name originalSpec
               else Ok VUndef) = Ok schema ->
              exists r,
                extractResponses fuel responses originalResponses originalSpec = Ok [r]
                /\ ResponseInfo.statusCode r = "201"
                /\ ResponseInfo.schema r = schema
                /\ ResponseInfo.schemaName r = name)).
Proof.
  assert (Hcodes : forall out,
             extractResponses fuel responses originalResponses originalSpec = Ok out ->
             map ResponseInfo.statusCode out
             = filter (fun code => Js.truthy (Js.prop code responses)) importantCodes).
  { intros out H. unfold extractResponses in H.
    apply foldM_extractResponses_codes in H. exact H. }
  split.
  - intros out H. pose proof (Hcodes out H) as Hc.
    assert (Hin : forall r, In r out -> In (ResponseInfo.statusCode r) importantCodes).
    { intros r Hr. apply (in_map ResponseInfo.statusCode) in Hr.
      rewrite Hc in Hr. apply filter_In in Hr. tauto. }
    split; [exact Hc|]. split; [exact Hin|].
    intros code Hout r Hr E. apply Hout. rewrite <- E. now apply Hin.
  - intros r201 r302 Htable Htruthy. split.
    + intros out H. pose proof (Hcodes out H) as Hc. subst responses.
      cbn in Hc. rewrite Htruthy in Hc.
      destruct out as [|r [|r' out]]; try discriminate Hc.
      exists r. split; [reflexivity|]. now inversion Hc.
    + intros name schema Hname Hschema. subst responses.
      destruct (@extractResponsesStep_present fuel (VObj [("201", r201); ("302", r302)])
                  originalResponses originalSpec [] "201"%string name schema
                  eq_refl Htruthy Hname Hschema) as (r & Hstep & Hr).
      exists r. split; [|exact Hr].
      unfold extractResponses, importantCodes. cbn [foldM].
      rewrite extractResponsesStep_absent by reflexivity. cbn [bind].
      rewrite Hstep. cbn [bind app].
      repeat (rewrite extractResponsesStep_absent by reflexivity; cbn [bind]).
      reflexivity.
Qed.

Lemma extractResponses_allow_list_witness :
  let responses :=
    VObj [("201", VObj [("description", VStr "Created");
                        ("schema", VObj [("$ref", VStr "#/definitions/Pet")])]);
          ("302", VObj [("description", VStr "Found")])] in
  exists r,
    extractResponses 3 responses VUndef VUndef = Ok [r]
    /\ ResponseInfo.statusCode r = "201"%string
    /\ ResponseInfo.schemaName r = Some "Pet"%string.
Proof.
  intros responses.
  destruct (@extractResponses_allow_list 3 responses VUndef VUndef) as [_ Honly].
  destruct (Honly _ _ eq_refl eq_refl) as [_ Hyields].
  destruct (simplifySchema 3 (VObj [("$ref", VStr "#/definitions/Pet")]) VUndef
                           (Some "Pet"%string) VUndef) as [schema|e] eqn:E;
    [|vm_compute in E; discriminate E].
  destruct (Hyields (Some "Pet"%string) schema eq_refl E) as (r & Hr & Hcode & _ & Hname).
  exists r. split; [exact Hr|]. split; [exact Hcode | exact Hname].
Defined.

(** ** Final segments are unique *)




(** ** Request bodies *)



Lemma prop_truthy_receiver k v : Js.truthy (Js.prop k v) = true -> Js.truthy v = true.
Proof.
  destruct v; simpl; try discriminate; try reflexivity.
  destruct s; [|reflexivity]. simpl.
  destruct (Str.arrayIndex k) as [n|]; [now destruct (N.to_nat n)|].
  now destruct (String.eqb k "length").
Qed.

Lemma keys_cons_truthy v first rest : Js.keys v = first :: rest -> Js.truthy v = true.
Proof.
  unfold Js.keys. destruct v; simpl; try discriminate; try reflexivity.
  now destruct s.
Qed.




Lemma keys_nil_prop k v :
  Str.arrayIndex k = None -> String.eqb k "length" = false ->
  Js.keys v = [] -> Js.prop k v = VUndef.
Proof.
  intros Hi Hl Hk. destruct v; simpl; rewrite ?Hi, ?Hl; try reflexivity.
  unfold Js.keys in Hk. simpl in Hk. now destruct entries.
Qed.

(** C8.  When the operation declares a modern request body, the body record
    does not depend on the body-located parameter; a record that is produced
    has content type "application/json" when the body declares it, and the
    first declared content type otherwise, and it is produced as soon as the
    name and the schema under that content type are worked out; no record is
    produced when the body declares no content type. *)
Theorem extractEndpointRequestBody_modern
  (fuel : nat) (operation bodyParam originalOperation originalSpec : value) :
  Js.truthy (Js.prop "requestBody" operation) = true ->
  let content := Js.prop "content" (Js.prop "requestBody" operation) in
  let chosen contentType :=
    (Js.truthy (Js.prop "application/json" content) = true
     /\ contentType = "application/json"%string)
    \/ (Js.truthy (Js.prop "application/json" content) = false
        /\ exists rest, Js.keys content = contentType :: rest) in
  (forall otherParam,
     extractEndpointRequestBody fuel operation otherParam originalOperation originalSpec
     = extractEndpointRequestBody fuel operation bodyParam originalOperation originalSpec)
  /\ (forall body,
        extractEndpointRequestBody fuel operation bodyParam originalOperation originalSpec
        = Ok (Some body) ->
        chosen (RequestBodyInfo.contentType body))
  /\ (forall contentType originalRequestBody originalBodyParam name schema,
        chosen contentType -> contentType <> ""%string ->
        resolveIfRef fuel (Js.prop "requestBody" originalOperation) originalSpec
        = Ok originalRequestBody ->
        originalBodyParamOf originalOperation = Ok originalBodyParam ->
        coalesceName
          (extractSchemaName fuel
             (Js.prop "schema" (Js.prop contentType (Js.prop "content" originalRequestBody))))
          (extractSchemaName fuel (Js.prop "schema" (Js.prop contentType content)))
        = Ok name ->
        simplifySchema fuel
          (Js.prop "schema" (Js.prop contentType content))
          (Js.prop "schema" (Js.prop contentType (Js.prop "content" originalRequestBody)))
          name originalSpec = Ok schema ->
        exists body,
          extractEndpointRequestBody fuel operation bodyParam originalOperation originalSpec
          = Ok (Some body)
          /\ RequestBodyInfo.contentType body = contentType
          /\ RequestBodyInfo.schema body = schema)
  /\ (Js.keys content = [] ->
      forall body,
        extractEndpointRequestBody fuel operation bodyParam originalOperation originalSpec
        <> Ok (Some body)).
Proof.
  intros Hmodern content chosen.
  assert (Hget : Js.get "requestBody" operation = Ok (Js.prop "requestBody" operation)).
  { unfold Js.get. destruct operation; try reflexivity; discriminate Hmodern. }
  assert (Hcontent : Js.get "content" (Js.prop "requestBody" operation) = Ok content).
  { unfold Js.get.
    destruct (Js.prop "requestBody" operation); try reflexivity; discriminate Hmodern. }
  assert (Hstep : forall param,
            extractEndpointRequestBody fuel operation param originalOperation originalSpec
            = (originalRequestBody <-
                 resolveIfRef fuel (Js.prop "requestBody" originalOperation) originalSpec ;;
               originalBodyParam <- originalBodyParamOf originalOperation ;;
               extractRequestBody fuel (Js.prop "requestBody" operation)
                                  originalRequestBody originalSpec)).
  { intros param. unfold extractEndpointRequestBody. rewrite Hget. cbn [bind].
    now rewrite Hmodern. }
  split; [intros otherParam; now rewrite !Hstep|].
  split; [|split].
  - intros body H. rewrite Hstep in H. inv_bind H. inv_bind H.
    unfold extractRequestBody in H. rewrite Hcontent in H. cbn [bind] in H.
    destruct (Js.truthy content); cbn [negb] in H; [|discriminate H].
    unfold chosen.
    destruct (Js.truthy (Js.prop "application/json" content)) eqn:Hjson.
    + cbn [Js.truthy negb String.eqb Ascii.eqb Bool.eqb] in H.
      inv_bind H. inv_bind H. inversion H. left. split; reflexivity.
    + destruct (Js.keys content) as [|first rest] eqn:Hkeys; cbn [hd_error] in H;
        [discriminate H|].
      destruct (negb (Js.truthy (VStr first))); [discriminate H|].
      inv_bind H. inv_bind H. inversion H. right. split; [reflexivity|]. now exists rest.
  - intros contentType originalRequestBody originalBodyParam name schema
           Hchosen Hne Horb Hobp Hname Hsimp.
    rewrite Hstep, Horb, Hobp. cbn [bind].
    unfold extractRequestBody. rewrite Hcontent. cbn [bind].
    assert (Hct : Js.truthy content = true
                  /\ (if Js.truthy (Js.prop "application/json" content)
                      then Some "application/json"%string
                      else hd_error (Js.keys content)) = Some contentType).
    { destruct Hchosen as [[Hjson ->]|[Hjson [rest Hkeys]]]; rewrite Hjson.
      - split; [|reflexivity]. eapply prop_truthy_receiver. exact Hjson.
      - split; [exact (keys_cons_truthy _ Hkeys) | now rewrite Hkeys]. }
    destruct Hct as [Htc ->]. rewrite Htc. cbn [negb Js.truthy].
    apply String.eqb_neq in Hne. rewrite Hne. cbn [negb].
    fold content. rewrite Hname. cbn [bind]. rewrite Hsimp. cbn [bind].
    eexists. split; [reflexivity|]. split; reflexivity.
  - intros Hkeys body H. rewrite Hstep in H. inv_bind H. inv_bind H.
    unfold extractRequestBody in H. rewrite Hcontent in H. cbn [bind] in H.
    destruct (Js.truthy content); cbn [negb] in H; [|discriminate H].
    rewrite (@keys_nil_prop "application/json" content eq_refl eq_refl Hkeys) in H.
    rewrite Hkeys in H. discriminate H.
Qed.

Lemma extractEndpointRequestBody_modern_witness :
  let operation :=
    VObj [("requestBody",
           VObj [("content",
                  VObj [("application/xml", VObj [("schema", VObj [("type", VStr "string")])]);
                        ("text/plain", VObj [("schema", VObj [("type", VStr "string")])])])]);
          ("parameters", VArr [VObj [("in", VStr "body");
                                     ("schema", VObj [("type", VStr "integer")])]])] in
  exists body,
    extractEndpointRequestBody 3 operation
      (VObj [("in", VStr "body"); ("schema", VObj [("type", VStr "integer")])]) VUndef VUndef
    = Ok (Some body)
    /\ RequestBodyInfo.contentType body = "application/xml"%string.
Proof.
  intros operation.
  destruct (@extractEndpointRequestBody_modern 3 operation
              (VObj [("in", VStr "body"); ("schema", VObj [("type", VStr "integer")])])
              VUndef VUndef eq_refl) as (_ & _ & Hreturns & _).
  destruct (simplifySchema 3 (VObj [("type", VStr "string")]) VUndef None VUndef)
    as [schema|e] eqn:E; [|vm_compute in E; discriminate E].
  destruct (Hreturns "application/xml"%string VUndef VUndef None schema) as (body & Hbody & Hct & _).
  - right. split; [reflexivity|]. now exists ["text/plain"%string].
  - discriminate.
  - reflexivity.
  - reflexivity.
  - reflexivity.
  - exact E.
  - exists body. split; [exact Hbody | exact Hct].
Defined.

(** ** The operation filter *)

Lemma someExcluded_spec excludeTags tags b :
  someExcluded excludeTags tags = Ok b ->
  exists ts, tags = VArr ts /\ (b = true <-> Spec.someTagExcluded excludeTags ts).
Proof.
  unfold someExcluded. destruct tags; try discriminate. intros H. inversion H; subst b.
  exists elems. split; [reflexivity|]. rewrite existsb_exists. split.
  - intros (tag & Hin & Hex). apply existsb_exists in Hex. destruct Hex as (e & He & Hsame).
    destruct tag; try discriminate Hsame. simpl in Hsame. apply String.eqb_eq in Hsame.
    subst. now exists s.
  - intros (tag & Hin & He). exists (VStr tag). split; [assumption|].
    apply existsb_exists. exists tag. split; [assumption|]. simpl. apply String.eqb_refl.
Qed.

Lemma extractEndpoint_fields builtins fuel path method operation pathItem
      originalOperation originalSpec ep :
  extractEndpoint builtins fuel path method operation pathItem originalOperation originalSpec
  = Ok ep ->
  EndpointInfo.path ep = path /\ EndpointInfo.method ep = method
  /\ EndpointInfo.tags ep = Spec.effectiveTags operation.
Proof.
  unfold extractEndpoint. intros H. inv_bind H. inv_bind H. destruct a0 as [parameters bodyParam].
  inv_bind H. inv_bind H. inversion H. split; [reflexivity|]. split; reflexivity.
Qed.

Section OperationFilter.
Variable builtins : Builtins.
Variables (fuel : nat) (excludeTags : list string) (excludeDeprecated : bool).
Variables (originalSpec : value).

Lemma extractEndpointsMethod_step path pathItem originalPathItem acc method acc' :
  extractEndpointsMethod builtins fuel excludeTags excludeDeprecated originalSpec
                         path pathItem originalPathItem acc method = Ok acc' ->
  (acc' = acc /\ ~ Spec.operationRetained excludeTags excludeDeprecated pathItem method)
  \/ (exists ep, acc' = acc ++ [ep]
                 /\ EndpointInfo.path ep = path /\ EndpointInfo.method ep = method
                 /\ Spec.operationRetained excludeTags excludeDeprecated pathItem method).
Proof.
  unfold extractEndpointsMethod, Spec.operationRetained. cbv zeta.
  set (operation := Js.prop (methodName method) pathItem).
  destruct (Js.truthy operation) eqn:Hop; cbn [negb].
  2: { intros H. inversion H. left. split; [reflexivity|]. intros [Habs _]. discriminate. }
  destruct (excludeDeprecated && Js.truthy (Js.prop "deprecated" operation)) eqn:Hdep.
  { intros H. inversion H. left. split; [reflexivity|]. intros (_ & Habs & _). discriminate. }
  intros H. inv_bind H. apply someExcluded_spec in Ha. destruct Ha as (ts & Hts & Hiff).
  fold (Spec.effectiveTags operation) in Hts.
  destruct a.
  - inversion H. left. split; [reflexivity|]. intros (_ & _ & tags & Htags & Hnone).
    rewrite Hts in Htags. inversion Htags; subst tags. apply Hnone. now apply Hiff.
  - inv_bind H. inversion H. right. exists a. split; [reflexivity|].
    apply extractEndpoint_fields in Ha. destruct Ha as (Hp & Hm & _).
    split; [assumption|]. split; [assumption|].
    split; [reflexivity|]. split; [reflexivity|].
    exists ts. split; [assumption|]. intros Hsome. apply Hiff in Hsome. discriminate.
Qed.

Lemma extractEndpointsMethod_fold path pathItem originalPathItem methods acc acc' :
  foldM (extractEndpointsMethod builtins fuel excludeTags excludeDeprecated originalSpec
                                path pathItem originalPathItem) methods acc = Ok acc' ->
  exists new,
    acc' = acc ++ new
    /\ (forall ep, In ep new ->
          EndpointInfo.path ep = path /\ In (EndpointInfo.method ep) methods
          /\ Spec.operationRetained excludeTags excludeDeprecated pathItem
                                    (EndpointInfo.method ep))
    /\ (forall method, In method methods ->
          Spec.operationRetained excludeTags excludeDeprecated pathItem method ->
          exists ep, In ep new /\ EndpointInfo.path ep = path
                     /\ EndpointInfo.method ep = method).
Proof.
  revert acc. induction methods as [|m methods IH]; intros acc H; simpl in H.
  - inversion H. exists []. rewrite app_nil_r.
    split; [reflexivity|]. split; intros; contradiction.
  - inv_bind H. destruct (IH _ H) as (new & -> & Hsound & Hcomplete).
    apply extractEndpointsMethod_step in Ha.
    destruct Ha as [[-> Hskip]|(ep & -> & Hp & Hm & Hret)].
    + exists new. split; [reflexivity|]. split.
      * intros ep Hep. destruct (Hsound ep Hep) as (? & ? & ?).
        split; [assumption|]. split; [now right | assumption].
      * intros method [<-|Hin] Hret; [contradiction | auto].
    + exists (ep :: new). split; [now rewrite <- app_assoc|]. split.
      * intros ep' [<-|Hep].
        -- split; [assumption|]. split; [now left | now rewrite Hm].
        -- destruct (Hsound ep' Hep) as (? & ? & ?).
           split; [assumption|]. split; [now right | assumption].
      * intros method [<-|Hin] Hret'.
        -- exists ep. split; [now left|]. split; assumption.
        -- destruct (Hcomplete method Hin Hret') as (ep' & ? & ? & ?).
           exists ep'. split; [now right|]. split; assumption.
Qed.

Variables (excludePathRegexes : list (string -> bool)) (originalPaths : value).

Lemma extractEndpointsPath_fold entries acc acc' :
  foldM (extractEndpointsPath builtins fuel excludeTags excludeDeprecated originalSpec
                              excludePathRegexes originalPaths) entries acc = Ok acc' ->
  exists new,
    acc' = acc ++ new
    /\ forall path method,
         (exists ep, In ep new /\ EndpointInfo.path ep = path
                     /\ EndpointInfo.method ep = method)
         <-> (exists pathItem,
                In (path, pathItem) entries
                /\ Js.truthy pathItem = true
                /\ existsb (fun regex => regex path) excludePathRegexes = false
                /\ Spec.operationRetained excludeTags excludeDeprecated pathItem method).
Proof.
  revert acc. induction entries as [|[p item] entries IH]; intros acc H; simpl in H.
  - inversion H. exists []. rewrite app_nil_r. split; [reflexivity|].
    intros path method. split.
    + intros (ep & [] & _).
    + intros (pathItem & [] & _).
  - inv_bind H. destruct (IH _ H) as (new & -> & Hiff). clear IH H.
    unfold extractEndpointsPath in Ha. cbn [fst snd] in Ha.
    assert (Hhere : exists here,
               a = acc ++ here
               /\ forall path method,
                    (exists ep, In ep here /\ EndpointInfo.path ep = path
                                /\ EndpointInfo.method ep = method)
                    <-> (path = p /\ Js.truthy item = true
                         /\ existsb (fun regex => regex p) excludePathRegexes = false
                         /\ Spec.operationRetained excludeTags excludeDeprecated item method)).
    { destruct (Js.truthy item) eqn:Hitem; cbn [negb] in Ha.
      2: { inversion Ha. exists []. rewrite app_nil_r. split; [reflexivity|].
           intros path method. split; [intros (ep & [] & _) | intros (_ & Habs & _)].
           discriminate. }
      destruct (existsb (fun regex => regex p) excludePathRegexes) eqn:Hre.
      { inversion Ha. exists []. rewrite app_nil_r. split; [reflexivity|].
        intros path method. split; [intros (ep & [] & _) | intros (_ & _ & Habs & _)].
        discriminate. }
      apply extractEndpointsMethod_fold in Ha.
      destruct Ha as (here & -> & Hsound & Hcomplete).
      exists here. split; [reflexivity|]. intros path method. split.
      - intros (ep & Hep & <- & <-). destruct (Hsound ep Hep) as (? & _ & ?). auto.
      - intros (-> & _ & _ & Hret). apply Hcomplete; [|assumption].
        unfold HTTP_METHODS. destruct method; simpl; tauto. }
    destruct Hhere as (here & -> & Hhere).
    exists (here ++ new). split; [now rewrite app_assoc|].
    intros path method. split.
    + intros (ep & Hep & Hp & Hm). apply in_app_or in Hep. destruct Hep as [Hep|Hep].
      * destruct (proj1 (Hhere path method)) as (-> & ? & ? & ?); [now exists ep|].
        exists item. split; [now left | auto].
      * destruct (proj1 (Hiff path method)) as (pathItem & ? & ? & ? & ?); [now exists ep|].
        exists pathItem. split; [now right | auto].
    + intros (pathItem & [Hin|Hin] & Ht & Hre & Hret).
      * inversion Hin; subst p item.
        destruct (proj2 (Hhere path method)) as (ep & ? & ? & ?); [auto|].
        exists ep. split; [apply in_or_app; now left | auto].
      * destruct (proj2 (Hiff path method)) as (ep & ? & ? & ?); [now exists pathItem|].
        exists ep. split; [apply in_or_app; now right | auto].
Qed.

End OperationFilter.

(** C1 (as amended).  The output holds an endpoint for the operation of a
    method on a path exactly when the path item is present and matches no
    excluded pattern, the operation is declared, it is not a deprecated
    operation that the options exclude, and none of its declared tags is in
    the excluded-tag set: one excluded tag is enough to skip the operation.
    An operation without a tags field (undefined or null) counts as tagged
    "default", and is skipped for its tags exactly when "default" is
    excluded.  An operation whose tag list is empty has no tag to exclude: it
    is never skipped for its tags, not even when "default" is excluded, and
    passes the filters as soon as it is declared and not a deprecated
    operation that the options exclude. *)
Theorem extractEndpoints_tag_exclusion
  (builtins : Builtins) (fuel : nat) (spec : value) (options : ExtractorOptions)
  (endpoints : list EndpointInfo.t) :
  extractEndpoints builtins fuel spec options = Ok endpoints ->
  let excluded := match excludeTags options with Some l => l | None => [] end in
  let patterns := match excludePaths options with Some l => l | None => [] end in
  let deprecatedOut := match excludeDeprecated options with Some b => b | None => true end in
  (forall path method,
     (exists ep, In ep endpoints /\ EndpointInfo.path ep = path
                 /\ EndpointInfo.method ep = method)
     <-> (exists pathItem regexes,
            In (path, pathItem) (Js.entries (Js.coalesce (Js.prop "paths" spec) (VObj [])))
            /\ Js.truthy pathItem = true
            /\ Js.mapM (RegExp builtins) patterns = Ok regexes
            /\ existsb (fun regex => regex path) regexes = false
            /\ Spec.operationRetained excluded deprecatedOut pathItem method))
  /\ (forall operation,
        Js.nullish (Js.prop "tags" operation) = true ->
        Spec.effectiveTags operation = VArr [VStr "default"]
        /\ (Spec.someTagExcluded excluded [VStr "default"] <-> In "default"%string excluded))
  /\ (forall pathItem method,
        let operation := Js.prop (methodName method) pathItem in
        (Js.nullish (Js.prop "tags" operation) = true ->
         (Spec.operationRetained excluded deprecatedOut pathItem method
          <-> Js.truthy operation = true
              /\ deprecatedOut && Js.truthy (Js.prop "deprecated" operation) = false
              /\ ~ In "default"%string excluded))
        /\ (Js.prop "tags" operation = VArr [] ->
            Spec.effectiveTags operation = VArr []
            /\ ~ Spec.someTagExcluded excluded []
            /\ (Spec.operationRetained excluded deprecatedOut pathItem method
                <-> Js.truthy operation = true
                    /\ deprecatedOut && Js.truthy (Js.prop "deprecated" operation) = false))).
Proof.
  intros H excluded patterns deprecatedOut. split; [|split].
  - unfold extractEndpoints in H. fold excluded patterns deprecatedOut in H.
    inv_bind H. inv_bind H. apply get_Ok in Ha0. destruct Ha0 as [-> _].
    apply extractEndpointsPath_fold in H. destruct H as (new & -> & Hiff).
    rewrite app_nil_l. intros path method. rewrite (Hiff path method). split.
    + intros (pathItem & ? & ? & ? & ?). exists pathItem, a. auto.
    + intros (pathItem & regexes & ? & ? & Hre & ? & ?).
      rewrite Ha in Hre. inversion Hre; subst regexes. exists pathItem. auto.
  - intros operation Hnull. split.
    + unfold Spec.effectiveTags, Js.coalesce. now rewrite Hnull.
    + unfold Spec.someTagExcluded. split.
      * intros (tag & [E|[]] & Hin). now inversion E; subst.
      * intros Hin. exists "default"%string. split; [now left | assumption].
  - intros pathItem method operation. unfold Spec.operationRetained. cbv zeta.
    fold operation. split.
    + intros Hnull.
      assert (Htags : Spec.effectiveTags operation = VArr [VStr "default"])
        by (unfold Spec.effectiveTags, Js.coalesce; now rewrite Hnull).
      split.
      * intros (Hop & Hdep & tags & Ht & Hnone). split; [exact Hop|]. split; [exact Hdep|].
        rewrite Htags in Ht. inversion Ht; subst tags.
        intros Hin. apply Hnone. exists "default"%string. split; [now left | exact Hin].
      * intros (Hop & Hdep & Hnot). split; [exact Hop|]. split; [exact Hdep|].
        exists [VStr "default"]. split; [exact Htags|].
        intros (tag & [E|[]] & Hin). inversion E; subst tag. contradiction.
    + intros Hempty.
      assert (Htags : Spec.effectiveTags operation = VArr [])
        by (unfold Spec.effectiveTags, Js.coalesce; now rewrite Hempty).
      assert (Hnone : ~ Spec.someTagExcluded excluded []) by (intros (tag & [] & _)).
      split; [exact Htags|]. split; [exact Hnone|]. split.
      * intros (Hop & Hdep & _). split; assumption.
      * intros (Hop & Hdep). split; [exact Hop|]. split; [exact Hdep|].
        exists []. split; [exact Htags | exact Hnone].
Qed.


Lemma extractEndpoints_tag_exclusion_witness :
  let spec :=
    VObj [("paths",
           VObj [("/pets",
                  VObj [("get", VObj [("tags", VArr [VStr "pets"]);
                                      ("responses", VObj [])]);
                        ("post", VObj [("tags", VArr [VStr "admin"]);
                                       ("responses", VObj [])])])])] in
  let options :=
    {| excludeTags := Some ["admin"%string]; excludePaths := None;
       excludeDeprecated := None; originalSpec := VUndef |} in
  exists endpoints,
    extractEndpoints exampleBuiltins 1 spec options = Ok endpoints
    /\ (exists ep, In ep endpoints /\ EndpointInfo.path ep = "/pets"%string
                   /\ EndpointInfo.method ep = GET)
    /\ ~ (exists ep, In ep endpoints /\ EndpointInfo.path ep = "/pets"%string
                     /\ EndpointInfo.method ep = POST).
Proof.
  intros spec options.
  destruct (extractEndpoints exampleBuiltins 1 spec options) as [endpoints|e] eqn:E;
    [|vm_compute in E; discriminate E].
  exists endpoints. split; [reflexivity|].
  destruct (@extractEndpoints_tag_exclusion exampleBuiltins 1 spec options endpoints E)
    as [Hiff _].
  split.
  - apply Hiff.
    exists (VObj [("get", VObj [("tags", VArr [VStr "pets"]); ("responses", VObj [])]);
                  ("post", VObj [("tags", VArr [VStr "admin"]); ("responses", VObj [])])]),
           [].
    split; [now left|]. split; [reflexivity|]. split; [reflexivity|].
    split; [reflexivity|]. split; [reflexivity|]. split; [reflexivity|].
    exists [VStr "pets"]. split; [reflexivity|].
    intros (tag & [Htag|[]] & [Hex|[]]). inversion Htag as [Htag']. rewrite <- Htag' in Hex.
    discriminate Hex.
  - intros Hpost. apply Hiff in Hpost.
    destruct Hpost as (pathItem & regexes & [Hin|[]] & _ & _ & _ & _ & _ & tags & Htags & Hnone).
    inversion Hin; subst pathItem. inversion Htags; subst tags.
    apply Hnone. exists "admin"%string. split; now left.
Defined.

(** C1 as stated fails on an operation with one excluded and one other tag:
    "pets" is declared and is not excluded, yet the operation is skipped. *)
Lemma extractEndpoints_one_excluded_tag :
  let tags := [VStr "pets"; VStr "admin"] in
  let spec :=
    VObj [("paths",
           VObj [("/pets",
                  VObj [("get", VObj [("tags", VArr tags); ("responses", VObj [])])])])] in
  let options :=
    {| excludeTags := Some ["admin"%string]; excludePaths := None;
       excludeDeprecated := None; originalSpec := VUndef |} in
  In (VStr "pets") tags
  /\ ~ In "pets"%string ["admin"%string]
  /\ forall builtins fuel, extractEndpoints builtins fuel spec options = Ok [].
Proof.
  cbv zeta. split; [now left|]. split.
  - intros [H|[]]. discriminate H.
  - intros builtins fuel. reflexivity.
Qed.


(** ** The schema simplifier *)

Lemma simplifySchema_unfold fuel schema originalSchema schemaName originalSpec :
  simplifySchema (S fuel) schema originalSchema schemaName originalSpec =
  if negb (Js.truthy schema) then Ok unknownSchema
  else
    resolvedName <-
      coalesceName
        (coalesceName (Ok schemaName) (extractSchemaName fuel originalSchema))
        (extractSchemaName fuel schema) ;;
    effective <- getEffectiveSchema fuel schema originalSpec ;;
    effectiveOriginal <-
      (if Js.truthy originalSchema
       then getEffectiveSchema fuel originalSchema originalSpec
       else Ok VUndef) ;;
    simplified <-
      (if Js.truthy (Js.prop "properties" effective)
       then
         properties <-
           foldM (simplifyProperty
                    (fun prop originalProp propName =>
                       simplifySchema fuel prop originalProp propName originalSpec)
                    fuel effectiveOriginal)
                 (Js.entries (Js.prop "properties" effective)) [] ;;
         Ok (Js.set "properties" (VObj properties)
               [ ("type",
                  Js.or (Js.prop "type" effective)
                        (if (0 <? List.length
                                    (Js.keys (Js.or (Js.prop "properties" effective) (VObj []))))%nat
                         then VStr "object" else VStr "unknown"));
                 ("schemaName", Js.ofName resolvedName);
                 ("description",
                  Js.coalesce (Js.prop "description" schema)
                              (Js.prop "description" originalSchema));
                 ("example",
                  Js.coalesce (Js.prop "example" schema) (Js.prop "example" originalSchema));
                 ("enum", Js.prop "enum" effective);
                 ("required", Js.prop "required" effective) ])
       else
         Ok [ ("type",
               Js.or (Js.prop "type" effective)
                     (if (0 <? List.length
                                 (Js.keys (Js.or (Js.prop "properties" effective) (VObj []))))%nat
                      then VStr "object" else VStr "unknown"));
              ("schemaName", Js.ofName resolvedName);
              ("description",
               Js.coalesce (Js.prop "description" schema)
                           (Js.prop "description" originalSchema));
              ("example",
               Js.coalesce (Js.prop "example" schema) (Js.prop "example" originalSchema));
              ("enum", Js.prop "enum" effective);
              ("required", Js.prop "required" effective) ]) ;;
    isArray <-
      Js.includesArray
        (Js.or (Js.prop "type" effective)
               (if (0 <? List.length
                           (Js.keys (Js.or (Js.prop "properties" effective) (VObj []))))%nat
                then VStr "object" else VStr "unknown")) ;;
    if isArray && Js.truthy (Js.or (Js.prop "items" effective) (Js.prop "items" schema))
    then
      itemName <-
        coalesceName
          (extractSchemaName fuel
             (Js.or (Js.prop "items" effectiveOriginal) (Js.prop "items" originalSchema)))
          (extractSchemaName fuel
             (Js.or (Js.prop "items" effective) (Js.prop "items" schema))) ;;
      simplifiedItems <-
        simplifySchema fuel
          (Js.or (Js.prop "items" effective) (Js.prop "items" schema))
          (Js.or (Js.prop "items" effectiveOriginal) (Js.prop "items" originalSchema))
          itemName originalSpec ;;
      Ok (VObj (Js.set "items" simplifiedItems simplified))
    else Ok (VObj simplified).
Proof. reflexivity. Qed.

Lemma Forall_set (P : value -> Prop) key out (acc : object) :
  Forall (fun kv => P (snd kv)) acc -> P out ->
  Forall (fun kv => P (snd kv)) (Js.set key out acc).
Proof.
  intros Hacc Hout. unfold Js.set. destruct (Js.lookup key acc) as [old|].
  - clear old. induction Hacc as [|[k v] acc Hv Hacc IH]; simpl; [constructor|].
    destruct (String.eqb k key); constructor; assumption.
  - destruct (Str.arrayIndex key) as [n|].
    + induction Hacc as [|[k v] acc Hv Hacc IH]; simpl.
      * constructor; [assumption | constructor].
      * destruct (Str.arrayIndex k) as [n'|]; [destruct (n' <? n)%N|];
          repeat (constructor; try assumption).
    + apply Forall_app. split; [assumption|]. constructor; [assumption | constructor].
Qed.

Lemma outputs_Forall (l : object) :
  Spec.outputs l <->
  Forall (fun kv => Spec.simplifiedNode (snd kv)) l.
Proof.
  unfold Spec.simplifiedNode. split.
  - induction l as [|[k v] l IH]; intros H; [constructor|].
    inversion H; subst; constructor; auto.
  - induction 1 as [|[k v] l Hv Hl IH]; [constructor|].
    simpl in Hv. destruct Hv as [->|Hv]; [now apply Spec.outputs_unknown|].
    now apply Spec.outputs_present.
Qed.

Lemma returnsSimplified_node schema out :
  Spec.returnsSimplified schema out -> Spec.simplifiedNode out.
Proof.
  unfold Spec.returnsSimplified, Spec.simplifiedNode.
  destruct (Js.truthy schema); [now right | now left].
Qed.

Lemma foldM_simplifyProperty_outputs recur fuel effectiveOriginal entries acc properties :
  (forall prop originalProp propName out,
     recur prop originalProp propName = Ok out -> Spec.returnsSimplified prop out) ->
  foldM (simplifyProperty recur fuel effectiveOriginal) entries acc = Ok properties ->
  Spec.canonical acc -> Spec.outputs acc ->
  Spec.canonical properties /\ Spec.outputs properties.
Proof.
  intros Hrecur. revert acc. induction entries as [|[key prop] entries IH];
    intros acc H Hc Ho; simpl in H.
  - inversion H; subst. now split.
  - inv_bind H. unfold simplifyProperty in Ha. cbn [fst snd] in Ha.
    inv_bind Ha. inv_bind Ha. inversion Ha; subst a. clear Ha.
    apply (IH _ H).
    + now apply canonical_set.
    + apply outputs_Forall. apply Forall_set; [now apply outputs_Forall|].
      eapply returnsSimplified_node, Hrecur. eassumption.
Qed.

Lemma set_properties_literal type name description example enum required properties :
  Js.set "properties" properties
    [ ("type", type); ("schemaName", name); ("description", description);
      ("example", example); ("enum", enum); ("required", required) ]
  = [ ("type", type); ("schemaName", name); ("description", description);
      ("example", example); ("enum", enum); ("required", required);
      ("properties", properties) ].
Proof. reflexivity. Qed.

Lemma set_items_literal type name description example enum required properties items :
  Js.set "items" items
    [ ("type", type); ("schemaName", name); ("description", description);
      ("example", example); ("enum", enum); ("required", required);
      ("properties", properties) ]
  = [ ("type", type); ("schemaName", name); ("description", description);
      ("example", example); ("enum", enum); ("required", required);
      ("properties", properties); ("items", items) ].
Proof. reflexivity. Qed.

Lemma typeLabel_truthy declared (properties : value) :
  Js.truthy
    (Js.or declared
           (if (0 <? List.length (Js.keys (Js.or properties (VObj []))))%nat
            then VStr "object" else VStr "unknown")) = true.
Proof.
  unfold Js.or at 1. destruct (Js.truthy declared) eqn:E; [exact E|].
  now destruct (0 <? _)%nat.
Qed.

(** Every call of the simplifier that returns gives the node of an absent
    schema or a tree of the shape built for a present one. *)
Lemma simplifySchema_returns fuel :
  forall schema originalSchema schemaName originalSpec out,
    simplifySchema fuel schema originalSchema schemaName originalSpec = Ok out ->
    Spec.returnsSimplified schema out.
Proof.
  induction fuel as [|fuel IH]; intros schema originalSchema schemaName originalSpec out H;
    [discriminate|].
  rewrite simplifySchema_unfold in H. unfold Spec.returnsSimplified.
  destruct (Js.truthy schema) eqn:Hschema; cbn [negb] in H; [|now inversion H].
  inv_bind H. rename a into resolvedName.
  inv_bind H. rename a into effective.
  inv_bind H. rename a into effectiveOriginal.
  pose proof (getEffectiveSchema_shape _ _ _ Ha0) as Hshape. rewrite Hschema in Hshape.
  destruct Hshape as (acc & -> & Hcanon).
  change (Js.prop "properties" (Effective.toValue acc)) with (VObj (Effective.properties acc)) in H.
  change (Js.prop "type" (Effective.toValue acc)) with (Effective.type acc) in H.
  change (Js.prop "enum" (Effective.toValue acc)) with (Effective.enum acc) in H.
  change (Js.prop "required" (Effective.toValue acc)) with (VArr (Effective.required acc)) in H.
  change (Js.prop "items" (Effective.toValue acc)) with (Effective.items acc) in H.
  cbn [Js.truthy] in H.
  inv_bind H. rename a into simplified.
  inv_bind Ha2. rename a into properties. inversion Ha2; subst simplified. clear Ha2.
  rewrite set_properties_literal in H.
  apply foldM_simplifyProperty_outputs in Ha3;
    [|intros; eapply IH; eassumption | apply canonical_nil | constructor].
  destruct Ha3 as [Hcp Hop].
  inv_bind H. rename a into isArray.
  pose proof (typeLabel_truthy (Effective.type acc) (VObj (Effective.properties acc))) as Htype.
  destruct (isArray && Js.truthy (Js.or (Effective.items acc) (Js.prop "items" schema)))
    eqn:Hitems.
  - apply andb_true_iff in Hitems. destruct Hitems as [-> Hitems].
    inv_bind H. inv_bind H. inversion H; subst out. clear H.
    rewrite set_items_literal.
    apply IH in Ha4. unfold Spec.returnsSimplified in Ha4. rewrite Hitems in Ha4.
    apply Spec.present_array; assumption.
  - inversion H; subst out.
    eapply Spec.present_node; eassumption.
Qed.

Lemma present_populated :
  (forall node, Spec.present node -> Spec.populated node)
  /\ (forall properties, Spec.outputs properties ->
        forall key child, In (key, child) properties ->
                          child <> unknownSchema -> Spec.populated child).
Proof.
  apply present_mutind.
  - intros type name description example enum required properties isArray _ _ _ _ IH.
    apply Spec.populated_intro with (properties := properties) (required := required);
      [reflexivity | reflexivity | exact IH | discriminate].
  - intros type name description example enum required properties items _ _ _ _ IH _ IHitems.
    apply Spec.populated_intro with (properties := properties) (required := required);
      [reflexivity | reflexivity | exact IH |].
    intros node H. inversion H; subst node. exact IHitems.
  - intros key child [].
  - intros key rest _ IH key' child [E|Hin] Hne; [|now apply (IH key')].
    inversion E; subst. now elim Hne.
  - intros key node rest _ IHnode _ IH key' child [E|Hin] Hne; [|now apply (IH key')].
    inversion E; subst. exact IHnode.
Qed.

(** ** Rebuilding a real object gives the same object *)

Lemma StronglySorted_app_l {A} (R : A -> A -> Prop) (l l' : list A) :
  StronglySorted R (l ++ l') -> StronglySorted R l.
Proof.
  induction l as [|x l IH]; simpl; intros H; [constructor|].
  apply StronglySorted_inv in H. destruct H as [Hs Hall].
  constructor; [now apply IH|]. apply Forall_app in Hall. tauto.
Qed.

Lemma StronglySorted_snoc_before {A} (R : A -> A -> Prop) (l : list A) x :
  StronglySorted R (l ++ [x]) -> Forall (fun y => R y x) l.
Proof.
  induction l as [|y l IH]; simpl; intros H; [constructor|].
  apply StronglySorted_inv in H. destruct H as [Hs Hall].
  constructor; [|now apply IH]. rewrite Forall_forall in Hall. apply Hall.
  apply in_or_app. right. now left.
Qed.

Lemma insertIndex_after_all n key out (acc : object) :
  Str.arrayIndex key = Some n ->
  Forall (fun k => Spec.keyBefore k key) (map fst acc) ->
  Js.insertIndex n key out acc = acc ++ [(key, out)].
Proof.
  intros Hn. induction acc as [|[k v] acc IH]; simpl; intros Hall; [reflexivity|].
  inversion Hall as [|? ? [_ Hk] Hrest]; subst. rewrite Hn in Hk.
  destruct (Str.arrayIndex k) as [n'|]; [|contradiction].
  apply N.ltb_lt in Hk. rewrite Hk. now rewrite IH.
Qed.

Lemma set_snoc key out old (acc : object) :
  Spec.canonical (acc ++ [(key, old)]) -> Js.set key out acc = acc ++ [(key, out)].
Proof.
  unfold Spec.canonical. rewrite map_app. simpl. intros Hs.
  apply StronglySorted_snoc_before in Hs.
  assert (Hk : Js.lookup key acc = None).
  { apply lookup_None. intros Hin. rewrite Forall_forall in Hs.
    destruct (Hs key Hin) as [Hne _]. now elim Hne. }
  unfold Js.set. rewrite Hk. destruct (Str.arrayIndex key) eqn:Hn; [|reflexivity].
  now apply insertIndex_after_all.
Qed.

Lemma fold_set_canonical (rest acc : object) :
  Spec.canonical (acc ++ rest) ->
  fold_left (fun o kv => Js.set (fst kv) (snd kv) o) rest acc = acc ++ rest.
Proof.
  revert acc. induction rest as [|[k v] rest IH]; intros acc Hc; simpl.
  - now rewrite app_nil_r.
  - assert (Hpre : Spec.canonical (acc ++ [(k, v)])).
    { unfold Spec.canonical in *. rewrite map_app in *. simpl in *.
      apply (@StronglySorted_app_l _ _ _ (map fst rest)). now rewrite <- app_assoc. }
    rewrite (@set_snoc k v v acc Hpre), IH; rewrite <- app_assoc; [reflexivity | exact Hc].
Qed.

Lemma spread_canonical (o : object) : Spec.canonical o -> Js.spread [] (VObj o) = o.
Proof. intros Hc. unfold Js.spread. simpl. now apply fold_set_canonical. Qed.

(** ** Simplifying a simplified tree *)

Lemma resolveRef_no_ref fuel schema spec :
  Js.isString (Js.prop "$ref" schema) = false -> resolveRef (S fuel) schema spec = Ok schema.
Proof.
  intros H. rewrite resolveRef_unfold, H. cbn [negb]. now rewrite !orb_true_r.
Qed.

Lemma getEffectiveSchema_plain fuel spec schema required :
  Js.truthy schema = true ->
  Js.isString (Js.prop "$ref" schema) = false ->
  (if Js.truthy (Js.prop "required" schema)
   then Js.iterate (Js.prop "required" schema) else Ok []) = Ok required ->
  (forall subs, Js.prop "allOf" schema <> VArr subs) ->
  getEffectiveSchema (S (S fuel)) schema spec =
  Ok (Effective.toValue
        (Effective.make
           (Js.spread [] (Js.or (Js.prop "properties" schema) (VObj [])))
           (Js.prop "type" schema) (Js.prop "enum" schema) (Js.prop "items" schema)
           required)).
Proof.
  intros Htruthy Href Hreq HallOf.
  rewrite getEffectiveSchema_unfold, Htruthy, (@resolveRef_no_ref fuel schema spec Href).
  cbn [negb bind].
  assert (Hget : Js.get "properties" schema = Ok (Js.prop "properties" schema)).
  { unfold Js.get. destruct schema; try reflexivity; discriminate Htruthy. }
  rewrite Hget, Hreq. cbn [bind].
  destruct (Js.prop "allOf" schema) eqn:E; try reflexivity.
  now elim (HallOf elems).
Qed.

Lemma nodeValue_reads type name description example enum required properties items :
  let node := Spec.nodeValue type name description example enum required properties items in
  Js.truthy node = true
  /\ Js.prop "$ref" node = VUndef
  /\ Js.prop "allOf" node = VUndef
  /\ Js.prop "anyOf" node = VUndef
  /\ Js.prop "oneOf" node = VUndef
  /\ Js.prop "type" node = type
  /\ Js.prop "description" node = description
  /\ Js.prop "example" node = example
  /\ Js.prop "enum" node = enum
  /\ Js.prop "required" node = VArr required
  /\ Js.prop "properties" node = VObj properties
  /\ Js.prop "items" node = match items with Some it => it | None => VUndef end.
Proof. destruct items; cbv zeta; repeat split. Qed.

Lemma extractSchemaName_simplified :
  (forall node, Spec.present node ->
     exists n, forall fuel, n <= fuel -> extractSchemaName fuel node = Ok None)
  /\ (forall properties, Spec.outputs properties -> True).
Proof.
  apply present_mutind; trivial.
  - intros type name description example enum required properties isArray _ _ _ _ _.
    exists 1. intros [|fuel] Hle; [lia|].
    destruct (nodeValue_reads type name description example enum required properties None)
      as (Ht & Href & HallOf & HanyOf & HoneOf & _ & _ & _ & _ & _ & _ & Hitems).
    rewrite extractSchemaName_unfold, Ht. unfold directName. rewrite Href.
    cbn [negb scanComposites composites]. rewrite HallOf, HanyOf, HoneOf.
    cbn [bind nameFound]. rewrite Hitems. cbn [Js.truthy]. now rewrite andb_false_r.
  - intros type name description example enum required properties items _ _ _ _ _ _ [n IH].
    exists (S n). intros [|fuel] Hle; [lia|].
    destruct (nodeValue_reads type name description example enum required properties
                              (Some items))
      as (Ht & Href & HallOf & HanyOf & HoneOf & _ & _ & _ & _ & _ & _ & Hitems).
    rewrite extractSchemaName_unfold, Ht. unfold directName. rewrite Href.
    cbn [negb scanComposites composites]. rewrite HallOf, HanyOf, HoneOf.
    cbn [bind nameFound]. rewrite Hitems, (IH fuel) by lia.
    now destruct (Js.strictEqStr _ "array" && Js.truthy items).
Qed.

Lemma toValue_reads acc :
  Js.prop "properties" (Effective.toValue acc) = VObj (Effective.properties acc)
  /\ Js.prop "type" (Effective.toValue acc) = Effective.type acc
  /\ Js.prop "enum" (Effective.toValue acc) = Effective.enum acc
  /\ Js.prop "items" (Effective.toValue acc) = Effective.items acc
  /\ Js.prop "required" (Effective.toValue acc) = VArr (Effective.required acc).
Proof. repeat split. Qed.

Lemma or_truthy v w : Js.truthy v = true -> Js.or v w = v.
Proof. intros H. unfold Js.or. now rewrite H. Qed.

Lemma or_same v : Js.or v v = v.
Proof. unfold Js.or. now destruct (Js.truthy v). Qed.

(** One call of the simplifier on a schema without reference, composition,
    original counterpart or pre-resolved name, given what its recursive calls
    return. *)
Lemma simplifySchema_plain fuel spec schema required properties properties'
      (isArray : bool) (items' : option value) :
  let inner := S (S fuel) in
  let type :=
    Js.or (Js.prop "type" schema)
          (if (0 <? List.length (map fst properties))%nat
           then VStr "object" else VStr "unknown") in
  Js.truthy schema = true ->
  Js.isString (Js.prop "$ref" schema) = false ->
  (forall subs, Js.prop "allOf" schema <> VArr subs) ->
  (if Js.truthy (Js.prop "required" schema)
   then Js.iterate (Js.prop "required" schema) else Ok []) = Ok required ->
  Js.spread [] (Js.or (Js.prop "properties" schema) (VObj [])) = properties ->
  extractSchemaName inner schema = Ok None ->
  foldM (simplifyProperty (fun prop originalProp propName =>
                             simplifySchema inner prop originalProp propName spec)
                          inner VUndef) properties [] = Ok properties' ->
  Js.includesArray type = Ok isArray ->
  (if isArray && Js.truthy (Js.prop "items" schema)
   then exists node,
          items' = Some node
          /\ extractSchemaName inner (Js.prop "items" schema) = Ok None
          /\ simplifySchema inner (Js.prop "items" schema) VUndef None spec = Ok node
   else items' = None) ->
  simplifySchema (S inner) schema VUndef None spec =
  Ok (Spec.nodeValue type VUndef
                     (Spec.dropNullish (Js.prop "description" schema))
                     (Spec.dropNullish (Js.prop "example" schema))
                     (Js.prop "enum" schema) required properties' items').
Proof.
  intros inner type Htruthy Href HallOf Hreq Hprops Hname Hloop Harray Hitems.
  rewrite simplifySchema_unfold, Htruthy. cbn [negb].
  rewrite Hname.
  change (extractSchemaName inner VUndef) with (@Ok (option string) None).
  cbn [coalesceName bind].
  unfold inner at 1. rewrite (@getEffectiveSchema_plain fuel spec schema required
                                Htruthy Href Hreq HallOf).
  cbn [bind Js.truthy].
  destruct (toValue_reads
              (Effective.make
                 (Js.spread [] (Js.or (Js.prop "properties" schema) (VObj [])))
                 (Js.prop "type" schema) (Js.prop "enum" schema) (Js.prop "items" schema)
                 required)) as (Rp & Rt & Re & Ri & Rr).
  rewrite Rp, Rt, Re, Ri, Rr. cbn [Effective.properties Effective.type Effective.enum
                                   Effective.items Effective.required].
  rewrite Hprops. cbn [Js.truthy Js.entries].
  fold inner. rewrite Hloop. cbn [bind]. rewrite set_properties_literal.
  change (Js.keys (Js.or (VObj properties) (VObj []))) with (map fst properties).
  fold type. rewrite Harray. cbn [bind].
  rewrite or_same.
  change (Js.prop "items" VUndef) with VUndef. rewrite or_same.
  change (Js.prop "description" VUndef) with VUndef.
  change (Js.prop "example" VUndef) with VUndef.
  destruct (isArray && Js.truthy (Js.prop "items" schema)).
  - destruct Hitems as (node & -> & Hn & Hs).
    change (extractSchemaName inner VUndef) with (@Ok (option string) None).
    rewrite Hn. cbn [coalesceName bind]. rewrite Hs. cbn [bind].
    now rewrite set_items_literal.
  - now subst items'.
Qed.

Lemma nodeValue_inj type name description example enum required properties items
      type' name' description' example' enum' required' properties' items' :
  Spec.nodeValue type name description example enum required properties items
  = Spec.nodeValue type' name' description' example' enum' required' properties' items' ->
  type = type' /\ name = name' /\ description = description' /\ example = example'
  /\ enum = enum' /\ required = required' /\ properties = properties' /\ items = items'.
Proof.
  unfold Spec.nodeValue. destruct items, items'; simpl; intros H; inversion H;
    repeat split; reflexivity.
Qed.

Lemma nodeValue_not_unknown type name description example enum required properties items :
  Spec.nodeValue type name description example enum required properties items
  <> unknownSchema.
Proof. unfold Spec.nodeValue, unknownSchema. destruct items; discriminate. Qed.

Lemma resimplified_unknown_inv node' :
  Spec.resimplified unknownSchema node' ->
  node' = Spec.nodeValue (VStr "unknown") VUndef VUndef VUndef VUndef [] [] None.
Proof.
  intros H. remember unknownSchema as node eqn:E.
  destruct H; [reflexivity| |]; now apply nodeValue_not_unknown in E.
Qed.

Lemma resimplified_node_inv type name description example enum required properties items node' :
  Spec.resimplified
    (Spec.nodeValue type name description example enum required properties items) node' ->
  exists properties' items',
    node' = Spec.nodeValue type VUndef (Spec.dropNullish description)
                           (Spec.dropNullish example) enum required properties' items'
    /\ Spec.resimplifiedAll properties properties'
    /\ match items, items' with
       | None, None => True
       | Some it, Some it' => Spec.resimplified it it'
       | _, _ => False
       end.
Proof.
  intros H.
  remember (Spec.nodeValue type name description example enum required properties items)
    as node eqn:E.
  destruct H as [|? ? ? ? ? ? ps ps' Hall|? ? ? ? ? ? ps ps' it it' Hall Hit].
  - symmetry in E. now apply nodeValue_not_unknown in E.
  - apply nodeValue_inj in E.
    destruct E as (? & _ & ? & ? & ? & ? & ? & ?). subst.
    exists ps', None. split; [reflexivity|]. split; [assumption | exact I].
  - apply nodeValue_inj in E.
    destruct E as (? & _ & ? & ? & ? & ? & ? & ?). subst.
    exists ps', (Some it'). split; [reflexivity|]. split; assumption.
Qed.

Lemma present_truthy node : Spec.present node -> Js.truthy node = true.
Proof. intros H. destruct H; reflexivity. Qed.

Lemma simplifySchema_unknown_again fuel spec :
  simplifySchema (S (S (S fuel))) unknownSchema VUndef None spec =
  Ok (Spec.nodeValue (VStr "unknown") VUndef VUndef VUndef VUndef [] [] None).
Proof.
  apply (@simplifySchema_plain fuel spec unknownSchema [] [] [] false None);
    try reflexivity.
  intros subs. discriminate.
Qed.

Lemma simplifyProperty_again recur fuel (acc : object) key node node' :
  extractSchemaName fuel VUndef = Ok None ->
  extractSchemaName fuel node = Ok None ->
  recur node VUndef None = Ok node' ->
  Spec.canonical (acc ++ [(key, node)]) ->
  simplifyProperty recur fuel VUndef acc (key, node) = Ok (acc ++ [(key, node')]).
Proof.
  intros Hu Hn Hr Hc. unfold simplifyProperty. cbn [fst snd].
  change (Js.prop key (Js.prop "properties" VUndef)) with VUndef.
  rewrite Hu, Hn. cbn [coalesceName bind]. rewrite Hr. cbn [bind].
  now rewrite (@set_snoc key node' node acc Hc).
Qed.

Lemma canonical_same_keys (o o' : object) :
  map fst o = map fst o' -> Spec.canonical o -> Spec.canonical o'.
Proof. unfold Spec.canonical. now intros ->. Qed.

Lemma resimplifiedAll_keys properties properties' :
  Spec.resimplifiedAll properties properties' -> map fst properties' = map fst properties.
Proof. induction 1; simpl; congruence. Qed.

Lemma foldM_again_cons key node node' (rest rest' : object) :
  (exists n, forall fuel, n <= fuel -> extractSchemaName fuel node = Ok None) ->
  (exists n, forall fuel spec, n <= fuel ->
             simplifySchema fuel node VUndef None spec = Ok node') ->
  (exists n, forall fuel spec acc, n <= fuel ->
             Spec.canonical (acc ++ rest) ->
             foldM (simplifyProperty
                      (fun prop originalProp propName =>
                         simplifySchema fuel prop originalProp propName spec)
                      fuel VUndef) rest acc = Ok (acc ++ rest')) ->
  exists n, forall fuel spec acc, n <= fuel ->
            Spec.canonical (acc ++ (key, node) :: rest) ->
            foldM (simplifyProperty
                     (fun prop originalProp propName =>
                        simplifySchema fuel prop originalProp propName spec)
                     fuel VUndef) ((key, node) :: rest) acc
            = Ok (acc ++ (key, node') :: rest').
Proof.
  intros [n1 Hname] [n2 Heval] [n3 Hrest].
  exists (S (Nat.max n1 (Nat.max n2 n3))). intros fuel spec acc Hle Hc.
  cbn [foldM].
  assert (Hpre : Spec.canonical (acc ++ [(key, node)])).
  { unfold Spec.canonical in *. rewrite map_app in *. simpl in *.
    apply (@StronglySorted_app_l _ _ _ (map fst rest)). now rewrite <- app_assoc. }
  rewrite (@simplifyProperty_again _ fuel acc key node node').
  - cbn [bind]. rewrite Hrest.
    + now rewrite <- app_assoc.
    + lia.
    + apply (@canonical_same_keys (acc ++ (key, node) :: rest)); [|exact Hc].
      rewrite !map_app. simpl. now rewrite <- app_assoc.
  - destruct fuel; [lia | reflexivity].
  - apply Hname. lia.
  - apply Heval. lia.
  - exact Hpre.
Qed.

(** Simplifying a tree built by the simplifier, without original and without
    name, returns its resimplification, whatever the document and for every
    depth of stack beyond a bound. *)
Lemma simplifySchema_again :
  (forall node, Spec.present node ->
     forall node', Spec.resimplified node node' ->
     exists n, forall fuel spec, n <= fuel ->
               simplifySchema fuel node VUndef None spec = Ok node')
  /\ (forall properties, Spec.outputs properties ->
        forall properties', Spec.resimplifiedAll properties properties' ->
        exists n, forall fuel spec acc, n <= fuel ->
                  Spec.canonical (acc ++ properties) ->
                  foldM (simplifyProperty
                           (fun prop originalProp propName =>
                              simplifySchema fuel prop originalProp propName spec)
                           fuel VUndef) properties acc = Ok (acc ++ properties')).
Proof.
  apply present_mutind.
  - intros type name description example enum required properties isArray
           Htype Harray Hc Ho IH node' Hre.
    apply resimplified_node_inv in Hre. destruct Hre as (properties' & items' & -> & Hall & Hits).
    destruct items'; [contradiction|].
    destruct (IH _ Hall) as [n0 Hloop].
    destruct (proj1 extractSchemaName_simplified
                (Spec.nodeValue type name description example enum required properties None))
      as [n1 Hname]; [eapply Spec.present_node; eassumption|].
    exists (3 + Nat.max n0 n1). intros [|[|[|fuel]]] spec Hle; try lia.
    destruct (nodeValue_reads type name description example enum required properties None)
      as (Ht & Href & HallOf & _ & _ & Rtype & Rdesc & Rex & Renum & Rreq & Rprops & Ritems).
    pose proof (@simplifySchema_plain fuel spec
                  (Spec.nodeValue type name description example enum required properties None)
                  required properties properties' isArray None) as Hstep.
    cbv zeta in Hstep. rewrite Rtype, Rdesc, Rex, Renum, Rreq, Rprops, Ritems, Href in Hstep.
    assert (Eor : forall w, Js.or type w = type) by (intros w; now apply or_truthy).
    rewrite !Eor in Hstep.
    change (Js.or (VObj properties) (VObj [])) with (VObj properties) in Hstep.
    cbn [Js.truthy] in Hstep. rewrite andb_false_r in Hstep.
    apply Hstep; try reflexivity; try assumption.
    + intros subs. rewrite HallOf. discriminate.
    + now apply spread_canonical.
    + apply Hname. lia.
    + apply (Hloop _ spec []); [lia | exact Hc].
  - intros type name description example enum required properties items
           Htype Harray Hc Ho IH Hitems IHitems node' Hre.
    apply resimplified_node_inv in Hre. destruct Hre as (properties' & items' & -> & Hall & Hits).
    destruct items' as [node|]; [|contradiction].
    destruct (IH _ Hall) as [n0 Hloop].
    destruct (IHitems _ Hits) as [n2 Heval].
    destruct (proj1 extractSchemaName_simplified
                (Spec.nodeValue type name description example enum required properties
                                (Some items)))
      as [n1 Hname]; [now apply Spec.present_array|].
    destruct (proj1 extractSchemaName_simplified items Hitems) as [n3 Hiname].
    exists (3 + Nat.max (Nat.max n0 n1) (Nat.max n2 n3)). intros [|[|[|fuel]]] spec Hle; try lia.
    destruct (nodeValue_reads type name description example enum required properties
                              (Some items))
      as (Ht & Href & HallOf & _ & _ & Rtype & Rdesc & Rex & Renum & Rreq & Rprops & Ritems).
    pose proof (@simplifySchema_plain fuel spec
                  (Spec.nodeValue type name description example enum required properties
                                  (Some items))
                  required properties properties' true (Some node)) as Hstep.
    cbv zeta in Hstep. rewrite Rtype, Rdesc, Rex, Renum, Rreq, Rprops, Ritems, Href in Hstep.
    assert (Eor : forall w, Js.or type w = type) by (intros w; now apply or_truthy).
    rewrite !Eor in Hstep.
    change (Js.or (VObj properties) (VObj [])) with (VObj properties) in Hstep.
    cbn [Js.truthy] in Hstep.
    rewrite (present_truthy Hitems) in Hstep. cbn [andb] in Hstep.
    apply Hstep; try reflexivity; try assumption.
    + intros subs. rewrite HallOf. discriminate.
    + now apply spread_canonical.
    + apply Hname. lia.
    + apply (Hloop _ spec []); [lia | exact Hc].
    + exists node. split; [reflexivity|]. split; [apply Hiname | apply Heval]; lia.
  - intros properties' Hall. inversion Hall; subst. exists 0. intros fuel spec acc _ _.
    cbn [foldM]. now rewrite app_nil_r.
  - intros key rest _ IH properties' Hall.
    inversion Hall as [|k0 nd nd' rs rs' Hnode Hrest]; subst.
    apply resimplified_unknown_inv in Hnode. subst nd'.
    apply foldM_again_cons.
    + exists 1. intros [|fuel] Hle; [lia | reflexivity].
    + exists 3. intros [|[|[|fuel]]] spec Hle; try lia. apply simplifySchema_unknown_again.
    + now apply IH.
  - intros key node rest Hnode IHnode _ IH properties' Hall.
    inversion Hall as [|k0 nd nd' rs rs' Hre Hrest]; subst.
    apply foldM_again_cons.
    + now apply extractSchemaName_simplified.
    + now apply IHnode.
    + now apply IH.
Qed.

Lemma dropNullish_idem v : Spec.dropNullish (Spec.dropNullish v) = Spec.dropNullish v.
Proof. now destruct v. Qed.

Lemma resimplified_exists :
  (forall node, Spec.present node -> exists node', Spec.resimplified node node')
  /\ (forall properties, Spec.outputs properties ->
        exists properties', Spec.resimplifiedAll properties properties').
Proof.
  apply present_mutind.
  - intros type name description example enum required properties isArray _ _ _ _ [ps' Hps].
    eexists. apply Spec.resimplified_node. eassumption.
  - intros type name description example enum required properties items
           _ _ _ _ [ps' Hps] _ [items' Hitems].
    eexists. apply Spec.resimplified_array; eassumption.
  - exists []. constructor.
  - intros key rest _ [rest' Hrest]. eexists. constructor; [constructor | eassumption].
  - intros key node rest _ [node' Hnode] _ [rest' Hrest].
    eexists. constructor; eassumption.
Qed.

Lemma resimplified_stable :
  (forall node, Spec.present node ->
     forall node', Spec.resimplified node node' ->
                   Spec.present node' /\ Spec.resimplified node' node')
  /\ (forall properties, Spec.outputs properties ->
        forall properties', Spec.resimplifiedAll properties properties' ->
                            Spec.outputs properties'
                            /\ Spec.resimplifiedAll properties' properties').
Proof.
  apply present_mutind.
  - intros type name description example enum required properties isArray
           Htype Harray Hc Ho IH node' Hre.
    apply resimplified_node_inv in Hre. destruct Hre as (ps' & items' & -> & Hall & Hits).
    destruct items'; [contradiction|]. destruct (IH _ Hall) as [Ho' Hall'].
    split.
    + eapply Spec.present_node; try eassumption.
      apply (@canonical_same_keys properties); [|assumption].
      symmetry. now apply resimplifiedAll_keys.
    + rewrite <- (dropNullish_idem description) at 2.
      rewrite <- (dropNullish_idem example) at 2.
      now apply Spec.resimplified_node.
  - intros type name description example enum required properties items
           Htype Harray Hc Ho IH Hitems IHitems node' Hre.
    apply resimplified_node_inv in Hre. destruct Hre as (ps' & items' & -> & Hall & Hits).
    destruct items' as [node|]; [|contradiction]. destruct (IH _ Hall) as [Ho' Hall'].
    destruct (IHitems _ Hits) as [Hp' Hre'].
    split.
    + apply Spec.present_array; try assumption.
      apply (@canonical_same_keys properties); [|assumption].
      symmetry. now apply resimplifiedAll_keys.
    + rewrite <- (dropNullish_idem description) at 2.
      rewrite <- (dropNullish_idem example) at 2.
      now apply Spec.resimplified_array.
  - intros properties' Hall. inversion Hall; subst. split; constructor.
  - intros key rest _ IH properties' Hall.
    inversion Hall as [|k0 nd nd' rs rs' Hnode Hrest]; subst.
    apply resimplified_unknown_inv in Hnode. subst nd'.
    destruct (IH _ Hrest) as [Ho' Hall']. split.
    + apply Spec.outputs_present; [|assumption].
      apply (@Spec.present_node _ _ _ _ _ _ _ false); try reflexivity; constructor.
    + constructor; [|assumption].
      apply (@Spec.resimplified_node (VStr "unknown") VUndef VUndef VUndef VUndef [] [] []).
      constructor.
  - intros key node rest Hnode IHnode _ IH properties' Hall.
    inversion Hall as [|k0 nd nd' rs rs' Hre Hrest]; subst.
    destruct (IHnode _ Hre) as [Hp' Hre']. destruct (IH _ Hrest) as [Ho' Hall'].
    split; [now apply Spec.outputs_present | now constructor].
Qed.

(** C4 (as amended).  Simplifying a simplified tree a second time, without
    original counterpart and without pre-resolved name, returns the first tree
    with every recovered name dropped, every null description or example made
    undefined, and every node of an absent schema completed with the fields of
    a present one; all else (types, enums, required names, property keys and
    their order, array items) is kept.  From the second pass on the simplifier
    is idempotent: simplifying that tree again returns it unchanged. *)
Theorem simplifySchema_second_pass
  (fuel : nat) (schema originalSchema : value) (schemaName : option string)
  (originalSpec out : value) :
  simplifySchema fuel schema originalSchema schemaName originalSpec = Ok out ->
  exists out',
    Spec.resimplified out out'
    /\ (exists n, forall fuel' spec', n <= fuel' ->
                  simplifySchema fuel' out VUndef None spec' = Ok out')
    /\ (exists n, forall fuel' spec', n <= fuel' ->
                  simplifySchema fuel' out' VUndef None spec' = Ok out').
Proof.
  intros H. apply simplifySchema_returns in H. unfold Spec.returnsSimplified in H.
  destruct (Js.truthy schema).
  - destruct (proj1 resimplified_exists out H) as [out' Hre].
    destruct (proj1 resimplified_stable out H out' Hre) as [Hp' Hre'].
    exists out'. split; [exact Hre|]. split.
    + exact (proj1 simplifySchema_again out H out' Hre).
    + exact (proj1 simplifySchema_again out' Hp' out' Hre').
  - subst out.
    exists (Spec.nodeValue (VStr "unknown") VUndef VUndef VUndef VUndef [] [] None).
    split; [constructor|]. split.
    + exists 3. intros [|[|[|fuel']]] spec' Hle; try lia. apply simplifySchema_unknown_again.
    + apply (proj1 simplifySchema_again).
      * apply (@Spec.present_node _ _ _ _ _ _ _ false); try reflexivity; constructor.
      * apply (@Spec.resimplified_node (VStr "unknown") VUndef VUndef VUndef VUndef [] [] []).
        constructor.
Qed.

Lemma simplifySchema_second_pass_witness :
  let pet :=
    VObj [("type", VStr "object");
          ("properties", VObj [("name", VObj [("type", VStr "string")])])] in
  let original := VObj [("$ref", VStr "#/definitions/Pet")] in
  let spec := VObj [("definitions", VObj [("Pet", pet)])] in
  exists out out',
    simplifySchema 4 pet original (Some "Pet"%string) spec = Ok out
    /\ Spec.resimplified out out'
    /\ (exists n, forall fuel' spec', n <= fuel' ->
                  simplifySchema fuel' out VUndef None spec' = Ok out')
    /\ (exists n, forall fuel' spec', n <= fuel' ->
                  simplifySchema fuel' out' VUndef None spec' = Ok out').
Proof.
  intros pet original spec.
  destruct (simplifySchema 4 pet original (Some "Pet"%string) spec) as [out|e] eqn:E;
    [|vm_compute in E; discriminate E].
  destruct (@simplifySchema_second_pass 4 pet original (Some "Pet"%string) spec out E)
    as (out' & Hre & Hsecond & Hthird).
  exists out, out'. split; [reflexivity|]. split; [exact Hre|]. split; assumption.
Defined.

(** C4 as stated fails in three ways.  A tree that carries a recovered name
    loses it: the second pass has nothing to recover the name from.  The node
    of an absent schema comes back with the fields of a present one.  A null
    description, taken from the original, comes back undefined. *)
Lemma simplifySchema_second_pass_drops_name :
  let pet :=
    VObj [("type", VStr "object");
          ("properties", VObj [("name", VObj [("type", VStr "string")])])] in
  let original := VObj [("$ref", VStr "#/definitions/Pet")] in
  let spec := VObj [("definitions", VObj [("Pet", pet)])] in
  let described := VObj [("type", VStr "string"); ("description", VNull)] in
  (exists first second,
     simplifySchema 4 pet original (Some "Pet"%string) spec = Ok first
     /\ simplifySchema 4 first VUndef None VUndef = Ok second
     /\ Js.prop "schemaName" first = VStr "Pet"
     /\ Js.prop "schemaName" second = VUndef
     /\ forall fuel, simplifySchema fuel first VUndef None VUndef <> Ok first)
  /\ (exists first second,
        simplifySchema 1 VUndef VUndef None VUndef = Ok first
        /\ simplifySchema 3 first VUndef None VUndef = Ok second
        /\ Js.prop "required" first = VUndef
        /\ Js.prop "required" second = VArr []
        /\ forall fuel, simplifySchema fuel first VUndef None VUndef <> Ok first)
  /\ (exists first second,
        simplifySchema 3 described described None VUndef = Ok first
        /\ simplifySchema 3 first VUndef None VUndef = Ok second
        /\ Js.prop "description" first = VNull
        /\ Js.prop "description" second = VUndef
        /\ forall fuel, simplifySchema fuel first VUndef None VUndef <> Ok first).
Proof.
  cbv zeta. split; [|split].
  - eexists. eexists.
    split; [vm_compute; reflexivity|]. split; [vm_compute; reflexivity|].
    split; [reflexivity|]. split; [reflexivity|].
    intros [|[|[|[|fuel]]]]; vm_compute; discriminate.
  - eexists. eexists.
    split; [vm_compute; reflexivity|]. split; [vm_compute; reflexivity|].
    split; [reflexivity|]. split; [reflexivity|].
    intros [|[|[|fuel]]]; vm_compute; discriminate.
  - eexists. eexists.
    split; [vm_compute; reflexivity|]. split; [vm_compute; reflexivity|].
    split; [reflexivity|]. split; [reflexivity|].
    intros [|[|[|fuel]]]; vm_compute; discriminate.
Qed.

(* ================================================================== *)
(** * Further properties *)

(** ** Induction on documents *)

Lemma value_induction (P : value -> Prop) :
  P VUndef -> P VNull -> (forall b, P (VBool b)) -> (forall n, P (VNum n)) ->
  (forall s, P (VStr s)) ->
  (forall elems, Forall P elems -> P (VArr elems)) ->
  (forall entries, Forall (fun kv => P (snd kv)) entries -> P (VObj entries)) ->
  forall v, P v.
Proof.
  intros Hu Hn Hb Hz Hs Ha Ho.
  fix IH 1. intros [| |b|n|s|elems|entries].
  - exact Hu.
  - exact Hn.
  - apply Hb.
  - apply Hz.
  - apply Hs.
  - apply Ha. induction elems as [|x elems IHl]; constructor; [apply IH | exact IHl].
  - apply Ho. induction entries as [|[k x] entries IHl]; constructor; [apply IH | exact IHl].
Qed.

(** ** The extension filter *)

Lemma removeExtensions_object es : removeExtensions (VObj es) = VObj (Doc.keptEntries es).
Proof.
  unfold Doc.keptEntries. simpl. f_equal.
  induction es as [|[k v] es IH]; simpl; [reflexivity|].
  destruct (isInternalKey k); simpl; [exact IH | now rewrite IH].
Qed.

Lemma removeExtensions_array elems :
  removeExtensions (VArr elems) = VArr (map removeExtensions elems).
Proof. reflexivity. Qed.

Lemma keptEntries_cons k v es :
  Doc.keptEntries ((k, v) :: es) =
  if isInternalKey k then Doc.keptEntries es
  else (k, removeExtensions v) :: Doc.keptEntries es.
Proof. unfold Doc.keptEntries. simpl. now destruct (isInternalKey k). Qed.

Lemma isInternalKey_starts key :
  isInternalKey key = true -> exists rest, key = String "x" rest.
Proof.
  unfold isInternalKey, Str.startsWith. destruct key as [|a rest]; [discriminate|].
  intros H. apply orb_true_iff in H. exists rest. f_equal.
  destruct H as [H|H]; cbn [String.prefix] in H;
    destruct (Ascii.ascii_dec "x" a) as [E|E]; congruence.
Qed.

Lemma isInternalKey_not_index key :
  isInternalKey key = true ->
  Str.arrayIndex key = None /\ String.eqb key "length" = false.
Proof.
  intros H. destruct (isInternalKey_starts _ H) as [rest ->]. split; [|reflexivity].
  unfold Str.arrayIndex. simpl. now destruct (NilEmpty.uint_of_string rest).
Qed.

Lemma arrayIndex_not_internal key n : Str.arrayIndex key = Some n -> isInternalKey key = false.
Proof.
  intros H. destruct (isInternalKey key) eqn:E; [|reflexivity].
  apply isInternalKey_not_index in E. destruct E as [E _]. congruence.
Qed.

Lemma removeExtensions_truthy v : Js.truthy (removeExtensions v) = Js.truthy v.
Proof. destruct v; reflexivity. Qed.

Lemma hasInternalKey_object es :
  Doc.hasInternalKey (VObj es) =
  existsb (fun kv => isInternalKey (fst kv) || Doc.hasInternalKey (snd kv)) es.
Proof.
  simpl. induction es as [|[k v] es IH]; simpl; [reflexivity|].
  now rewrite IH.
Qed.

(** X1.  Filtering a document twice gives what filtering it once gives. *)
Theorem removeExtensions_idempotent (obj : value) :
  removeExtensions (removeExtensions obj) = removeExtensions obj.
Proof.
  induction obj as [| | | | |elems IH|entries IH] using value_induction; try reflexivity.
  - rewrite !removeExtensions_array, map_map. f_equal.
    induction IH as [|x elems Hx _ IHl]; simpl; [reflexivity | now rewrite Hx, IHl].
  - rewrite !removeExtensions_object. f_equal.
    induction IH as [|[k v] entries Hv _ IHl]; [reflexivity|].
    rewrite keptEntries_cons. destruct (isInternalKey k) eqn:E; [exact IHl|].
    rewrite keptEntries_cons, E. simpl in Hv. now rewrite Hv, IHl.
Qed.

(** X2.  After the filter no object of the document, at any depth, has a
    key that starts with [x-internal] or [x-hidden]. *)
Theorem removeExtensions_clean (obj : value) :
  Doc.hasInternalKey (removeExtensions obj) = false.
Proof.
  induction obj as [| | | | |elems IH|entries IH] using value_induction; try reflexivity.
  - rewrite removeExtensions_array. simpl.
    induction IH as [|x elems Hx _ IHl]; simpl; [reflexivity | now rewrite Hx, IHl].
  - rewrite removeExtensions_object, hasInternalKey_object.
    induction IH as [|[k v] entries Hv _ IHl]; [reflexivity|].
    rewrite keptEntries_cons. destruct (isInternalKey k) eqn:E; [exact IHl|].
    simpl in *. now rewrite E, Hv, IHl.
Qed.

Lemma keys_indexedFrom_map (f : value -> value) l i :
  map fst (Js.indexedFrom i (map f l)) = map fst (Js.indexedFrom i l).
Proof.
  revert i. induction l as [|x l IH]; intros i; simpl; [reflexivity | now rewrite IH].
Qed.

Lemma ofIndex_arrayIndex_kept i l :
  Doc.keptKeys (map fst (Js.indexedFrom i l)) = map fst (Js.indexedFrom i l).
Proof.
  revert i. induction l as [|x l IH]; intros i; simpl; [reflexivity|].
  assert (E : isInternalKey (Str.ofIndex i) = false).
  { unfold Str.ofIndex. destruct (N.to_uint i); reflexivity. }
  rewrite E. simpl. f_equal. apply IH.
Qed.

Lemma lookup_keptEntries k es :
  Js.lookup k (Doc.keptEntries es) =
  if isInternalKey k then None
  else match Js.lookup k es with
       | Some v => Some (removeExtensions v)
       | None => None
       end.
Proof.
  induction es as [|[k' v] es IH].
  - simpl. now destruct (isInternalKey k).
  - rewrite keptEntries_cons. simpl.
    destruct (String.eqb_spec k' k) as [->|Hne].
    + destruct (isInternalKey k) eqn:E; [exact IH|].
      simpl. now rewrite String.eqb_refl.
    + destruct (isInternalKey k') eqn:E'; [exact IH|].
      simpl. apply String.eqb_neq in Hne. now rewrite Hne.
Qed.

Lemma keys_keptEntries es : map fst (Doc.keptEntries es) = Doc.keptKeys (map fst es).
Proof.
  induction es as [|[k v] es IH]; [reflexivity|].
  rewrite keptEntries_cons. simpl. destruct (isInternalKey k); simpl; now rewrite IH.
Qed.

Lemma removeExtensions_prop key obj :
  Js.prop key (removeExtensions obj) =
  if isInternalKey key then VUndef else removeExtensions (Js.prop key obj).
Proof.
  destruct obj as [| |b|n|s|elems|entries].
  1-4: now destruct (isInternalKey key).
  - simpl. destruct (Str.arrayIndex key) as [i|] eqn:Hi.
    + rewrite (arrayIndex_not_internal _ Hi).
      pose proof (map_nth removeExtensions (map VStr (Str.units s)) VUndef (N.to_nat i)) as Hn.
      simpl in Hn. rewrite <- Hn. f_equal.
      rewrite map_map. apply map_ext. reflexivity.
    + destruct (isInternalKey key) eqn:E.
      * apply isInternalKey_not_index in E. destruct E as [_ ->]. reflexivity.
      * now destruct (String.eqb key "length").
  - rewrite removeExtensions_array. simpl. destruct (Str.arrayIndex key) as [i|] eqn:Hi.
    + rewrite (arrayIndex_not_internal _ Hi).
      now rewrite <- (map_nth removeExtensions elems VUndef (N.to_nat i)).
    + destruct (isInternalKey key) eqn:E.
      * apply isInternalKey_not_index in E. destruct E as [_ ->]. reflexivity.
      * rewrite length_map. now destruct (String.eqb key "length").
  - rewrite removeExtensions_object. simpl. rewrite lookup_keptEntries.
    destruct (isInternalKey key); [reflexivity|].
    now destruct (Js.lookup key entries).
Qed.

(** X3.  The filter keeps every other member: the keys of a filtered value
    are the keys it had, in their order, less the deleted ones; reading a
    deleted key gives undefined, and reading any other key gives the
    filtered form of what the key held. *)
Theorem removeExtensions_keeps (obj : value) :
  Js.keys (removeExtensions obj) = Doc.keptKeys (Js.keys obj)
  /\ forall key,
       Js.prop key (removeExtensions obj) =
       if isInternalKey key then VUndef else removeExtensions (Js.prop key obj).
Proof.
  split; [|intros key; apply removeExtensions_prop].
  destruct obj as [| |b|n|s|elems|entries]; try reflexivity.
  - unfold Js.keys. simpl. symmetry. apply ofIndex_arrayIndex_kept.
  - rewrite removeExtensions_array. unfold Js.keys. simpl.
    rewrite keys_indexedFrom_map. symmetry. apply ofIndex_arrayIndex_kept.
  - rewrite removeExtensions_object. unfold Js.keys. simpl. apply keys_keptEntries.
Qed.

Lemma removeExtensions_read key obj :
  isInternalKey key = false ->
  Js.prop key (removeExtensions obj) = removeExtensions (Js.prop key obj).
Proof. intros H. now rewrite removeExtensions_prop, H. Qed.

Lemma firstFound_removeExtensions recur items :
  (forall x, recur (removeExtensions x) = recur x) ->
  firstFound recur (map removeExtensions items) = firstFound recur items.
Proof.
  intros Hr. induction items as [|x items IH]; simpl; [reflexivity|].
  rewrite Hr. destruct (recur x) as [found|e]; simpl; [|reflexivity].
  now destruct (nameFound found).
Qed.

Lemma scanComposites_removeExtensions recur schema keys :
  (forall x, recur (removeExtensions x) = recur x) ->
  Forall (fun key => isInternalKey key = false) keys ->
  scanComposites recur (removeExtensions schema) keys = scanComposites recur schema keys.
Proof.
  intros Hr. induction 1 as [|key keys Hkey _ IH]; simpl; [reflexivity|].
  rewrite (@removeExtensions_read key schema Hkey), IH.
  destruct (Js.prop key schema) as [| |b|n|s|items|o]; try reflexivity.
  rewrite removeExtensions_array, firstFound_removeExtensions by exact Hr. reflexivity.
Qed.

Lemma directName_removeExtensions schema :
  directName (removeExtensions schema) = directName schema.
Proof.
  unfold directName. rewrite removeExtensions_read by reflexivity.
  now destruct (Js.prop "$ref" schema).
Qed.

Lemma strictEqStr_removeExtensions v s :
  Js.strictEqStr (removeExtensions v) s = Js.strictEqStr v s.
Proof. now destruct v. Qed.

(** X4.  The extension filter never changes a recovered name: the name
    recovered from a filtered schema is the name recovered from the schema,
    and the call fails on the one exactly when it fails on the other. *)
Theorem extractSchemaName_removeExtensions (fuel : nat) (schema : value) :
  extractSchemaName fuel (removeExtensions schema) = extractSchemaName fuel schema.
Proof.
  revert schema. induction fuel as [|fuel IH]; intros schema; [reflexivity|].
  rewrite !extractSchemaName_unfold, removeExtensions_truthy, directName_removeExtensions.
  destruct (Js.truthy schema); [|reflexivity]. cbn [negb].
  destruct (directName schema); [reflexivity|].
  rewrite scanComposites_removeExtensions;
    [|exact IH | repeat constructor].
  rewrite !removeExtensions_read by reflexivity.
  rewrite strictEqStr_removeExtensions, removeExtensions_truthy, IH.
  reflexivity.
Qed.

(** ** The name recoverer: termination *)

Lemma depth_object es :
  Doc.depth (VObj es) = S (fold_right (fun kv n => Nat.max (Doc.depth (snd kv)) n) 0%nat es).
Proof.
  simpl. f_equal. induction es as [|[k v] es IH]; simpl; [reflexivity | now rewrite IH].
Qed.

Lemma depth_element x elems :
  In x elems -> (Doc.depth x < Doc.depth (VArr elems))%nat.
Proof.
  simpl. induction elems as [|y elems IH]; intros Hin; [contradiction|].
  simpl. destruct Hin as [->|Hin]; [lia|]. specialize (IH Hin). lia.
Qed.

Lemma depth_nth i elems :
  (Doc.depth (nth i elems VUndef) <= pred (Doc.depth (VArr elems)))%nat.
Proof.
  destruct (nth_in_or_default i elems VUndef) as [Hin| ->]; [|simpl; lia].
  apply depth_element in Hin. lia.
Qed.

Lemma depth_member k es x :
  Js.lookup k es = Some x -> (Doc.depth x < Doc.depth (VObj es))%nat.
Proof.
  rewrite depth_object. induction es as [|[k' y] es IH]; simpl; [discriminate|].
  destruct (String.eqb k' k).
  - intros H. inversion H; subst. lia.
  - intros H. specialize (IH H). lia.
Qed.

Lemma depth_prop k v : (Doc.depth (Js.prop k v) <= pred (Doc.depth v))%nat.
Proof.
  destruct v as [| |b|n|s|elems|es]; try (simpl; lia).
  - simpl. destruct (Str.arrayIndex k).
    + destruct (nth_in_or_default (N.to_nat n) (map VStr (Str.units s)) VUndef) as [Hin| ->];
        [|simpl; lia].
      apply in_map_iff in Hin. destruct Hin as (u & <- & _). simpl. lia.
    + destruct (String.eqb k "length"); simpl; lia.
  - cbn [Js.prop]. destruct (Str.arrayIndex k).
    + apply depth_nth.
    + destruct (String.eqb k "length"); simpl; lia.
  - cbn [Js.prop]. destruct (Js.lookup k es) eqn:E; [|simpl; lia].
    apply depth_member in E. lia.
Qed.

Lemma firstFound_returns recur items :
  (forall item, In item items -> exists name, recur item = Ok name) ->
  exists found, firstFound recur items = Ok found.
Proof.
  induction items as [|item items IH]; intros Hr; simpl; [now exists None|].
  destruct (Hr item (or_introl eq_refl)) as [name ->]. cbn [bind].
  destruct (nameFound name); [now exists name|].
  apply IH. intros x Hx. apply Hr. now right.
Qed.

Lemma scanComposites_returns recur schema keys :
  (forall key items item,
     In key keys -> Js.prop key schema = VArr items -> In item items ->
     exists name, recur item = Ok name) ->
  exists found, scanComposites recur schema keys = Ok found.
Proof.
  induction keys as [|key keys IH]; intros Hr; simpl; [now exists None|].
  assert (Hhere : exists found,
             match Js.prop key schema with
             | VArr items => firstFound recur items
             | _ => Ok None
             end = Ok found).
  { destruct (Js.prop key schema) as [| |b|n|s|items|o] eqn:E; try (now exists None).
    apply firstFound_returns. intros item Hin. apply (Hr key items item); auto. now left. }
  destruct Hhere as [found ->]. cbn [bind].
  destruct (nameFound found); [now exists found|].
  apply IH. intros k items item Hk. apply Hr. now right.
Qed.

(** X5.  The name recoverer fails on no document: called with a stack
    deeper than the document is nested, it returns a name or undefined. *)
Theorem extractSchemaName_returns (fuel : nat) (schema : value) :
  (Doc.depth schema < fuel)%nat ->
  exists name, extractSchemaName fuel schema = Ok name.
Proof.
  revert schema. induction fuel as [|fuel IH]; intros schema Hd; [lia|].
  rewrite extractSchemaName_unfold.
  destruct (Js.truthy schema); cbn [negb]; [|now exists None].
  destruct (directName schema) as [name|]; [now exists (Some name)|].
  destruct (@scanComposites_returns (extractSchemaName fuel) schema composites) as [found ->].
  { intros key items item _ Hitems Hin. apply IH.
    pose proof (depth_prop key schema) as Hp. rewrite Hitems in Hp.
    apply depth_element in Hin. lia. }
  cbn [bind]. destruct (nameFound found); [now exists found|].
  destruct (Js.strictEqStr (Js.prop "type" schema) "array"
            && Js.truthy (Js.prop "items" schema)) eqn:E; [|now exists None].
  apply andb_true_iff in E. destruct E as [_ Hitems].
  destruct (IH (Js.prop "items" schema)) as [itemName ->].
  { pose proof (depth_prop "items" schema) as Hp.
    destruct (@prop_defined_object "items" schema) as [o ->]; try reflexivity.
    - intros Habs. rewrite Habs in Hitems. discriminate.
    - rewrite depth_object in *. lia. }
  cbn [bind]. destruct itemName as [n|]; [|now exists None].
  destruct (nameFound (Some n)); eauto.
Qed.

Lemma extractSchemaName_returns_witness :
  exists name,
    extractSchemaName 4 (VObj [("allOf", VArr [VObj [("$ref", VStr "#/definitions/Pet")]])])
    = Ok name.
Proof.
  apply (@extractSchemaName_returns 4
           (VObj [("allOf", VArr [VObj [("$ref", VStr "#/definitions/Pet")]])])).
  simpl. lia.
Defined.

(** ** Arrays of arrays *)

Lemma withArrayMarker_nonempty N : withArrayMarker N <> ""%string.
Proof.
  unfold withArrayMarker. destruct (Str.endsWith "[]" N) eqn:E.
  - intros ->. discriminate E.
  - destruct N; discriminate.
Qed.

Lemma withArrayMarker_idem N : withArrayMarker (withArrayMarker N) = withArrayMarker N.
Proof.
  destruct (withArrayMarker_spec (withArrayMarker N)) as (_ & Hfix & _).
  apply Hfix. apply withArrayMarker_spec.
Qed.

Lemma extractSchemaName_arrayOf fuel items N :
  extractSchemaName fuel items = Ok (Some N) -> N <> ""%string ->
  extractSchemaName (S fuel) (Doc.arrayOf items) = Ok (Some (withArrayMarker N)).
Proof.
  intros Hitems HN. pose proof (extractSchemaName_Some_truthy _ _ Hitems) as Htruthy.
  rewrite extractSchemaName_unfold.
  change (Js.truthy (Doc.arrayOf items)) with true.
  change (directName (Doc.arrayOf items)) with (@None string).
  change (scanComposites (extractSchemaName fuel) (Doc.arrayOf items) composites)
    with (@Ok (option string) None).
  change (Js.prop "type" (Doc.arrayOf items)) with (VStr "array").
  change (Js.prop "items" (Doc.arrayOf items)) with items.
  cbn [negb bind nameFound]. rewrite Htruthy.
  change (Js.strictEqStr (VStr "array") "array") with true. cbn [andb].
  rewrite Hitems. cbn [bind nameFound Js.truthy].
  apply String.eqb_neq in HN. now rewrite HN.
Qed.

(** X6.  However deep an array of arrays is nested, the recovered name
    carries one array marker: the name of the innermost items, followed by
    the marker unless it ends with it already. *)
Theorem extractSchemaName_nested_arrays (k fuel : nat) (leaf : value) (N : string) :
  extractSchemaName fuel leaf = Ok (Some N) ->
  N <> ""%string ->
  extractSchemaName (S k + fuel) (Doc.nestedArray (S k) leaf)
  = Ok (Some (if Str.endsWith "[]" N then N else (N ++ "[]")%string)).
Proof.
  intros Hleaf HN. fold (withArrayMarker N).
  induction k as [|k IH].
  - now apply extractSchemaName_arrayOf.
  - change (Doc.nestedArray (S (S k)) leaf) with (Doc.arrayOf (Doc.nestedArray (S k) leaf)).
    change (S (S k) + fuel)%nat with (S (S k + fuel)).
    rewrite <- withArrayMarker_idem.
    apply extractSchemaName_arrayOf; [exact IH | apply withArrayMarker_nonempty].
Qed.

Lemma extractSchemaName_nested_arrays_witness :
  extractSchemaName 4 (Doc.nestedArray 3 (VObj [("$ref", VStr "#/definitions/Pet")]))
  = Ok (Some "Pet[]"%string).
Proof.
  apply (@extractSchemaName_nested_arrays 2 1 (VObj [("$ref", VStr "#/definitions/Pet")]) "Pet");
    [reflexivity | discriminate].
Defined.

Lemma getSchemaType_arrayOf builtins fuel items t :
  Js.truthy items = true ->
  getSchemaType builtins fuel items = Ok t ->
  getSchemaType builtins (S fuel) (Doc.arrayOf items)
  = Ok (VStr (ToString builtins t ++ "[]")).
Proof.
  intros Htruthy Hitems. simpl. rewrite Htruthy. cbn [andb]. now rewrite Hitems.
Qed.

(** X7.  The type label of a parameter counts the nesting: for a present
    schema wrapped in [k] array schemas it is the text of the schema's own
    label followed by [k] array markers. *)
Theorem getSchemaType_nested_arrays
  (builtins : Builtins) (k fuel : nat) (leaf t : value) :
  (forall s, ToString builtins (VStr s) = s) ->
  Js.truthy leaf = true ->
  getSchemaType builtins fuel leaf = Ok t ->
  getSchemaType builtins (S k + fuel) (Doc.nestedArray (S k) leaf)
  = Ok (VStr (ToString builtins t ++ Doc.markers (S k))).
Proof.
  intros HtoString Htruthy Hleaf. induction k as [|k IH].
  - now apply getSchemaType_arrayOf.
  - change (Doc.nestedArray (S (S k)) leaf) with (Doc.arrayOf (Doc.nestedArray (S k) leaf)).
    change (S (S k) + fuel)%nat with (S (S k + fuel)).
    rewrite (@getSchemaType_arrayOf builtins (S k + fuel) (Doc.nestedArray (S k) leaf)
               (VStr (ToString builtins t ++ Doc.markers (S k))) eq_refl IH).
    rewrite HtoString. do 2 f_equal.
    rewrite append_assoc. f_equal.
    clear. induction k as [|k IH]; [reflexivity|].
    change (Doc.markers (S (S k))) with ("[]" ++ Doc.markers (S k))%string.
    rewrite append_assoc, IH. reflexivity.
Qed.

Lemma getSchemaType_nested_arrays_witness :
  getSchemaType exampleBuiltins 3 (Doc.nestedArray 2 (VObj [("type", VStr "string")]))
  = Ok (VStr "string[][]").
Proof.
  apply (@getSchemaType_nested_arrays exampleBuiltins 1 1
           (VObj [("type", VStr "string")]) (VStr "string"));
    [reflexivity | reflexivity | reflexivity].
Defined.

(** ** Generated operation ids *)

Lemma removeBraces_idem s : Str.removeBraces (Str.removeBraces s) = Str.removeBraces s.
Proof.
  induction s as [|a s IH]; [reflexivity|]. simpl.
  destruct (Ascii.eqb a "{" || Ascii.eqb a "}") eqn:E; [exact IH|].
  simpl. now rewrite E, IH.
Qed.

Lemma slashesToUnderscores_idem s :
  Str.slashesToUnderscores (Str.slashesToUnderscores s) = Str.slashesToUnderscores s.
Proof.
  induction s as [|a s IH]; [reflexivity|]. simpl. rewrite IH. f_equal.
  destruct (Ascii.eqb a "/") eqn:E; [reflexivity | now rewrite E].
Qed.

Lemma removeBraces_slashesToUnderscores s :
  Str.removeBraces (Str.slashesToUnderscores s)
  = Str.slashesToUnderscores (Str.removeBraces s).
Proof.
  induction s as [|a s IH]; [reflexivity|]. simpl.
  destruct (Ascii.eqb_spec a "/") as [->|Hne]; [simpl; now rewrite IH|].
  destruct (Ascii.eqb a "{" || Ascii.eqb a "}") eqn:E; [exact IH|].
  simpl. apply Ascii.eqb_neq in Hne. now rewrite Hne, IH.
Qed.

(** X8.  A generated id ignores braces and does not tell a slash from an
    underscore: a path and the same path with its braces removed and its
    slashes written as underscores get the same id, so that the ids of
    distinct paths can coincide. *)
Theorem generateOperationId_separators
  (builtins : Builtins) (method : HttpMethod) (path : string) :
  generateOperationId builtins method (Str.slashesToUnderscores (Str.removeBraces path))
  = generateOperationId builtins method path
  /\ generateOperationId builtins method (Str.removeBraces path)
     = generateOperationId builtins method path.
Proof.
  unfold generateOperationId. split.
  - now rewrite removeBraces_slashesToUnderscores, removeBraces_idem, slashesToUnderscores_idem.
  - now rewrite removeBraces_idem.
Qed.

(** ** The parameter list *)

Lemma filter_isNotBodyParam l r :
  Js.filter isNotBodyParam l = Ok r -> r = Doc.nonBody l.
Proof.
  revert r. induction l as [|p l IH]; intros r H; simpl in H; [now inversion H|].
  inv_bind H. inv_bind H. inversion H; subst r. clear H.
  unfold isNotBodyParam in Ha. inv_bind Ha. apply get_Ok in Ha1. destruct Ha1 as [-> _].
  inversion Ha; subst a. rewrite (IH _ Ha0). reflexivity.
Qed.

Lemma find_isBodyParam l x :
  Js.find isBodyParam l = Ok x ->
  x = match List.find Doc.inBody l with Some p => p | None => VUndef end.
Proof.
  induction l as [|p l IH]; intros H; simpl in H; [now inversion H|].
  inv_bind H. unfold isBodyParam in Ha. inv_bind Ha. apply get_Ok in Ha0.
  destruct Ha0 as [-> _]. inversion Ha; subst a. simpl. unfold Doc.inBody at 1.
  destruct (Js.strictEqStr (Js.prop "in" p) "body"); [now inversion H | now apply IH].
Qed.

Lemma mapM_extractParameter builtins fuel l r :
  Js.mapM (extractParameter builtins fuel) l = Ok r ->
  map ParameterInfo.name r = map (Js.prop "name") l
  /\ map ParameterInfo.location r = map (Js.prop "in") l.
Proof.
  revert r. induction l as [|p l IH]; intros r H; simpl in H; [now inversion H|].
  inv_bind H. inv_bind H. inversion H; subst r. clear H.
  destruct (IH _ Ha0) as [Hn Hl]. simpl. rewrite Hn, Hl.
  unfold extractParameter in Ha. inv_bind Ha. inv_bind Ha. inversion Ha; subst a.
  split; reflexivity.
Qed.

(** X9.  The parameters of an endpoint are the declared parameters that are
    not located in the body, those of the path item first and those of the
    operation after them, each in its declared order: a parameter the
    operation declares again is listed again, not overridden, and no entry
    is located in the body.  The body parameter handed on is the first
    declared one located in the body. *)
Theorem extractAllParameters_order
  (builtins : Builtins) (fuel : nat) (operation pathItem : value)
  (parameters : list ParameterInfo.t) (bodyParam : value) :
  extractAllParameters builtins fuel operation pathItem = Ok (parameters, bodyParam) ->
  exists pathParams opParams,
    Js.iterate (Js.coalesce (Js.prop "parameters" pathItem) (VArr [])) = Ok pathParams
    /\ Js.iterate (Js.coalesce (Js.prop "parameters" operation) (VArr [])) = Ok opParams
    /\ map ParameterInfo.name parameters
       = map (Js.prop "name") (Doc.nonBody pathParams ++ Doc.nonBody opParams)
    /\ map ParameterInfo.location parameters
       = map (Js.prop "in") (Doc.nonBody pathParams ++ Doc.nonBody opParams)
    /\ Forall (fun p => Js.strictEqStr (ParameterInfo.location p) "body" = false) parameters
    /\ bodyParam = match List.find Doc.inBody (pathParams ++ opParams) with
                   | Some p => p
                   | None => VUndef
                   end.
Proof.
  unfold extractAllParameters, allParameters. intros H.
  inv_bind H. inv_bind Ha. inv_bind Ha. inv_bind Ha. inv_bind Ha. inversion Ha; subst a.
  clear Ha. inv_bind H. inv_bind H. inv_bind H. inversion H; subst a5 a. clear H.
  apply get_Ok in Ha0, Ha1. destruct Ha0 as [-> _], Ha1 as [-> _].
  exists a2, a3. split; [assumption|]. split; [assumption|].
  apply filter_isNotBodyParam in Ha4. subst a4.
  apply find_isBodyParam in Ha. apply mapM_extractParameter in Ha5.
  destruct Ha5 as [Hn Hl].
  assert (Happ : Doc.nonBody (a2 ++ a3) = Doc.nonBody a2 ++ Doc.nonBody a3)
    by apply filter_app.
  rewrite <- Happ. split; [assumption|]. split; [assumption|]. split; [|assumption].
  apply Forall_forall. intros p Hp.
  apply (in_map ParameterInfo.location) in Hp. rewrite Hl in Hp.
  apply in_map_iff in Hp. destruct Hp as (q & <- & Hq).
  apply filter_In in Hq. destruct Hq as [_ Hq]. unfold Doc.inBody in Hq.
  now destruct (Js.strictEqStr (Js.prop "in" q) "body").
Qed.

Lemma extractAllParameters_order_witness :
  let limit := VObj [("name", VStr "limit"); ("in", VStr "query")] in
  let body := VObj [("name", VStr "pet"); ("in", VStr "body")] in
  let pathItem := VObj [("parameters", VArr [limit])] in
  let operation := VObj [("parameters", VArr [body; limit])] in
  exists parameters,
    extractAllParameters exampleBuiltins 1 operation pathItem = Ok (parameters, body)
    /\ map ParameterInfo.name parameters = [VStr "limit"; VStr "limit"].
Proof.
  intros limit body pathItem operation.
  destruct (extractAllParameters exampleBuiltins 1 operation pathItem)
    as [[parameters bodyParam]|e] eqn:E; [|vm_compute in E; discriminate E].
  destruct (@extractAllParameters_order exampleBuiltins 1 operation pathItem
              parameters bodyParam E)
    as (pathParams & opParams & Hp & Ho & Hn & _ & _ & Hb).
  inversion Hp; subst pathParams. inversion Ho; subst opParams.
  exists parameters. split; [now rewrite Hb | exact Hn].
Defined.

(** ** The endpoint list *)

Lemma foldM_Ok_In {A S} (body : S -> A -> result S) l s s' a :
  foldM body l s = Ok s' -> In a l -> exists s1 s2, body s1 a = Ok s2.
Proof.
  revert s. induction l as [|x l IH]; intros s H Hin; [contradiction|].
  simpl in H. inv_bind H. destruct Hin as [->|Hin]; [now exists s, a0|].
  now apply (IH a0).
Qed.

Lemma extractResponses_nullish fuel responses originalResponses originalSpec :
  Js.nullish responses = true ->
  extractResponses fuel responses originalResponses originalSpec = Err TypeError.
Proof.
  intros H. unfold extractResponses, importantCodes. cbn [foldM].
  unfold extractResponsesStep at 1. unfold Js.get. rewrite H. reflexivity.
Qed.

Lemma extractEndpoint_responses builtins fuel path method operation pathItem
      originalOperation originalSpec ep :
  extractEndpoint builtins fuel path method operation pathItem originalOperation originalSpec
  = Ok ep ->
  Js.nullish (Js.prop "responses" operation) = false.
Proof.
  unfold extractEndpoint. intros H. inv_bind H. inv_bind H. destruct a0 as [parameters bodyParam].
  inv_bind H. inv_bind H. clear H.
  unfold extractEndpointResponses in Ha2. inv_bind Ha2. inv_bind Ha2.
  apply get_Ok in Ha4. destruct Ha4 as [-> _].
  destruct (Js.nullish (Js.prop "responses" operation)) eqn:E; [|reflexivity].
  rewrite (@extractResponses_nullish fuel _ a2 originalSpec E) in Ha2. discriminate.
Qed.

Lemma extractEndpointsMethod_retained builtins fuel excludeTags excludeDeprecated originalSpec
      path pathItem originalPathItem acc method acc' :
  extractEndpointsMethod builtins fuel excludeTags excludeDeprecated originalSpec
                         path pathItem originalPathItem acc method = Ok acc' ->
  Spec.operationRetained excludeTags excludeDeprecated pathItem method ->
  exists ep,
    extractEndpoint builtins fuel path method (Js.prop (methodName method) pathItem) pathItem
                    (Js.prop (methodName method) originalPathItem) originalSpec = Ok ep
    /\ acc' = acc ++ [ep].
Proof.
  unfold extractEndpointsMethod, Spec.operationRetained. cbv zeta.
  intros H (Hop & Hdep & tags & Htags & Hnone).
  rewrite Hop, Hdep in H. cbn [negb] in H.
  inv_bind H. apply someExcluded_spec in Ha. destruct Ha as (ts & Hts & Hiff).
  fold (Spec.effectiveTags (Js.prop (methodName method) pathItem)) in Hts.
  rewrite Htags in Hts. inversion Hts; subst ts.
  destruct a; [elim Hnone; now apply Hiff|].
  inv_bind H. inversion H. now exists a.
Qed.

(** X10.  An operation that passes the filters and declares no response
    table makes the whole extraction fail: no list of endpoints is
    returned, whatever else the document holds. *)
Theorem extractEndpoints_missing_responses
  (builtins : Builtins) (fuel : nat) (spec : value) (options : ExtractorOptions)
  (path : string) (pathItem : value) (method : HttpMethod)
  (regexes : list (string -> bool)) :
  let excluded := match excludeTags options with Some l => l | None => [] end in
  let patterns := match excludePaths options with Some l => l | None => [] end in
  let deprecatedOut := match excludeDeprecated options with Some b => b | None => true end in
  In (path, pathItem) (Js.entries (Js.coalesce (Js.prop "paths" spec) (VObj []))) ->
  Js.truthy pathItem = true ->
  Js.mapM (RegExp builtins) patterns = Ok regexes ->
  existsb (fun regex => regex path) regexes = false ->
  Spec.operationRetained excluded deprecatedOut pathItem method ->
  Js.nullish (Js.prop "responses" (Js.prop (methodName method) pathItem)) = true ->
  forall endpoints, extractEndpoints builtins fuel spec options <> Ok endpoints.
Proof.
  intros excluded patterns deprecatedOut Hin Hitem Hre Hnone Hret Hresp endpoints H.
  unfold extractEndpoints in H. fold excluded patterns deprecatedOut in H.
  rewrite Hre in H. cbn [bind] in H. inv_bind H. apply get_Ok in Ha. destruct Ha as [-> _].
  destruct (@foldM_Ok_In _ _ _ _ _ _ _ H Hin) as (acc1 & acc2 & Hpath).
  unfold extractEndpointsPath in Hpath. cbn [fst snd] in Hpath.
  rewrite Hitem, Hnone in Hpath. cbn [negb] in Hpath.
  assert (Hm : In method HTTP_METHODS) by (unfold HTTP_METHODS; destruct method; simpl; tauto).
  destruct (@foldM_Ok_In _ _ _ _ _ _ _ Hpath Hm) as (acc3 & acc4 & Hmethod).
  apply extractEndpointsMethod_retained in Hmethod; [|exact Hret].
  destruct Hmethod as (ep & Hep & _).
  apply extractEndpoint_responses in Hep. congruence.
Qed.

Lemma extractEndpoints_missing_responses_witness :
  let spec :=
    VObj [("paths",
           VObj [("/pets", VObj [("get", VObj [("responses", VObj [])])]);
                 ("/owners", VObj [("get", VObj [("summary", VStr "List the owners")])])])] in
  let options :=
    {| excludeTags := None; excludePaths := None;
       excludeDeprecated := None; originalSpec := VUndef |} in
  extractEndpoints exampleBuiltins 5 spec options = Err TypeError.
Proof.
  intros spec options.
  destruct (extractEndpoints exampleBuiltins 5 spec options) as [endpoints|e] eqn:E;
    [|vm_compute in E; inversion E; reflexivity].
  exfalso.
  apply (@extractEndpoints_missing_responses exampleBuiltins 5 spec options "/owners"
           (VObj [("get", VObj [("summary", VStr "List the owners")])]) GET [])
    with (endpoints := endpoints).
  - right. now left.
  - reflexivity.
  - reflexivity.
  - reflexivity.
  - split; [reflexivity|]. split; [reflexivity|].
    exists [VStr "default"]. split; [reflexivity|].
    intros (tag & _ & []).
  - reflexivity.
  - exact E.
Defined.

Lemma retained_spec excludeTags excludeDeprecated pathItem method :
  Doc.retained excludeTags excludeDeprecated pathItem method = true
  <-> Spec.operationRetained excludeTags excludeDeprecated pathItem method.
Proof.
  unfold Doc.retained, Spec.operationRetained. cbv zeta.
  set (operation := Js.prop (methodName method) pathItem).
  rewrite !andb_true_iff, negb_true_iff. split.
  - intros [[Hop Hdep] Htags]. split; [assumption|]. split; [assumption|].
    destruct (Spec.effectiveTags operation) as [| | | | |tags|]; try discriminate.
    exists tags. split; [reflexivity|]. intros Hsome.
    destruct (@someExcluded_spec excludeTags (VArr tags) _ eq_refl) as (ts & Hts & Hiff).
    inversion Hts; subst ts. apply Hiff in Hsome. rewrite Hsome in Htags. discriminate.
  - intros (Hop & Hdep & tags & -> & Hnone). split; [split; assumption|].
    apply negb_true_iff.
    destruct (@someExcluded_spec excludeTags (VArr tags) _ eq_refl) as (ts & Hts & Hiff).
    inversion Hts; subst ts.
    destruct (existsb _ tags); [elim Hnone; now apply Hiff | reflexivity].
Qed.

Section EndpointOrder.
Variable builtins : Builtins.
Variables (fuel : nat) (excludeTags : list string) (excludeDeprecated : bool).
Variables (originalSpec : value).

Lemma extractEndpointsMethod_keys path pathItem originalPathItem methods acc acc' :
  foldM (extractEndpointsMethod builtins fuel excludeTags excludeDeprecated originalSpec
                                path pathItem originalPathItem) methods acc = Ok acc' ->
  map Doc.endpointKey acc'
  = map Doc.endpointKey acc
    ++ map (pair path) (List.filter (Doc.retained excludeTags excludeDeprecated pathItem) methods).
Proof.
  revert acc. induction methods as [|m methods IH]; intros acc H; simpl in H.
  - inversion H. simpl. now rewrite app_nil_r.
  - inv_bind H. rewrite (IH _ H). clear IH H.
    apply extractEndpointsMethod_step in Ha.
    destruct Ha as [[-> Hskip]|(ep & -> & Hp & Hm & Hret)]; simpl.
    + destruct (Doc.retained excludeTags excludeDeprecated pathItem m) eqn:E; [|reflexivity].
      apply retained_spec in E. contradiction.
    + apply retained_spec in Hret. rewrite Hret, map_app, <- app_assoc.
      simpl. unfold Doc.endpointKey at 2. now rewrite Hp, Hm.
Qed.

Variables (excludePathRegexes : list (string -> bool)) (originalPaths : value).

Lemma extractEndpointsPath_keys entries acc acc' :
  foldM (extractEndpointsPath builtins fuel excludeTags excludeDeprecated originalSpec
                              excludePathRegexes originalPaths) entries acc = Ok acc' ->
  map Doc.endpointKey acc'
  = map Doc.endpointKey acc
    ++ flat_map (Doc.pathOperations excludeTags excludeDeprecated excludePathRegexes) entries.
Proof.
  revert acc. induction entries as [|[p item] entries IH]; intros acc H; simpl in H.
  - inversion H. simpl. now rewrite app_nil_r.
  - inv_bind H. rewrite (IH _ H). clear IH H. simpl. rewrite app_assoc. f_equal.
    unfold extractEndpointsPath in Ha. unfold Doc.pathOperations. cbn [fst snd] in *.
    destruct (Js.truthy item); cbn [negb andb] in *;
      [|inversion Ha; now rewrite app_nil_r].
    destruct (existsb (fun regex => regex p) excludePathRegexes); cbn [negb] in *;
      [inversion Ha; now rewrite app_nil_r|].
    now apply extractEndpointsMethod_keys in Ha.
Qed.

End EndpointOrder.

(** X11.  The endpoints come out in the order of the document: path by
    path as the path table enumerates them and, within a path, in the fixed
    order get, post, put, patch, delete, options, head, with exactly one
    endpoint for each operation that passes the filters. *)
Theorem extractEndpoints_order
  (builtins : Builtins) (fuel : nat) (spec : value) (options : ExtractorOptions)
  (endpoints : list EndpointInfo.t) (regexes : list (string -> bool)) :
  let excluded := match excludeTags options with Some l => l | None => [] end in
  let patterns := match excludePaths options with Some l => l | None => [] end in
  let deprecatedOut := match excludeDeprecated options with Some b => b | None => true end in
  extractEndpoints builtins fuel spec options = Ok endpoints ->
  Js.mapM (RegExp builtins) patterns = Ok regexes ->
  map Doc.endpointKey endpoints
  = flat_map (Doc.pathOperations excluded deprecatedOut regexes)
             (Js.entries (Js.coalesce (Js.prop "paths" spec) (VObj []))).
Proof.
  intros excluded patterns deprecatedOut H Hre.
  unfold extractEndpoints in H. fold excluded patterns deprecatedOut in H.
  rewrite Hre in H. cbn [bind] in H. inv_bind H. apply get_Ok in Ha. destruct Ha as [-> _].
  now apply extractEndpointsPath_keys in H.
Qed.

Lemma extractEndpoints_order_witness :
  let responses := ("responses", VObj []) in
  let spec :=
    VObj [("paths",
           VObj [("/pets", VObj [("post", VObj [responses]); ("get", VObj [responses])]);
                 ("/owners", VObj [("head", VObj [responses]);
                                   ("get", VObj [("deprecated", VBool true); responses])])])] in
  let options :=
    {| excludeTags := None; excludePaths := None;
       excludeDeprecated := None; originalSpec := VUndef |} in
  exists endpoints,
    extractEndpoints exampleBuiltins 1 spec options = Ok endpoints
    /\ map Doc.endpointKey endpoints
       = [("/pets"%string, GET); ("/pets"%string, POST); ("/owners"%string, HEAD)].
Proof.
  intros responses spec options.
  destruct (extractEndpoints exampleBuiltins 1 spec options) as [endpoints|e] eqn:E;
    [|vm_compute in E; discriminate E].
  exists endpoints. split; [reflexivity|].
  exact (@extractEndpoints_order exampleBuiltins 1 spec options endpoints [] E eq_refl).
Defined.

Lemma mapM_Ok_In {A B} (f : A -> result B) l r a :
  Js.mapM f l = Ok r -> In a l -> exists y, f a = Ok y.
Proof.
  revert r. induction l as [|x l IH]; intros r H Hin; [contradiction|].
  simpl in H. inv_bind H. inv_bind H. destruct Hin as [->|Hin]; [now exists a0|].
  now apply (IH a1).
Qed.

(** X12.  An exclude pattern that the regular-expression engine rejects
    makes the extraction fail before the document is looked at: no list is
    returned for any document, not even for one without paths. *)
Theorem extractEndpoints_bad_pattern
  (builtins : Builtins) (fuel : nat) (spec : value) (options : ExtractorOptions)
  (patterns : list string) (pattern : string) (e : error) :
  excludePaths options = Some patterns ->
  In pattern patterns ->
  RegExp builtins pattern = Err e ->
  forall endpoints, extractEndpoints builtins fuel spec options <> Ok endpoints.
Proof.
  intros Hopt Hin Hbad endpoints H. unfold extractEndpoints in H. rewrite Hopt in H.
  inv_bind H. destruct (@mapM_Ok_In _ _ _ _ _ pattern Ha Hin) as [regex Hregex].
  congruence.
Qed.

Lemma extractEndpoints_bad_pattern_witness :
  let options :=
    {| excludeTags := None; excludePaths := Some ["("%string];
       excludeDeprecated := None; originalSpec := VUndef |} in
  extractEndpoints exampleBuiltins 1 (VObj []) options = Err SyntaxError.
Proof.
  intros options.
  destruct (extractEndpoints exampleBuiltins 1 (VObj []) options) as [endpoints|e] eqn:E;
    [|vm_compute in E; inversion E; reflexivity].
  exfalso.
  apply (@extractEndpoints_bad_pattern exampleBuiltins 1 (VObj []) options
           ["("%string] "(" SyntaxError) with (endpoints := endpoints);
    [reflexivity | now left | reflexivity | exact E].
Defined.

(** ** The composition flattener: type, enum, items and required *)

Lemma dedupe_step_distinct l seen :
  Doc.distinct seen ->
  Doc.distinct
    (fold_left (fun seen x => if existsb (fun y => Js.sameValueZero y x) seen
                              then seen else seen ++ [x]) l seen).
Proof.
  revert seen. induction l as [|x l IH]; intros seen Hd; simpl; [exact Hd|].
  apply IH. destruct (existsb (fun y => Js.sameValueZero y x) seen) eqn:E; [exact Hd|].
  now constructor.
Qed.

Lemma dedupe_distinct l : Doc.distinct (Js.dedupe l).
Proof. apply dedupe_step_distinct. constructor. Qed.

Lemma distinct_inv pre x post :
  Doc.distinct (pre ++ x :: post) ->
  Doc.distinct pre /\ existsb (fun y => Js.sameValueZero y x) pre = false.
Proof.
  induction post as [|z post IH] using rev_ind; intros H.
  - inversion H as [E|seen y Hd Hx E].
    + destruct pre; discriminate.
    + change (pre ++ [x]) with (pre ++ [x]) in E. apply app_inj_tail in E.
      destruct E as [-> ->]. now split.
  - apply IH. rewrite app_comm_cons, app_assoc in H.
    inversion H as [E|seen y Hd Hx E].
    + destruct (pre ++ x :: post); discriminate.
    + apply app_inj_tail in E. destruct E as [-> _]. exact Hd.
Qed.

Lemma dedupe_step_fixed l seen :
  Doc.distinct (seen ++ l) ->
  fold_left (fun seen x => if existsb (fun y => Js.sameValueZero y x) seen
                           then seen else seen ++ [x]) l seen
  = seen ++ l.
Proof.
  revert seen. induction l as [|x l IH]; intros seen Hd; simpl; [now rewrite app_nil_r|].
  pose proof Hd as Hd'. apply distinct_inv in Hd'. destruct Hd' as [_ ->].
  rewrite IH; rewrite <- app_assoc; [reflexivity | exact Hd].
Qed.

Lemma dedupe_idem l : Js.dedupe (Js.dedupe l) = Js.dedupe l.
Proof.
  unfold Js.dedupe at 1. rewrite dedupe_step_fixed; [reflexivity|].
  apply dedupe_distinct.
Qed.

Lemma dedupe_app a b :
  Js.dedupe (a ++ b)
  = fold_left (fun seen x => if existsb (fun y => Js.sameValueZero y x) seen
                             then seen else seen ++ [x]) b (Js.dedupe a).
Proof. unfold Js.dedupe. now rewrite fold_left_app. Qed.

Lemma dedupe_dedupe_app a b : Js.dedupe (Js.dedupe a ++ b) = Js.dedupe (a ++ b).
Proof. now rewrite !dedupe_app, dedupe_idem. Qed.

Lemma firstTruthy_cons own branch branches :
  Doc.firstTruthy own (branch :: branches)
  = Doc.firstTruthy
      (if negb (Js.truthy own) && Js.truthy branch then branch else own) branches.
Proof.
  unfold Doc.firstTruthy. simpl.
  destruct (Js.truthy own) eqn:Hown; cbn [negb andb]; [now rewrite Hown|].
  destruct (Js.truthy branch) eqn:Hb; [now rewrite Hb | now rewrite Hown].
Qed.

Lemma mergeBranch_fields acc fuel sub spec e acc' :
  getEffectiveSchema fuel sub spec = Ok e ->
  mergeBranch acc e = Ok acc' ->
  Effective.type acc'
  = (if negb (Js.truthy (Effective.type acc)) && Js.truthy (Js.prop "type" e)
     then Js.prop "type" e else Effective.type acc)
  /\ Effective.enum acc'
     = (if negb (Js.truthy (Effective.enum acc)) && Js.truthy (Js.prop "enum" e)
        then Js.prop "enum" e else Effective.enum acc)
  /\ Effective.items acc'
     = (if negb (Js.truthy (Effective.items acc)) && Js.truthy (Js.prop "items" e)
        then Js.prop "items" e else Effective.items acc)
  /\ Effective.required acc'
     = (if Js.truthy sub
        then Js.dedupe (Effective.required acc ++ Doc.branchRequired e)
        else Effective.required acc).
Proof.
  intros He H. apply getEffectiveSchema_shape in He. unfold mergeBranch in H.
  destruct (Js.truthy sub).
  - destruct He as (a & -> & _). cbn in H. inversion H. cbn. repeat split.
  - subst e. cbn in H. inversion H. cbn. repeat split.
Qed.

Lemma branchRequired_absent fuel spec subs effs :
  Forall2 (fun sub e => getEffectiveSchema fuel sub spec = Ok e) subs effs ->
  existsb Js.truthy subs = false ->
  concat (map Doc.branchRequired effs) = [].
Proof.
  induction 1 as [|sub e subs effs Hsub _ IH]; [reflexivity|]. simpl.
  intros H. apply orb_false_iff in H. destruct H as [Hfalsy Hrest].
  apply getEffectiveSchema_shape in Hsub. rewrite Hfalsy in Hsub. subst e.
  simpl. now apply IH.
Qed.

Lemma foldM_merge_fields fuel spec subs effs :
  Forall2 (fun sub e => getEffectiveSchema fuel sub spec = Ok e) subs effs ->
  forall acc acc',
    foldM (fun acc sub =>
             subEffective <- getEffectiveSchema fuel sub spec ;;
             mergeBranch acc subEffective) subs acc = Ok acc' ->
    Effective.type acc' = Doc.firstTruthy (Effective.type acc) (map (Js.prop "type") effs)
    /\ Effective.enum acc' = Doc.firstTruthy (Effective.enum acc) (map (Js.prop "enum") effs)
    /\ Effective.items acc' = Doc.firstTruthy (Effective.items acc) (map (Js.prop "items") effs)
    /\ Effective.required acc'
       = (if existsb Js.truthy subs
          then Js.dedupe (Effective.required acc ++ concat (map Doc.branchRequired effs))
          else Effective.required acc).
Proof.
  induction 1 as [|sub e subs effs Hsub HF IH]; intros acc acc' H; simpl in H.
  - inversion H; subst acc'. simpl. unfold Doc.firstTruthy. simpl.
    repeat split; now destruct (Js.truthy _).
  - rewrite Hsub in H. cbn [bind] in H. inv_bind H. rename a into acc1.
    destruct (mergeBranch_fields _ _ _ _ Hsub Ha) as (Ht & He & Hi & Hr).
    destruct (IH _ _ H) as (Ht' & He' & Hi' & Hr').
    cbn [map]. rewrite !firstTruthy_cons, <- Ht, <- He, <- Hi.
    split; [assumption|]. split; [assumption|]. split; [assumption|].
    rewrite Hr'. cbn [existsb concat]. rewrite Hr.
    destruct (Js.truthy sub) eqn:Htruthy; cbn [orb].
    + destruct (existsb Js.truthy subs) eqn:Hany.
      * now rewrite dedupe_dedupe_app, <- app_assoc.
      * rewrite (@branchRequired_absent fuel spec subs effs HF Hany).
        now rewrite app_nil_r.
    + apply getEffectiveSchema_shape in Hsub. rewrite Htruthy in Hsub. subst e.
      reflexivity.
Qed.

Lemma getEffectiveSchema_allOf_fields fuel schema spec resolved subs effs required :
  resolveRef fuel schema spec = Ok resolved ->
  Js.prop "allOf" resolved = VArr subs ->
  Forall2 (fun sub e => getEffectiveSchema fuel sub spec = Ok e) subs effs ->
  (if Js.truthy (Js.prop "required" resolved)
   then Js.iterate (Js.prop "required" resolved) else Ok []) = Ok required ->
  exists acc,
    getEffectiveSchema (S fuel) schema spec = Ok (Effective.toValue acc)
    /\ Effective.type acc
       = Doc.firstTruthy (Js.prop "type" resolved) (map (Js.prop "type") effs)
    /\ Effective.enum acc
       = Doc.firstTruthy (Js.prop "enum" resolved) (map (Js.prop "enum") effs)
    /\ Effective.items acc
       = Doc.firstTruthy (Js.prop "items" resolved) (map (Js.prop "items") effs)
    /\ Effective.required acc
       = (if existsb Js.truthy subs
          then Js.dedupe (required ++ concat (map Doc.branchRequired effs))
          else required).
Proof.
  intros Hres HallOf Heffs Hreq.
  assert (Htruthy : Js.truthy schema = true).
  { destruct (Js.truthy schema) eqn:T; [reflexivity|].
    rewrite (@resolveRef_falsy _ _ _ _ T Hres) in HallOf.
    destruct schema; try discriminate T; try discriminate HallOf. }
  rewrite getEffectiveSchema_unfold, Htruthy, Hres. cbn [negb bind].
  assert (Hget : Js.get "properties" resolved = Ok (Js.prop "properties" resolved)).
  { unfold Js.get. destruct resolved; try reflexivity; discriminate HallOf. }
  rewrite Hget, Hreq, HallOf. cbn [bind].
  destruct (@foldM_merge_returns fuel spec subs effs Heffs
              (Effective.make
                 (Js.spread [] (Js.or (Js.prop "properties" resolved) (VObj [])))
                 (Js.prop "type" resolved) (Js.prop "enum" resolved)
                 (Js.prop "items" resolved) required)) as [acc' Hfold].
  rewrite Hfold. cbn [bind]. exists acc'. split; [reflexivity|].
  exact (@foldM_merge_fields fuel spec subs effs Heffs _ _ Hfold).
Qed.

(** X13.  In an all-of merge the node's [type], [enum] and [items] go the
    other way round from its properties: the node's own value is kept when
    it is truthy, else the first branch with a truthy value gives it, and a
    later branch never overrides an earlier one.  The flattened view is
    produced as soon as the branches are flattened and the node's required
    list can be copied. *)
Theorem getEffectiveSchema_allOf_first_wins
  (fuel : nat) (schema spec resolved : value) (subs effs required : list value) :
  resolveRef fuel schema spec = Ok resolved ->
  Js.prop "allOf" resolved = VArr subs ->
  Forall2 (fun sub e => getEffectiveSchema fuel sub spec = Ok e) subs effs ->
  (if Js.truthy (Js.prop "required" resolved)
   then Js.iterate (Js.prop "required" resolved) else Ok []) = Ok required ->
  exists eff,
    getEffectiveSchema (S fuel) schema spec = Ok eff
    /\ Js.prop "type" eff
       = Doc.firstTruthy (Js.prop "type" resolved) (map (Js.prop "type") effs)
    /\ Js.prop "enum" eff
       = Doc.firstTruthy (Js.prop "enum" resolved) (map (Js.prop "enum") effs)
    /\ Js.prop "items" eff
       = Doc.firstTruthy (Js.prop "items" resolved) (map (Js.prop "items") effs).
Proof.
  intros Hres HallOf Heffs Hreq.
  destruct (@getEffectiveSchema_allOf_fields _ _ _ _ _ _ _ Hres HallOf Heffs Hreq)
    as (acc & Heff & Ht & He & Hi & _).
  exists (Effective.toValue acc). split; [exact Heff|].
  split; [exact Ht|]. split; [exact He | exact Hi].
Qed.

Lemma getEffectiveSchema_allOf_first_wins_witness :
  let schema :=
    VObj [("allOf", VArr [VObj [("properties", VObj [])];
                          VObj [("type", VStr "object")];
                          VObj [("type", VStr "string")]])] in
  exists eff,
    getEffectiveSchema 3 schema VUndef = Ok eff
    /\ Js.prop "type" eff = VStr "object".
Proof.
  intros schema.
  destruct (@getEffectiveSchema_allOf_first_wins 2 schema VUndef schema
              [VObj [("properties", VObj [])]; VObj [("type", VStr "object")];
               VObj [("type", VStr "string")]]
              [Effective.toValue (Effective.make [] VUndef VUndef VUndef []);
               Effective.toValue (Effective.make [] (VStr "object") VUndef VUndef []);
               Effective.toValue (Effective.make [] (VStr "string") VUndef VUndef [])]
              [] eq_refl eq_refl)
    as (eff & Heff & Ht & _).
  - repeat constructor.
  - reflexivity.
  - exists eff. split; [exact Heff | exact Ht].
Defined.

(** X14.  In an all-of merge over at least one present branch the required
    list is the node's own list followed by the lists of the branches, each
    name kept at its first occurrence only; when no branch is present the
    node's own list is kept as it is. *)
Theorem getEffectiveSchema_allOf_required
  (fuel : nat) (schema spec resolved : value) (subs effs required : list value) :
  resolveRef fuel schema spec = Ok resolved ->
  Js.prop "allOf" resolved = VArr subs ->
  Forall2 (fun sub e => getEffectiveSchema fuel sub spec = Ok e) subs effs ->
  (if Js.truthy (Js.prop "required" resolved)
   then Js.iterate (Js.prop "required" resolved) else Ok []) = Ok required ->
  exists eff merged,
    getEffectiveSchema (S fuel) schema spec = Ok eff
    /\ Js.prop "required" eff = VArr merged
    /\ (existsb Js.truthy subs = true ->
        merged = Js.dedupe (required ++ concat (map Doc.branchRequired effs))
        /\ Doc.distinct merged)
    /\ (existsb Js.truthy subs = false -> merged = required).
Proof.
  intros Hres HallOf Heffs Hreq.
  destruct (@getEffectiveSchema_allOf_fields _ _ _ _ _ _ _ Hres HallOf Heffs Hreq)
    as (acc & Heff & _ & _ & _ & Hr).
  exists (Effective.toValue acc), (Effective.required acc).
  split; [exact Heff|]. split; [reflexivity|]. rewrite Hr. split.
  - intros ->. split; [reflexivity | apply dedupe_distinct].
  - intros ->. reflexivity.
Qed.

Lemma getEffectiveSchema_allOf_required_witness :
  let schema :=
    VObj [("required", VArr [VStr "id"; VStr "id"]);
          ("allOf", VArr [VObj [("required", VArr [VStr "name"; VStr "id"])]])] in
  exists eff,
    getEffectiveSchema 3 schema VUndef = Ok eff
    /\ Js.prop "required" eff = VArr [VStr "id"; VStr "name"].
Proof.
  intros schema.
  destruct (@getEffectiveSchema_allOf_required 2 schema VUndef schema
              [VObj [("required", VArr [VStr "name"; VStr "id"])]]
              [Effective.toValue
                 (Effective.make [] VUndef VUndef VUndef [VStr "name"; VStr "id"])]
              [VStr "id"; VStr "id"] eq_refl eq_refl)
    as (eff & merged & Heff & Hr & Hsome & _).
  - repeat constructor.
  - reflexivity.
  - exists eff. split; [exact Heff|]. rewrite Hr.
    destruct (Hsome eq_refl) as [-> _]. reflexivity.
Defined.

(** X15.  A present schema node with no reference of its own whose
    [required] is a truthy value other than an array or a string, such as
    the boolean [true] of older schema drafts, cannot be flattened: the
    flattener throws a TypeError, and the simplifier returns no tree for
    it. *)
Theorem getEffectiveSchema_required_not_iterable (schema : value) :
  Js.truthy schema = true ->
  Js.isString (Js.prop "$ref" schema) = false ->
  Js.truthy (Js.prop "required" schema) = true ->
  (forall names, Js.prop "required" schema <> VArr names) ->
  (forall s, Js.prop "required" schema <> VStr s) ->
  (forall fuel spec, getEffectiveSchema (S (S fuel)) schema spec = Err TypeError)
  /\ (forall fuel originalSchema schemaName originalSpec out,
        simplifySchema fuel schema originalSchema schemaName originalSpec <> Ok out).
Proof.
  intros Htruthy Href Hreq Harr Hstr.
  assert (Hflat : forall fuel spec,
             getEffectiveSchema (S (S fuel)) schema spec = Err TypeError).
  { intros fuel spec.
    rewrite getEffectiveSchema_unfold, Htruthy, (@resolveRef_no_ref fuel schema spec Href).
    cbn [negb bind].
    assert (Hget : Js.get "properties" schema = Ok (Js.prop "properties" schema)).
    { unfold Js.get. destruct schema; try reflexivity; discriminate Htruthy. }
    rewrite Hget, Hreq. cbn [bind].
    destruct (Js.prop "required" schema) as [| |b|n|s|names|o]; try reflexivity.
    - now elim (Hstr s).
    - now elim (Harr names). }
  split; [exact Hflat|].
  intros fuel originalSchema schemaName originalSpec out H.
  destruct fuel as [|fuel]; [discriminate|].
  rewrite simplifySchema_unfold, Htruthy in H. cbn [negb] in H.
  inv_bind H. inv_bind H.
  destruct fuel as [|[|fuel]]; [discriminate Ha0 | |].
  - rewrite getEffectiveSchema_unfold, Htruthy in Ha0. discriminate Ha0.
  - rewrite Hflat in Ha0. discriminate Ha0.
Qed.

Lemma getEffectiveSchema_required_not_iterable_witness :
  let schema := VObj [("type", VStr "string"); ("required", VBool true)] in
  getEffectiveSchema 2 schema VUndef = Err TypeError
  /\ simplifySchema 5 schema VUndef None VUndef = Err TypeError.
Proof.
  intros schema.
  destruct (@getEffectiveSchema_required_not_iterable schema) as [Hflat Hsimple];
    try reflexivity; try discriminate.
  split; [apply Hflat|].
  destruct (simplifySchema 5 schema VUndef None VUndef) as [out|e] eqn:E;
    [|vm_compute in E; inversion E; reflexivity].
  exfalso. exact (Hsimple 5%nat VUndef None VUndef out E).
Defined.

(** ** The reference resolver: alias cycles *)

Lemma resolveRef_follow fuel schema spec ref :
  Js.prop "$ref" schema = VStr ref ->
  Str.startsWith "#/" ref = true ->
  Js.truthy spec = true ->
  ~ Spec.walkBlocked (tl (Str.split "/" ref)) spec ->
  Js.truthy (Spec.lookupPath (tl (Str.split "/" ref)) spec) = true ->
  resolveRef (S fuel) schema spec
  = resolveRef fuel (Spec.lookupPath (tl (Str.split "/" ref)) spec) spec.
Proof.
  intros Href Hmark Hspec Hfree Htruthy.
  destruct (@prop_defined_object "$ref" schema eq_refl eq_refl) as [o ->];
    [rewrite Href; discriminate|].
  rewrite resolveRef_unfold, Href. cbn [Js.truthy Js.isString negb orb].
  rewrite Hspec, Hmark. cbn [negb orb].
  destruct (walk (tl (Str.split "/" ref)) spec) as [current|] eqn:W.
  - apply walk_Some in W. subst current. now rewrite Htruthy.
  - exfalso. apply Hfree. now apply walk_None.
Qed.

(** X16.  The resolver follows aliases without keeping track of them: on a
    set of nodes each of which refers, through a pointer that walks through
    the document, to a node of the set again, it recurses until the stack
    is exhausted, whatever the depth available. *)
Theorem resolveRef_alias_cycle (spec : value) (looping : value -> Prop) :
  Js.truthy spec = true ->
  (forall schema,
     looping schema ->
     exists ref,
       Js.prop "$ref" schema = VStr ref
       /\ Str.startsWith "#/" ref = true
       /\ ~ Spec.walkBlocked (tl (Str.split "/" ref)) spec
       /\ Js.truthy (Spec.lookupPath (tl (Str.split "/" ref)) spec) = true
       /\ looping (Spec.lookupPath (tl (Str.split "/" ref)) spec)) ->
  forall fuel schema, looping schema -> resolveRef fuel schema spec = Err StackOverflow.
Proof.
  intros Hspec Hloop fuel. induction fuel as [|fuel IH]; intros schema Hs; [reflexivity|].
  destruct (Hloop schema Hs) as (ref & Href & Hmark & Hfree & Htruthy & Hnext).
  rewrite (@resolveRef_follow fuel schema spec ref Href Hmark Hspec Hfree Htruthy).
  now apply IH.
Qed.

Lemma resolveRef_alias_cycle_witness :
  let ping := VObj [("$ref", VStr "#/definitions/Pong")] in
  let pong := VObj [("$ref", VStr "#/definitions/Ping")] in
  let spec := VObj [("definitions", VObj [("Ping", ping); ("Pong", pong)])] in
  resolveRef 1000 ping spec = Err StackOverflow.
Proof.
  intros ping pong spec.
  apply (@resolveRef_alias_cycle spec (fun schema => schema = ping \/ schema = pong) eq_refl);
    [|now left].
  intros schema [->| ->].
  - exists "#/definitions/Pong"%string.
    split; [reflexivity|]. split; [reflexivity|]. split; [|split; [reflexivity | now right]].
    intros (pre & part & post & E & H).
    destruct pre as [|p1 [|p2 [|p3 pre]]]; simpl in E; inversion E; subst;
      discriminate H.
  - exists "#/definitions/Ping"%string.
    split; [reflexivity|]. split; [reflexivity|]. split; [|split; [reflexivity | now left]].
    intros (pre & part & post & E & H).
    destruct pre as [|p1 [|p2 [|p3 pre]]]; simpl in E; inversion E; subst;
      discriminate H.
Defined.

(** ** The schema simplifier: the property nodes *)

Lemma foldM_simplifyProperty_members fuel effectiveOriginal originalSpec entries :
  forall acc properties,
    foldM (simplifyProperty
             (fun prop originalProp propName =>
                simplifySchema fuel prop originalProp propName originalSpec)
             fuel effectiveOriginal) entries acc = Ok properties ->
    Spec.canonical (acc ++ entries) ->
    exists members,
      properties = acc ++ members
      /\ Forall2 (Doc.simplifiedMember fuel effectiveOriginal originalSpec) entries members.
Proof.
  induction entries as [|[key prop] entries IH]; intros acc properties H Hc; simpl in H.
  - inversion H; subst. exists []. rewrite app_nil_r. split; [reflexivity | constructor].
  - inv_bind H. unfold simplifyProperty in Ha. cbn [fst snd] in Ha.
    inv_bind Ha. inv_bind Ha. inversion Ha; subst a. clear Ha.
    assert (Hpre : Spec.canonical (acc ++ [(key, prop)])).
    { unfold Spec.canonical in *. rewrite map_app in *. simpl in *.
      apply (@StronglySorted_app_l _ _ _ (map fst entries)). now rewrite <- app_assoc. }
    rewrite (@set_snoc key a1 prop acc Hpre) in H.
    destruct (IH _ _ H) as (members & -> & HF).
    { apply (@canonical_same_keys (acc ++ (key, prop) :: entries)); [|exact Hc].
      rewrite !map_app. simpl. rewrite <- app_assoc. reflexivity. }
    exists ((key, a1) :: members). split; [now rewrite <- app_assoc|].
    constructor; [|exact HF].
    split; [reflexivity|]. exists a0. split; assumption.
Qed.

(** X17.  The simplified form of a present schema has one property node
    for each property of the flattened schema, under the same key and in
    the same order: the simplified form of that property's schema, taken
    with its counterpart in the flattened original.  No property is
    dropped, added or moved.  (The key [__proto__], which an assignment
    treats apart, is left out of the statement.) *)
Theorem simplifySchema_property_nodes
  (fuel : nat) (schema originalSchema : value) (schemaName : option string)
  (originalSpec effective out : value) :
  Js.truthy schema = true ->
  getEffectiveSchema fuel schema originalSpec = Ok effective ->
  ~ In "__proto__"%string (Js.keys (Js.prop "properties" effective)) ->
  simplifySchema (S fuel) schema originalSchema schemaName originalSpec = Ok out ->
  exists effectiveOriginal members,
    (if Js.truthy originalSchema
     then getEffectiveSchema fuel originalSchema originalSpec
     else Ok VUndef) = Ok effectiveOriginal
    /\ Js.prop "properties" out = VObj members
    /\ Forall2 (Doc.simplifiedMember fuel effectiveOriginal originalSpec)
               (Js.entries (Js.prop "properties" effective)) members
    /\ Js.keys (Js.prop "properties" out) = Js.keys (Js.prop "properties" effective).
Proof.
  intros Hschema Heff _ H. rewrite simplifySchema_unfold, Hschema in H. cbn [negb] in H.
  inv_bind H. rename a into resolvedName.
  inv_bind H. rewrite Heff in Ha0. inversion Ha0; subst a. clear Ha0.
  inv_bind H. rename a into effectiveOriginal.
  exists effectiveOriginal.
  pose proof (getEffectiveSchema_shape _ _ _ Heff) as Hshape. rewrite Hschema in Hshape.
  destruct Hshape as (acc & -> & Hcanon).
  change (Js.prop "properties" (Effective.toValue acc)) with (VObj (Effective.properties acc))
    in *.
  cbn [Js.truthy Js.entries] in *.
  inv_bind H. rename a into simplified.
  inv_bind Ha1. rename a into properties. inversion Ha1; subst simplified. clear Ha1.
  rewrite set_properties_literal in H.
  apply foldM_simplifyProperty_members in Ha2; [|exact Hcanon].
  destruct Ha2 as (members & -> & HF). rewrite app_nil_l in H.
  exists members. split; [exact Ha0|].
  assert (Hkeys : map fst members = map fst (Effective.properties acc)).
  { clear - HF. induction HF as [|entry member entries members [Hk _] _ IH];
      [reflexivity|]. simpl. now rewrite Hk, IH. }
  inv_bind H.
  destruct (a && Js.truthy (Js.or (Js.prop "items" (Effective.toValue acc))
                                  (Js.prop "items" schema))).
  - inv_bind H. inv_bind H. inversion H; subst out. rewrite set_items_literal.
    split; [reflexivity|]. split; [exact HF | exact Hkeys].
  - inversion H; subst out. split; [reflexivity|]. split; [exact HF | exact Hkeys].
Qed.

Lemma simplifySchema_property_nodes_witness :
  let schema :=
    VObj [("properties", VObj [("name", VObj [("type", VStr "string")]);
                               ("0", VObj [("type", VStr "integer")])])] in
  exists out,
    simplifySchema 4 schema VUndef None VUndef = Ok out
    /\ Js.keys (Js.prop "properties" out) = ["0"%string; "name"%string].
Proof.
  intros schema.
  destruct (simplifySchema 4 schema VUndef None VUndef) as [out|e] eqn:E;
    [|vm_compute in E; discriminate E].
  destruct (getEffectiveSchema 3 schema VUndef) as [effective|e] eqn:Eeff;
    [|vm_compute in Eeff; discriminate Eeff].
  exists out. split; [reflexivity|].
  assert (Hkeys : Js.keys (Js.prop "properties" effective) = ["0"%string; "name"%string]).
  { vm_compute in Eeff. inversion Eeff. reflexivity. }
  destruct (@simplifySchema_property_nodes 3 schema VUndef None VUndef effective out
              eq_refl Eeff) as (effectiveOriginal & members & _ & _ & _ & Hout).
  - rewrite Hkeys. intros [H|[H|[]]]; discriminate H.
  - exact E.
  - now rewrite Hout.
Defined.

(** ** The schema simplifier: populated nodes *)

Lemma lookup_of_In k v (o : object) :
  NoDup (map fst o) -> In (k, v) o -> Js.lookup k o = Some v.
Proof.
  induction o as [|[k' v'] o IH]; intros Hnd Hin; [contradiction|].
  inversion Hnd as [|? ? Hnotin Hnd']; subst. simpl.
  destruct Hin as [E|Hin].
  - inversion E; subst. now rewrite String.eqb_refl.
  - destruct (String.eqb_spec k' k) as [->|Hne]; [|now apply IH].
    elim Hnotin. apply (in_map fst) in Hin. exact Hin.
Qed.

Lemma Forall2_In_l {A B} (R : A -> B -> Prop) l l' x :
  Forall2 R l l' -> In x l -> exists y, In y l' /\ R x y.
Proof.
  induction 1 as [|a b l l' Hab _ IH]; intros Hin; [contradiction|].
  destruct Hin as [->|Hin].
  - exists b. split; [now left | exact Hab].
  - destruct (IH Hin) as (y & Hy & Hxy). exists y. split; [now right | exact Hxy].
Qed.

Lemma simplifySchema_populatedFrom fuel :
  forall schema originalSchema schemaName originalSpec out,
    simplifySchema fuel schema originalSchema schemaName originalSpec = Ok out ->
    Doc.populatedFrom fuel originalSpec schema out.
Proof.
  induction fuel as [|fuel IH]; intros schema originalSchema schemaName originalSpec out H;
    [discriminate|].
  rewrite simplifySchema_unfold in H. cbn [Doc.populatedFrom].
  destruct (Js.truthy schema) eqn:Hschema; cbn [negb] in H; [|now inversion H].
  inv_bind H. rename a into resolvedName.
  inv_bind H. rename a into effective.
  inv_bind H. rename a into effectiveOriginal.
  pose proof (getEffectiveSchema_shape _ _ _ Ha0) as Hshape. rewrite Hschema in Hshape.
  destruct Hshape as (acc & -> & Hcanon).
  change (Js.prop "properties" (Effective.toValue acc)) with (VObj (Effective.properties acc))
    in *.
  change (Js.prop "required" (Effective.toValue acc)) with (VArr (Effective.required acc))
    in *.
  cbn [Js.truthy Js.entries] in *.
  inv_bind H. rename a into simplified.
  inv_bind Ha2. rename a into properties. inversion Ha2; subst simplified. clear Ha2.
  rewrite set_properties_literal in H.
  apply foldM_simplifyProperty_members in Ha3; [|exact Hcanon].
  destruct Ha3 as (members & -> & HF). rewrite app_nil_l in H.
  assert (Hkeys : map fst members = map fst (Effective.properties acc)).
  { clear - HF. induction HF as [|entry member entries members [Hk _] _ IHF];
      [reflexivity|]. simpl. now rewrite Hk, IHF. }
  assert (Hmembers : forall key prop,
             key <> "__proto__"%string ->
             In (key, prop) (Effective.properties acc) ->
             exists child,
               Js.lookup key members = Some child
               /\ Doc.populatedFrom fuel originalSpec prop child).
  { intros key prop _ Hin.
    destruct (@Forall2_In_l _ _ _ _ _ _ HF Hin)
      as ([key' child] & Hchild & Hk & name & _ & Hsimple).
    cbn [fst snd] in *. subst key'. exists child. split.
    - apply lookup_of_In; [|exact Hchild]. rewrite Hkeys. now apply canonical_NoDup.
    - eapply IH. exact Hsimple. }
  exists (Effective.toValue acc), members, (Effective.required acc).
  split; [exact Ha0|].
  inv_bind H.
  destruct (a && Js.truthy (Js.or (Js.prop "items" (Effective.toValue acc))
                                  (Js.prop "items" schema))).
  - inv_bind H. inv_bind H. inversion H; subst out. rewrite set_items_literal.
    split; [reflexivity|]. split; [reflexivity|]. split; [exact Hmembers|].
    intros items E. cbn in E. inversion E; subst items. eapply IH. exact Ha4.
  - inversion H; subst out.
    split; [reflexivity|]. split; [reflexivity|]. split; [exact Hmembers|].
    intros items E. discriminate E.
Qed.

(** C10.  The node simplified from a present schema carries a properties map
    and a required array, both possibly empty, and so does, in turn, its
    items node and the node of every property of the flattened schema whose
    own schema is present: the properties map holds, under each key of the
    flattened schema, the node simplified from that property's schema, which
    is populated in the same way when that schema is present and is the node
    of type "unknown" only when it is absent.  The node simplified from an
    absent schema has type "unknown" and neither field.  (The key
    [__proto__], which an assignment treats apart, is left out.) *)
Theorem simplifySchema_populated
  (fuel : nat) (schema originalSchema : value) (schemaName : option string)
  (originalSpec out : value) :
  simplifySchema fuel schema originalSchema schemaName originalSpec = Ok out ->
  Doc.populatedFrom fuel originalSpec schema out
  /\ (Js.truthy schema = true -> Spec.populated out)
  /\ (Js.truthy schema = false ->
      out = VObj [("type", VStr "unknown")]
      /\ Js.prop "properties" out = VUndef
      /\ Js.prop "required" out = VUndef).
Proof.
  intros H. split; [now apply simplifySchema_populatedFrom in H|].
  apply simplifySchema_returns in H. unfold Spec.returnsSimplified in H.
  split; intros Htruthy; rewrite Htruthy in H.
  - now apply present_populated.
  - subst out. repeat split.
Qed.

Lemma simplifySchema_populated_witness :
  let name := VObj [("type", VStr "string")] in
  let schema :=
    VObj [("type", VStr "array");
          ("items", VObj [("properties", VObj [("name", name); ("owner", VNull)])])] in
  exists out items members nameNode properties required,
    simplifySchema 5 schema VUndef None VUndef = Ok out
    /\ Js.lookup "items" (Js.entries out) = Some items
    /\ Js.prop "properties" items = VObj members
    /\ Js.lookup "name" members = Some nameNode
    /\ Js.prop "properties" nameNode = VObj properties
    /\ Js.prop "required" nameNode = VArr required
    /\ Js.lookup "owner" members = Some unknownSchema.
Proof.
  intros name schema.
  destruct (simplifySchema 5 schema VUndef None VUndef) as [out|e] eqn:E;
    [|vm_compute in E; discriminate E].
  destruct (@simplifySchema_populated 5 schema VUndef None VUndef out E) as [Hfrom _].
  cbn [Doc.populatedFrom Js.truthy schema] in Hfrom.
  destruct Hfrom as (effective & properties & required & Heff & _ & _ & _ & Hitems).
  vm_compute in Heff. inversion Heff; subst effective. clear Heff.
  assert (Hout : exists items, Js.lookup "items" (Js.entries out) = Some items).
  { vm_compute in E. inversion E. eexists. reflexivity. }
  destruct Hout as [items Hlookup].
  specialize (Hitems items Hlookup).
  cbn in Hitems.
  destruct Hitems as (effective & members & required' & Heff & Hprops & _ & Hmembers & _).
  vm_compute in Heff. inversion Heff; subst effective. clear Heff.
  destruct (Hmembers "name"%string name) as (nameNode & Hname & Hfrom);
    [discriminate | now left |].
  destruct (Hmembers "owner"%string VNull) as (ownerNode & Howner & Hunknown);
    [discriminate | right; now left |].
  cbn in Hfrom. destruct Hfrom as (_ & nameProps & nameReq & _ & Hnp & Hnr & _).
  cbn in Hunknown. subst ownerNode.
  exists out, items, members, nameNode, nameProps, nameReq.
  repeat (split; [assumption || reflexivity|]). exact Howner.
Defined.

(** ** The rule generator: nested schema names *)

Lemma sameValueZero_eq a b : Js.sameValueZero a b = true -> a = b.
Proof.
  destruct a, b; simpl; try discriminate; try reflexivity.
  - intros H. apply Bool.eqb_prop in H. now subst.
  - intros H. apply Z.eqb_eq in H. now subst.
  - intros H. apply String.eqb_eq in H. now subst.
Qed.

Lemma sameValueZero_ofName n root :
  Js.sameValueZero n (Js.ofName root) = false <-> n <> Js.ofName root.
Proof.
  split.
  - intros H ->. destruct root; simpl in H; [|discriminate].
    now rewrite String.eqb_refl in H.
  - intros Hne. destruct (Js.sameValueZero n (Js.ofName root)) eqn:E; [|reflexivity].
    apply sameValueZero_eq in E. contradiction.
Qed.

Lemma setAdd_In n x names : In n (setAdd x names) <-> In n names \/ n = x.
Proof.
  unfold setAdd. destruct (existsb (fun y => Js.sameValueZero y x) names) eqn:E.
  - split; [now left|]. intros [H| ->]; [exact H|].
    apply existsb_exists in E. destruct E as (y & Hy & Hsame).
    apply sameValueZero_eq in Hsame. now subst.
  - rewrite in_app_iff. simpl. split.
    + intros [H|[->|[]]]; [now left | now right].
    + intros [H| ->]; [now left | right; now left].
Qed.

Lemma setAdd_distinct x names : Doc.distinct names -> Doc.distinct (setAdd x names).
Proof.
  intros Hd. unfold setAdd.
  destruct (existsb (fun y => Js.sameValueZero y x) names) eqn:E; [exact Hd|].
  now constructor.
Qed.

Lemma traverse_unfold fuel root s names :
  traverse (S fuel) root s names =
  schemaName <- Js.get "schemaName" s ;;
  names <-
    (if Js.truthy (Js.prop "properties" s)
     then foldM (fun names prop => traverse fuel root prop names)
                (map snd (Js.entries (Js.prop "properties" s)))
                (if Js.truthy schemaName && negb (Js.sameValueZero schemaName root)
                 then setAdd schemaName names else names)
     else Ok (if Js.truthy schemaName && negb (Js.sameValueZero schemaName root)
              then setAdd schemaName names else names)) ;;
  if Js.truthy (Js.prop "items" s)
  then traverse fuel root (Js.prop "items" s) names
  else Ok names.
Proof. reflexivity. Qed.

Lemma foldM_traverse_spec fuel root children :
  (forall s names names',
     traverse fuel root s names = Ok names' ->
     (Doc.distinct names -> Doc.distinct names')
     /\ forall n, In n names' <-> In n names \/ Doc.collected root s n) ->
  forall names names',
    foldM (fun names prop => traverse fuel root prop names) children names = Ok names' ->
    (Doc.distinct names -> Doc.distinct names')
    /\ forall n, In n names' <->
                 In n names \/ exists child, In child children /\ Doc.collected root child n.
Proof.
  intros IH. induction children as [|child children IHc]; intros names names' H; simpl in H.
  - inversion H; subst. split; [auto|]. intros n. split; [now left|].
    intros [Hn|(child & [] & _)]. exact Hn.
  - inv_bind H. destruct (IH _ _ _ Ha) as [Hd Hin]. destruct (IHc _ _ H) as [Hd' Hin'].
    split; [auto|]. intros n. rewrite Hin', Hin. split.
    + intros [[Hn|Hc]|(c & Hc & Hn)].
      * now left.
      * right. exists child. split; [now left | exact Hc].
      * right. exists c. split; [now right | exact Hn].
    + intros [Hn|(c & [<-|Hc] & Hn)].
      * left. now left.
      * left. now right.
      * right. now exists c.
Qed.

Lemma traverse_spec fuel root :
  forall s names names',
    traverse fuel root s names = Ok names' ->
    (Doc.distinct names -> Doc.distinct names')
    /\ forall n, In n names' <-> In n names \/ Doc.collected root s n.
Proof.
  induction fuel as [|fuel IH]; intros s names names' H; [discriminate|].
  rewrite traverse_unfold in H. inv_bind H. apply get_Ok in Ha. destruct Ha as [-> _].
  inv_bind H. rename a into names1.
  set (names0 := if Js.truthy (Js.prop "schemaName" s)
                    && negb (Js.sameValueZero (Js.prop "schemaName" s) root)
                 then setAdd (Js.prop "schemaName" s) names else names) in Ha.
  assert (H0 : (Doc.distinct names -> Doc.distinct names0)
               /\ forall n, In n names0 <->
                            In n names \/ (Js.prop "schemaName" s = n
                                          /\ Js.truthy n = true
                                          /\ Js.sameValueZero n root = false)).
  { unfold names0.
    destruct (Js.truthy (Js.prop "schemaName" s)
              && negb (Js.sameValueZero (Js.prop "schemaName" s) root)) eqn:E.
    - apply andb_true_iff in E. destruct E as [Ht Hr]. apply negb_true_iff in Hr.
      split; [apply setAdd_distinct|]. intros n. rewrite setAdd_In. split.
      + intros [Hn| ->]; [now left | right; auto].
      + intros [Hn|(<- & _)]; [now left | now right].
    - split; [auto|]. intros n. split; [now left|].
      intros [Hn|(<- & Ht & Hr)]; [exact Hn|]. rewrite Ht, Hr in E. discriminate. }
  destruct H0 as [Hd0 Hin0].
  assert (H1 : (Doc.distinct names0 -> Doc.distinct names1)
               /\ forall n, In n names1 <->
                            In n names0
                            \/ (Js.truthy (Js.prop "properties" s) = true
                                /\ exists child,
                                     In child (map snd (Js.entries (Js.prop "properties" s)))
                                     /\ Doc.collected root child n)).
  { destruct (Js.truthy (Js.prop "properties" s)) eqn:Hp.
    - destruct (@foldM_traverse_spec fuel root _ IH _ _ Ha) as [Hd Hin].
      split; [exact Hd|]. intros n. rewrite Hin. split.
      + intros [Hn|Hc]; [now left | right; auto].
      + intros [Hn|[_ Hc]]; [now left | now right].
    - inversion Ha; subst names1. split; [auto|]. intros n. split; [now left|].
      intros [Hn|[Habs _]]; [exact Hn | discriminate]. }
  destruct H1 as [Hd1 Hin1].
  assert (H2 : (Doc.distinct names1 -> Doc.distinct names')
               /\ forall n, In n names' <->
                            In n names1
                            \/ (Js.truthy (Js.prop "items" s) = true
                                /\ Doc.collected root (Js.prop "items" s) n)).
  { destruct (Js.truthy (Js.prop "items" s)) eqn:Hi.
    - destruct (IH _ _ _ H) as [Hd Hin]. split; [exact Hd|].
      intros n. rewrite Hin. split.
      + intros [Hn|Hc]; [now left | right; auto].
      + intros [Hn|[_ Hc]]; [now left | now right].
    - inversion H; subst names'. split; [auto|]. intros n. split; [now left|].
      intros [Hn|[Habs _]]; [exact Hn | discriminate]. }
  destruct H2 as [Hd2 Hin2].
  split; [auto|]. intros n. rewrite Hin2, Hin1, Hin0. unfold Doc.collected. split.
  - intros [[[Hn|(Hname & Ht & Hr)]|(Hp & child & Hc & node & Hnode & Hrest)]
           |(Hi & node & Hnode & Hrest)].
    + now left.
    + right. exists s. split; [constructor | auto].
    + right. exists node. split; [|exact Hrest].
      now apply Doc.nested_property with (child := child).
    + right. exists node. split; [|exact Hrest]. now apply Doc.nested_items.
  - intros [Hn|(node & Hnode & Hrest)]; [left; left; now left|].
    inversion Hnode as [s0|s0 child node0 Hp Hc Hnested|s0 node0 Hi Hnested]; subst.
    + left. left. right. exact Hrest.
    + left. right. split; [exact Hp|]. exists child. split; [exact Hc|]. now exists node.
    + right. split; [exact Hi|]. now exists node.
Qed.

Lemma insertSorted_Permutation builtins x l :
  Permutation (insertSorted builtins x l) (x :: l).
Proof.
  induction l as [|y l IH]; simpl; [reflexivity|].
  destruct (sortsBefore builtins x y); [reflexivity|].
  rewrite IH. apply perm_swap.
Qed.

Lemma sort_Permutation builtins l : Permutation (sort builtins l) l.
Proof.
  induction l as [|x l IH]; simpl; [reflexivity|].
  now rewrite insertSorted_Permutation, IH.
Qed.

Lemma sortsBefore_total builtins x y :
  sortsBefore builtins x y = false -> sortsBefore builtins y x = true.
Proof.
  unfold sortsBefore. intros H.
  destruct (String.leb_total (ToString builtins x) (ToString builtins y)) as [E|E];
    congruence.
Qed.

Lemma insertSorted_Sorted builtins x l :
  Sorted (fun a b => sortsBefore builtins a b = true) l ->
  Sorted (fun a b => sortsBefore builtins a b = true) (insertSorted builtins x l).
Proof.
  induction 1 as [|y l Hs IH Hhd]; simpl; [repeat constructor|].
  destruct (sortsBefore builtins x y) eqn:E.
  - constructor; [now constructor | now constructor].
  - constructor; [exact IH|].
    apply sortsBefore_total in E.
    destruct l as [|z l]; simpl; [now constructor|].
    destruct (sortsBefore builtins x z); constructor; [exact E|].
    now inversion Hhd.
Qed.

Lemma sort_Sorted builtins l :
  Sorted (fun a b => sortsBefore builtins a b = true) (sort builtins l).
Proof.
  induction l as [|x l IH]; simpl; [constructor | now apply insertSorted_Sorted].
Qed.

Lemma strings_In s l : In s (Doc.strings l) <-> In (VStr s) l.
Proof.
  unfold Doc.strings. rewrite in_flat_map. split.
  - intros (v & Hv & Hs). destruct v; try contradiction.
    destruct Hs as [->|[]]. exact Hv.
  - intros H. exists (VStr s). split; [exact H | now left].
Qed.

Lemma distinct_strings l : Doc.distinct l -> NoDup (Doc.strings l).
Proof.
  induction 1 as [|seen x Hd IH Hx]; [constructor|].
  unfold Doc.strings in *. rewrite flat_map_app. simpl. rewrite app_nil_r.
  destruct x as [| |b|n|s|elems|o]; try (now rewrite app_nil_r).
  apply (Permutation_NoDup (Permutation_cons_append _ s)). constructor; [|exact IH].
  intros Hin. apply (proj1 (strings_In s seen)) in Hin.
  assert (Hex : existsb (fun y => Js.sameValueZero y (VStr s)) seen = true).
  { apply existsb_exists. exists (VStr s). split; [exact Hin|]. simpl. apply String.eqb_refl. }
  congruence.
Qed.

(** X18.  The nested names of a schema are listed in the order of their
    string forms, code unit by code unit, and no name is listed twice. *)
Theorem collectNestedSchemaNames_sorted
  (builtins : Builtins) (fuel : nat) (schema : value) (rootSchemaName : option string)
  (names : list value) :
  collectNestedSchemaNames builtins fuel schema rootSchemaName = Ok names ->
  Sorted (fun x y => String.leb (ToString builtins x) (ToString builtins y) = true) names
  /\ NoDup (Doc.strings names).
Proof.
  unfold collectNestedSchemaNames. intros H. inv_bind H. inversion H; subst names. clear H.
  split; [apply sort_Sorted|].
  apply traverse_spec in Ha. destruct Ha as [Hd _].
  apply (@Permutation_NoDup _ (Doc.strings a)).
  - unfold Doc.strings. apply Permutation_flat_map. symmetry. apply sort_Permutation.
  - apply distinct_strings, Hd. constructor.
Qed.

(** X19.  A value is among the nested names of a schema exactly when it is
    the truthy name of a node of the schema (the schema itself, a member of
    its properties, its items, or a node of these in turn) and is not the
    name given as that of the root. *)
Theorem collectNestedSchemaNames_members
  (builtins : Builtins) (fuel : nat) (schema : value) (rootSchemaName : option string)
  (names : list value) :
  collectNestedSchemaNames builtins fuel schema rootSchemaName = Ok names ->
  forall n,
    In n names <->
    exists node,
      Doc.nested schema node /\ Js.prop "schemaName" node = n
      /\ Js.truthy n = true /\ n <> Js.ofName rootSchemaName.
Proof.
  unfold collectNestedSchemaNames. intros H. inv_bind H. inversion H; subst names. clear H.
  apply traverse_spec in Ha. destruct Ha as [_ Hin]. intros n.
  assert (Hperm : In n (sort builtins a) <-> In n a).
  { split; apply Permutation_in; [|symmetry]; apply sort_Permutation. }
  rewrite Hperm, Hin. unfold Doc.collected. split.
  - intros [[]|(node & Hnode & Hname & Ht & Hr)]. exists node.
    apply sameValueZero_ofName in Hr. auto.
  - intros (node & Hnode & Hname & Ht & Hr). right. exists node.
    apply sameValueZero_ofName in Hr. auto.
Qed.

Lemma traverse_unknown fuel root names :
  traverse (S fuel) root unknownSchema names = Ok names.
Proof. reflexivity. Qed.

Lemma traverse_returns_simplified :
  (forall node, Spec.present node ->
     exists n, forall fuel, (n <= fuel)%nat -> forall root names,
       exists names', traverse fuel root node names = Ok names')
  /\ (forall properties, Spec.outputs properties ->
        exists n, forall fuel, (n <= fuel)%nat -> forall root names,
          exists names',
            foldM (fun names prop => traverse fuel root prop names)
                  (map snd properties) names = Ok names').
Proof.
  apply present_mutind.
  - intros type name description example enum required properties isArray _ _ _ _ [n IH].
    exists (S n). intros [|fuel] Hfuel root names; [lia|].
    rewrite traverse_unfold.
    change (Js.get "schemaName"
              (Spec.nodeValue type name description example enum required properties None))
      with (Ok name).
    change (Js.prop "properties"
              (Spec.nodeValue type name description example enum required properties None))
      with (VObj properties).
    change (Js.prop "items"
              (Spec.nodeValue type name description example enum required properties None))
      with VUndef.
    cbn [bind Js.truthy Js.entries].
    destruct (IH fuel ltac:(lia) root
                (if Js.truthy name && negb (Js.sameValueZero name root)
                 then setAdd name names else names)) as [names1 ->].
    cbn [bind]. now exists names1.
  - intros type name description example enum required properties items _ _ _ _ [n IH]
           _ [m IHitems].
    exists (S (Nat.max n m)). intros [|fuel] Hfuel root names; [lia|].
    rewrite traverse_unfold.
    change (Js.get "schemaName"
              (Spec.nodeValue type name description example enum required properties
                              (Some items)))
      with (Ok name).
    change (Js.prop "properties"
              (Spec.nodeValue type name description example enum required properties
                              (Some items)))
      with (VObj properties).
    change (Js.prop "items"
              (Spec.nodeValue type name description example enum required properties
                              (Some items)))
      with items.
    cbn [bind Js.truthy Js.entries].
    destruct (IH fuel ltac:(lia) root
                (if Js.truthy name && negb (Js.sameValueZero name root)
                 then setAdd name names else names)) as [names1 ->].
    cbn [bind]. destruct (Js.truthy items); [|now exists names1].
    apply IHitems. lia.
  - exists 0%nat. intros fuel _ root names. now exists names.
  - intros key rest _ [n IH]. exists (S n). intros [|fuel] Hfuel root names; [lia|].
    cbn [map snd foldM]. rewrite traverse_unknown. cbn [bind]. apply IH. lia.
  - intros key node rest _ [m IHnode] _ [n IH]. exists (Nat.max m n).
    intros fuel Hfuel root names. cbn [map snd foldM].
    destruct (IHnode fuel ltac:(lia) root names) as [names1 ->]. cbn [bind].
    apply IH. lia.
Qed.

(** X20.  The generator can list the nested names of every tree the
    simplifier builds: on such a tree the traversal meets no node it cannot
    read, and returns as soon as the stack is deep enough. *)
Theorem collectNestedSchemaNames_simplified
  (builtins : Builtins) (fuel : nat) (schema originalSchema : value)
  (schemaName : option string) (originalSpec out : value) :
  simplifySchema fuel schema originalSchema schemaName originalSpec = Ok out ->
  exists n, forall depth, (n <= depth)%nat -> forall rootSchemaName,
    exists names, collectNestedSchemaNames builtins depth out rootSchemaName = Ok names.
Proof.
  intros H. apply simplifySchema_returns in H. unfold Spec.returnsSimplified in H.
  unfold collectNestedSchemaNames. destruct (Js.truthy schema).
  - destruct (proj1 traverse_returns_simplified out H) as [n Hn].
    exists n. intros depth Hdepth root.
    destruct (Hn depth Hdepth (Js.ofName root) []) as [names ->].
    cbn [bind]. eauto.
  - subst out. exists 1%nat. intros [|depth] Hdepth root; [lia|].
    rewrite traverse_unknown. cbn [bind]. eauto.
Qed.

Lemma collectNestedSchemaNames_sorted_witness :
  let tree :=
    VObj [("schemaName", VStr "Pet");
          ("properties", VObj [("owner", VObj [("schemaName", VStr "Owner")]);
                               ("mate", VObj [("schemaName", VStr "Pet")]);
                               ("cat", VObj [("schemaName", VStr "Cat")]);
                               ("vet", VObj [("schemaName", VStr "Owner")])])] in
  exists names,
    collectNestedSchemaNames exampleBuiltins 2 tree (Some "Pet"%string) = Ok names
    /\ Sorted (fun x y => String.leb (ToString exampleBuiltins x)
                                     (ToString exampleBuiltins y) = true) names
    /\ NoDup (Doc.strings names).
Proof.
  intros tree.
  destruct (collectNestedSchemaNames exampleBuiltins 2 tree (Some "Pet"%string))
    as [names|e] eqn:E; [|vm_compute in E; discriminate E].
  exists names. split; [reflexivity|].
  exact (@collectNestedSchemaNames_sorted exampleBuiltins 2 tree (Some "Pet"%string) names E).
Defined.

Lemma collectNestedSchemaNames_members_witness :
  let tree :=
    VObj [("schemaName", VStr "Pet");
          ("items", VObj [("properties", VObj [("owner", VObj [("schemaName", VStr "Owner")])])])] in
  exists names,
    collectNestedSchemaNames exampleBuiltins 3 tree (Some "Pet"%string) = Ok names
    /\ In (VStr "Owner") names
    /\ ~ In (VStr "Pet") names.
Proof.
  intros tree.
  destruct (collectNestedSchemaNames exampleBuiltins 3 tree (Some "Pet"%string))
    as [names|e] eqn:E; [|vm_compute in E; discriminate E].
  exists names. split; [reflexivity|].
  pose proof (@collectNestedSchemaNames_members exampleBuiltins 3 tree (Some "Pet"%string)
                names E) as Hiff.
  split.
  - apply Hiff. exists (VObj [("schemaName", VStr "Owner")]).
    split; [|split; [reflexivity | split; [reflexivity | discriminate]]].
    apply Doc.nested_items; [reflexivity|].
    apply Doc.nested_property with (child := VObj [("schemaName", VStr "Owner")]);
      [reflexivity | now left | constructor].
  - intros Hin. apply Hiff in Hin. destruct Hin as (node & _ & _ & _ & Hne).
    now apply Hne.
Defined.

Lemma collectNestedSchemaNames_simplified_witness :
  let schema :=
    VObj [("type", VStr "array");
          ("items", VObj [("$ref", VStr "#/definitions/Pet");
                          ("properties", VObj [("name", VObj [("type", VStr "string")])])])] in
  exists out n,
    simplifySchema 6 schema VUndef None VUndef = Ok out
    /\ forall depth, (n <= depth)%nat -> forall rootSchemaName,
         exists names,
           collectNestedSchemaNames exampleBuiltins depth out rootSchemaName = Ok names.
Proof.
  intros schema.
  destruct (simplifySchema 6 schema VUndef None VUndef) as [out|e] eqn:E;
    [|vm_compute in E; discriminate E].
  destruct (@collectNestedSchemaNames_simplified exampleBuiltins 6 schema VUndef None VUndef
              out E) as [n Hn].
  exists out, n. split; [reflexivity | exact Hn].
Defined.

(** ** The reference resolver: resolved nodes *)

(** X21.  What the resolver returns is resolved: resolving it again, at any
    depth, returns it unchanged. *)
Theorem resolveRef_idempotent (fuel : nat) (schema spec resolved : value) :
  resolveRef fuel schema spec = Ok resolved ->
  forall depth, resolveRef (S depth) resolved spec = Ok resolved.
Proof.
  revert schema. induction fuel as [|fuel IH]; intros schema H depth; [discriminate|].
  rewrite resolveRef_unfold in H.
  pose proof (resolveRef_unfold depth schema spec) as Hagain.
  destruct (negb (Js.truthy schema) || negb (Js.truthy spec)
            || negb (Js.isString (Js.prop "$ref" schema))).
  { inversion H; subst resolved. exact Hagain. }
  destruct (Js.prop "$ref" schema) as [| |b|n|ref|elems|o];
    try (inversion H; subst resolved; exact Hagain).
  destruct (negb (Str.startsWith "#/" ref)).
  { inversion H; subst resolved. exact Hagain. }
  destruct (walk (tl (Str.split "/" ref)) spec) as [current|].
  2: { inversion H; subst resolved. exact Hagain. }
  destruct (Js.truthy current).
  - now apply (IH current).
  - inversion H; subst resolved. exact Hagain.
Qed.

Lemma resolveRef_idempotent_witness :
  let spec :=
    VObj [("definitions",
           VObj [("Alias", VObj [("$ref", VStr "#/definitions/Pet")]);
                 ("Pet", VObj [("type", VStr "object")])])] in
  resolveRef 3 (VObj [("$ref", VStr "#/definitions/Alias")]) spec
  = Ok (VObj [("type", VStr "object")])
  /\ resolveRef 1 (VObj [("type", VStr "object")]) spec
     = Ok (VObj [("type", VStr "object")]).
Proof.
  intros spec. split; [reflexivity|].
  apply (@resolveRef_idempotent 3 (VObj [("$ref", VStr "#/definitions/Alias")]) spec
           (VObj [("type", VStr "object")])).
  reflexivity.
Defined.

(** ** The extension filter and the operation filter *)

Lemma existsb_ext {A} (f g : A -> bool) l :
  (forall x, f x = g x) -> existsb f l = existsb g l.
Proof. intros H. induction l as [|x l IH]; simpl; [reflexivity | now rewrite H, IH]. Qed.

Lemma sameValueZero_removeExtensions e v :
  Js.sameValueZero (VStr e) (removeExtensions v) = Js.sameValueZero (VStr e) v.
Proof. now destruct v. Qed.

(** X22.  The extension filter hides no operation: an operation of a path
    item passes the filters of the extractor after the filter exactly when
    it passed them before, so that an operation marked [x-internal] or
    [x-hidden] loses the mark and is extracted all the same. *)
Theorem retained_removeExtensions
  (excludeTags : list string) (excludeDeprecated : bool) (pathItem : value)
  (method : HttpMethod) :
  Doc.retained excludeTags excludeDeprecated (removeExtensions pathItem) method
  = Doc.retained excludeTags excludeDeprecated pathItem method.
Proof.
  unfold Doc.retained, Spec.effectiveTags. cbv zeta.
  assert (Hm : isInternalKey (methodName method) = false) by (destruct method; reflexivity).
  rewrite (@removeExtensions_read (methodName method) pathItem Hm).
  set (operation := Js.prop (methodName method) pathItem).
  rewrite !removeExtensions_read by reflexivity.
  rewrite !removeExtensions_truthy. do 2 f_equal.
  destruct (Js.prop "tags" operation) as [| |b|n|s|tags|o]; try reflexivity.
  cbn [removeExtensions Js.coalesce Js.nullish]. f_equal.
  induction tags as [|tag tags IH]; [reflexivity|].
  cbn [map existsb]. rewrite IH. f_equal.
  apply existsb_ext. intros e. apply sameValueZero_removeExtensions.
Qed.

(** ** The rule generator: example objects *)

Section ExampleObjects.
Variable builtins : Builtins.
Variable convertsAboveZero : value -> bool.

Lemma buildExampleObject_unknown fuel useExamples :
  buildExampleObject builtins convertsAboveZero (S fuel) unknownSchema useExamples
  = Ok (VStr "unknown").
Proof. now destruct useExamples. Qed.

Lemma buildExampleObject_unfold fuel schema useExamples :
  buildExampleObject builtins convertsAboveZero (S fuel) schema useExamples =
  example <- (if useExamples then Js.get "example" schema else Ok VUndef) ;;
  if useExamples && negb (match example with VUndef => true | _ => false end)
  then Ok example
  else
    enum <- Js.get "enum" schema ;;
    if Js.truthy enum && aboveZero convertsAboveZero (Js.prop "length" enum)
    then
      match enum with
      | VArr members => Ok (VStr (Str.join " | " (map (elementText builtins) members)))
      | _ => Err TypeError
      end
    else
      if Js.strictEqStr (Js.prop "type" schema) "string" then Ok (VStr "string")
      else if Js.strictEqStr (Js.prop "type" schema) "number"
              || Js.strictEqStr (Js.prop "type" schema) "integer"
      then Ok (VNum 0)
      else if Js.strictEqStr (Js.prop "type" schema) "boolean" then Ok (VBool true)
      else if Js.strictEqStr (Js.prop "type" schema) "array"
      then
        if Js.truthy (Js.prop "items" schema)
        then item <- buildExampleObject builtins convertsAboveZero fuel
                                        (Js.prop "items" schema) useExamples ;;
             Ok (VArr [item])
        else Ok (VArr [])
      else if Js.strictEqStr (Js.prop "type" schema) "object"
      then
        if Js.truthy (Js.prop "properties" schema)
        then
          obj <- foldM (fun obj entry =>
                          member <- buildExampleObject builtins convertsAboveZero fuel
                                                       (snd entry) useExamples ;;
                          Ok (Js.set (fst entry) member obj))
                       (Js.entries (Js.prop "properties" schema)) [] ;;
          Ok (VObj obj)
        else Ok (VObj [])
      else Ok (Js.prop "type" schema).
Proof. reflexivity. Qed.

Lemma buildExampleObject_node fuel useExamples
      type name description example enum required properties items :
  Doc.enumListed (Spec.nodeValue type name description example enum required properties items) ->
  (exists obj,
     foldM (fun obj entry =>
              member <- buildExampleObject builtins convertsAboveZero fuel (snd entry)
                                           useExamples ;;
              Ok (Js.set (fst entry) member obj)) properties [] = Ok obj) ->
  (forall node, items = Some node -> Js.truthy node = true ->
                exists item,
                  buildExampleObject builtins convertsAboveZero fuel node useExamples
                  = Ok item) ->
  exists result,
    buildExampleObject builtins convertsAboveZero (S fuel)
      (Spec.nodeValue type name description example enum required properties items)
      useExamples = Ok result.
Proof.
  intros Henum [obj Hobj] Hitems. rewrite buildExampleObject_unfold.
  unfold Doc.enumListed in Henum.
  set (node := Spec.nodeValue type name description example enum required properties items)
    in *.
  destruct (nodeValue_reads type name description example enum required properties items)
    as (_ & _ & _ & _ & _ & Htype & _ & Hexample & Henum' & _ & Hprops & Hit).
  fold node in Htype, Hexample, Henum', Hprops, Hit.
  change (Js.get "example" node) with (Ok (Js.prop "example" node)).
  change (Js.get "enum" node) with (Ok (Js.prop "enum" node)).
  rewrite Hprops. cbn [Js.truthy Js.entries]. rewrite Hobj.
  match goal with
  | |- context [if Js.strictEqStr ?t "string" then ?a else ?b] =>
      set (rest := if Js.strictEqStr t "string" then a else b)
  end.
  assert (Hrest : exists result, rest = Ok result).
  { unfold rest.
    destruct (Js.strictEqStr (Js.prop "type" node) "string"); [eauto|].
    destruct (Js.strictEqStr (Js.prop "type" node) "number"
              || Js.strictEqStr (Js.prop "type" node) "integer"); [eauto|].
    destruct (Js.strictEqStr (Js.prop "type" node) "boolean"); [eauto|].
    destruct (Js.strictEqStr (Js.prop "type" node) "array").
    - rewrite Hit. destruct items as [it|]; cbn [Js.truthy]; [|eauto].
      destruct (Js.truthy it) eqn:Hi; [|eauto].
      destruct (Hitems it eq_refl Hi) as [item ->]. cbn [bind]. eauto.
    - destruct (Js.strictEqStr (Js.prop "type" node) "object"); cbn [bind]; eauto. }
  clearbody rest.
  assert (Hlisted : exists result,
             (enum0 <- Ok (Js.prop "enum" node) ;;
              if Js.truthy enum0 && aboveZero convertsAboveZero (Js.prop "length" enum0)
              then match enum0 with
                   | VArr members =>
                       Ok (VStr (Str.join " | " (map (elementText builtins) members)))
                   | _ => Err TypeError
                   end
              else rest) = Ok result).
  { cbn [bind]. destruct (Js.truthy (Js.prop "enum" node)) eqn:He; cbn [andb]; [|exact Hrest].
    destruct (Henum eq_refl) as [members ->].
    destruct (aboveZero convertsAboveZero (Js.prop "length" (VArr members))); eauto. }
  destruct useExamples; cbn [bind andb]; [|exact Hlisted].
  destruct (negb match Js.prop "example" node with VUndef => true | _ => false end);
    [eauto | exact Hlisted].
Qed.

Lemma nested_member type name description example enum required properties items child n :
  In child (map snd properties) -> Doc.nested child n ->
  Doc.nested (Spec.nodeValue type name description example enum required properties items) n.
Proof.
  intros Hin Hn. apply Doc.nested_property with (child := child); [| |exact Hn].
  - now destruct items.
  - destruct items; exact Hin.
Qed.

Lemma buildExampleObject_returns_simplified :
  (forall node, Spec.present node ->
     (forall n, Doc.nested node n -> Doc.enumListed n) ->
     exists d, forall fuel, (d <= fuel)%nat -> forall useExamples,
       exists result,
         buildExampleObject builtins convertsAboveZero fuel node useExamples = Ok result)
  /\ (forall properties, Spec.outputs properties ->
        (forall child n, In child (map snd properties) -> Doc.nested child n ->
                         Doc.enumListed n) ->
        exists d, forall fuel, (d <= fuel)%nat -> forall useExamples acc,
          exists obj,
            foldM (fun obj entry =>
                     member <- buildExampleObject builtins convertsAboveZero fuel
                                                  (snd entry) useExamples ;;
                     Ok (Js.set (fst entry) member obj)) properties acc = Ok obj).
Proof.
  apply present_mutind.
  - intros type name description example enum required properties isArray _ _ _ _ IH Hen.
    destruct IH as [d IH].
    { intros child n Hin Hn. apply Hen. now apply nested_member with (child := child). }
    exists (S d). intros [|fuel] Hfuel useExamples; [lia|].
    apply buildExampleObject_node.
    + apply Hen. constructor.
    + apply IH. lia.
    + discriminate.
  - intros type name description example enum required properties items _ _ _ _ IH
           Hpresent IHitems Hen.
    destruct IH as [d IH].
    { intros child n Hin Hn. apply Hen. now apply nested_member with (child := child). }
    destruct IHitems as [m IHitems].
    { intros n Hn. apply Hen. apply Doc.nested_items; [|exact Hn].
      change (Js.truthy items = true).
      now apply present_truthy. }
    exists (S (Nat.max d m)). intros [|fuel] Hfuel useExamples; [lia|].
    apply buildExampleObject_node.
    + apply Hen. constructor.
    + apply IH. lia.
    + intros node E _. inversion E; subst node. apply IHitems. lia.
  - intros _. exists 0%nat. intros fuel _ useExamples acc. now exists acc.
  - intros key rest _ IH Hen. destruct IH as [d IH].
    { intros child n Hin. apply Hen. now right. }
    exists (S d). intros [|fuel] Hfuel useExamples acc; [lia|].
    cbn [foldM snd fst]. rewrite buildExampleObject_unknown. cbn [bind]. apply IH. lia.
  - intros key node rest _ IHnode _ IH Hen.
    destruct IHnode as [m IHnode]. { intros n Hn. apply (Hen node); [now left | exact Hn]. }
    destruct IH as [d IH]. { intros child n Hin. apply Hen. now right. }
    exists (Nat.max m d). intros fuel Hfuel useExamples acc. cbn [foldM snd fst].
    destruct (IHnode fuel ltac:(lia) useExamples) as [member ->]. cbn [bind].
    apply IH. lia.
Qed.

End ExampleObjects.

(** X23.  The generator can build the example of every tree the simplifier
    builds whose nodes have a list for an enum whenever they have one: the
    builder meets nothing it cannot read, with or without the examples of
    the schema, and returns as soon as the stack is deep enough. *)
Theorem buildExampleObject_simplified
  (builtins : Builtins) (convertsAboveZero : value -> bool)
  (fuel : nat) (schema originalSchema : value) (schemaName : option string)
  (originalSpec out : value) :
  simplifySchema fuel schema originalSchema schemaName originalSpec = Ok out ->
  (forall node, Doc.nested out node -> Doc.enumListed node) ->
  exists d, forall depth, (d <= depth)%nat -> forall useExamples,
    exists example,
      buildExampleObject builtins convertsAboveZero depth out useExamples = Ok example.
Proof.
  intros H Hen. apply simplifySchema_returns in H. unfold Spec.returnsSimplified in H.
  destruct (Js.truthy schema).
  - exact (proj1 (buildExampleObject_returns_simplified builtins convertsAboveZero) out H Hen).
  - subst out. exists 1%nat. intros [|depth] Hdepth useExamples; [lia|].
    rewrite buildExampleObject_unknown. eauto.
Qed.

Lemma buildExampleObject_simplified_witness :
  let schema := VObj [("type", VStr "string"); ("enum", VArr [VStr "a"; VStr "b"])] in
  exists out d,
    simplifySchema 3 schema VUndef None VUndef = Ok out
    /\ forall depth, (d <= depth)%nat -> forall useExamples,
         exists example,
           buildExampleObject exampleBuiltins (fun _ => false) depth out useExamples
           = Ok example.
Proof.
  intros schema.
  destruct (simplifySchema 3 schema VUndef None VUndef) as [out|e] eqn:E;
    [|vm_compute in E; discriminate E].
  destruct (@buildExampleObject_simplified exampleBuiltins (fun _ => false) 3 schema VUndef
              None VUndef out E) as [d Hd].
  - vm_compute in E. inversion E; subst out. clear E.
    intros node Hn. inversion Hn as [s|s child n Hp Hc Hnested|s n Hi Hnested]; subst.
    + intros _. now exists [VStr "a"; VStr "b"].
    + contradiction Hc.
    + discriminate Hi.
  - exists out, d. split; [reflexivity | exact Hd].
Defined.

(** ** The schema simplifier: recursive schemas *)

(** X24.  The simplifier keeps no track of the schemas it is in: on a set
    of present schemas each of which has, once flattened, a property whose
    schema is in the set again (a schema that contains itself through its
    references), it returns no tree, whatever the depth available. *)
Theorem simplifySchema_recursive_schema (originalSpec : value) (looping : value -> Prop) :
  (forall schema,
     looping schema ->
     Js.truthy schema = true
     /\ forall fuel effective,
          getEffectiveSchema fuel schema originalSpec = Ok effective ->
          exists key child,
            In (key, child) (Js.entries (Js.prop "properties" effective))
            /\ looping child) ->
  forall fuel schema originalSchema schemaName out,
    looping schema ->
    simplifySchema fuel schema originalSchema schemaName originalSpec <> Ok out.
Proof.
  intros Hloop fuel. induction fuel as [|fuel IH];
    intros schema originalSchema schemaName out Hs H; [discriminate|].
  destruct (Hloop schema Hs) as [Htruthy Hprops].
  rewrite simplifySchema_unfold, Htruthy in H. cbn [negb] in H.
  inv_bind H. inv_bind H. rename a0 into effective. inv_bind H. inv_bind H.
  destruct (Hprops fuel effective Ha0) as (key & child & Hin & Hchild).
  assert (Hp : Js.truthy (Js.prop "properties" effective) = true).
  { destruct (Js.prop "properties" effective) as [| |b|n|s|elems|o]; try contradiction;
      try reflexivity.
    destruct s; [contradiction | reflexivity]. }
  rewrite Hp in Ha2. inv_bind Ha2.
  destruct (@foldM_Ok_In _ _ _ _ _ _ _ Ha3 Hin) as (acc1 & acc2 & Hstep).
  unfold simplifyProperty in Hstep. cbn [fst snd] in Hstep.
  inv_bind Hstep. inv_bind Hstep.
  exact (IH _ _ _ _ Hchild Ha5).
Qed.

Lemma simplifySchema_recursive_schema_witness :
  let node := VObj [("$ref", VStr "#/definitions/Node")] in
  let spec :=
    VObj [("definitions",
           VObj [("Node", VObj [("type", VStr "object");
                                ("properties", VObj [("next", node)])])])] in
  simplifySchema 12 node VUndef None spec = Err StackOverflow.
Proof.
  intros node spec.
  destruct (simplifySchema 12 node VUndef None spec) as [out|e] eqn:E;
    [|vm_compute in E; inversion E; reflexivity].
  exfalso.
  apply (@simplifySchema_recursive_schema spec (fun schema => schema = node))
    with (fuel := 12%nat) (schema := node) (originalSchema := VUndef)
         (schemaName := @None string) (out := out);
    [|reflexivity | exact E].
  intros schema ->. split; [reflexivity|].
  intros [|[|[|depth]]] effective H; try discriminate H.
  exists "next"%string, node. split; [|reflexivity].
  vm_compute in H. inversion H. now left.
Defined.

(** ** The rule generator: file names *)

Lemma splitLowerUpper_cons a b rest :
  splitLowerUpper (String a (String b rest)) =
  if isLowerLetter a && isUpperLetter b
  then String a (String "-" (splitLowerUpper (String b rest)))
  else String a (splitLowerUpper (String b rest)).
Proof. reflexivity. Qed.

Lemma splitLowerUpper_head b rest :
  exists tail, splitLowerUpper (String b rest) = String b tail.
Proof.
  destruct rest as [|c rest]; [now exists EmptyString|].
  rewrite splitLowerUpper_cons. destruct (isLowerLetter b && isUpperLetter c); eauto.
Qed.

Lemma splitCapitalRun_cons f b rest :
  splitCapitalRun f (String b rest) =
  if f && isUpperLetter b
     && match rest with String c _ => isLowerLetter c | EmptyString => false end
  then String "-" (String b (splitCapitalRun (isUpperLetter b) rest))
  else String b (splitCapitalRun (isUpperLetter b) rest).
Proof. reflexivity. Qed.

Lemma letter_classes a : isLowerLetter a = true -> isUpperLetter a = false.
Proof.
  unfold isLowerLetter, isUpperLetter. cbv zeta. intros H.
  apply andb_true_iff in H. destruct H as [H _]. apply Nat.leb_le in H.
  apply andb_false_iff. right. apply Nat.leb_gt. lia.
Qed.

Lemma withoutHyphens_splitLowerUpper s :
  Doc.withoutHyphens (splitLowerUpper s) = Doc.withoutHyphens s.
Proof.
  induction s as [|a s IH]; [reflexivity|].
  destruct s as [|b rest]; [reflexivity|].
  rewrite splitLowerUpper_cons.
  destruct (isLowerLetter a && isUpperLetter b); cbn [Doc.withoutHyphens].
  - change (Ascii.eqb "-" "-") with true. cbn iota. now rewrite IH.
  - now rewrite IH.
Qed.

Lemma withoutHyphens_splitCapitalRun f s :
  Doc.withoutHyphens (splitCapitalRun f s) = Doc.withoutHyphens s.
Proof.
  revert f. induction s as [|b rest IH]; intros f; [reflexivity|].
  rewrite splitCapitalRun_cons.
  destruct (f && isUpperLetter b
            && match rest with String c _ => isLowerLetter c | EmptyString => false end);
    cbn [Doc.withoutHyphens].
  - change (Ascii.eqb "-" "-") with true. cbn iota. now rewrite IH.
  - now rewrite IH.
Qed.

Lemma hasLowerUpper_cons a b rest :
  Doc.hasLowerUpper (String a (String b rest)) =
  isLowerLetter a && isUpperLetter b || Doc.hasLowerUpper (String b rest).
Proof. reflexivity. Qed.

Lemma hasLowerUpper_splitLowerUpper s : Doc.hasLowerUpper (splitLowerUpper s) = false.
Proof.
  induction s as [|a s IH]; [reflexivity|].
  destruct s as [|b rest]; [reflexivity|].
  rewrite splitLowerUpper_cons.
  destruct (splitLowerUpper_head b rest) as [tail Htail]. rewrite Htail in *.
  destruct (isLowerLetter a && isUpperLetter b) eqn:E.
  - rewrite !hasLowerUpper_cons, IH. now rewrite andb_false_r.
  - now rewrite hasLowerUpper_cons, E, IH.
Qed.

Lemma hasLowerUpper_splitCapitalRun f s :
  Doc.hasLowerUpper s = false -> Doc.hasLowerUpper (splitCapitalRun f s) = false.
Proof.
  revert f. induction s as [|b rest IH]; intros f H; [reflexivity|].
  assert (Hrest : Doc.hasLowerUpper rest = false).
  { destruct rest as [|c r]; [reflexivity|]. rewrite hasLowerUpper_cons in H.
    now apply orb_false_iff in H. }
  assert (Hbody : Doc.hasLowerUpper (String b (splitCapitalRun (isUpperLetter b) rest)) = false).
  { specialize (IH (isUpperLetter b) Hrest).
    destruct rest as [|c r]; [reflexivity|].
    rewrite hasLowerUpper_cons in H. apply orb_false_iff in H. destruct H as [Hbc _].
    rewrite splitCapitalRun_cons in *.
    destruct (isUpperLetter b && isUpperLetter c
              && match r with String c0 _ => isLowerLetter c0 | EmptyString => false end).
    - rewrite hasLowerUpper_cons, IH. now rewrite andb_false_r.
    - now rewrite hasLowerUpper_cons, Hbc, IH. }
  rewrite splitCapitalRun_cons.
  destruct (f && isUpperLetter b
            && match rest with String c _ => isLowerLetter c | EmptyString => false end);
    [|exact Hbody].
  now rewrite hasLowerUpper_cons, Hbody.
Qed.

Lemma hasCapitalRunEnd_cons f b c rest :
  Doc.hasCapitalRunEnd f (String b (String c rest)) =
  f && isUpperLetter b && isLowerLetter c
  || Doc.hasCapitalRunEnd (isUpperLetter b) (String c rest).
Proof. reflexivity. Qed.

Lemma hasCapitalRunEnd_splitCapitalRun f s :
  Doc.hasCapitalRunEnd f (splitCapitalRun f s) = false.
Proof.
  revert f. induction s as [|b rest IH]; intros f; [reflexivity|].
  assert (Hbody : forall g,
             g && isUpperLetter b
             && match rest with String c _ => isLowerLetter c | EmptyString => false end
             = false ->
             Doc.hasCapitalRunEnd g (String b (splitCapitalRun (isUpperLetter b) rest))
             = false).
  { intros g Hg. specialize (IH (isUpperLetter b)).
    destruct rest as [|c r]; [reflexivity|].
    rewrite splitCapitalRun_cons in *.
    destruct (isUpperLetter b && isUpperLetter c
              && match r with String c0 _ => isLowerLetter c0 | EmptyString => false end).
    - rewrite hasCapitalRunEnd_cons, IH. now rewrite andb_false_r.
    - now rewrite hasCapitalRunEnd_cons, Hg, IH. }
  rewrite splitCapitalRun_cons.
  destruct (f && isUpperLetter b
            && match rest with String c _ => isLowerLetter c | EmptyString => false end)
    eqn:E; [|now apply Hbody].
  rewrite hasCapitalRunEnd_cons. rewrite andb_false_r. cbn [orb].
  apply Hbody. reflexivity.
Qed.

Lemma hyphenated_refl s : Doc.hyphenated s s.
Proof. induction s as [|a s IH]; constructor; exact IH. Qed.

Lemma hyphenated_trans a b c :
  Doc.hyphenated a b -> Doc.hyphenated b c -> Doc.hyphenated a c.
Proof.
  intros Hab Hbc. revert a Hab.
  induction Hbc as [|x b c Hbc IH|b c Hbc IH]; intros a Hab.
  - exact Hab.
  - inversion Hab as [|y a' b' Hab'|a' b' Hab']; subst.
    + apply Doc.hyphenated_keep. now apply IH.
    + apply Doc.hyphenated_insert. now apply IH.
  - apply Doc.hyphenated_insert. now apply IH.
Qed.

Lemma hyphenated_splitLowerUpper s : Doc.hyphenated s (splitLowerUpper s).
Proof.
  induction s as [|a s IH]; [constructor|].
  destruct s as [|b rest]; [repeat constructor|].
  rewrite splitLowerUpper_cons.
  destruct (isLowerLetter a && isUpperLetter b).
  - apply Doc.hyphenated_keep, Doc.hyphenated_insert, IH.
  - apply Doc.hyphenated_keep, IH.
Qed.

Lemma hyphenated_splitCapitalRun f s : Doc.hyphenated s (splitCapitalRun f s).
Proof.
  revert f. induction s as [|b rest IH]; intros f; [constructor|].
  rewrite splitCapitalRun_cons.
  destruct (f && isUpperLetter b
            && match rest with String c _ => isLowerLetter c | EmptyString => false end).
  - apply Doc.hyphenated_insert, Doc.hyphenated_keep, IH.
  - apply Doc.hyphenated_keep, IH.
Qed.

Lemma splitCapitalRun_splitLowerUpper s :
  forall f a,
    splitCapitalRun f (splitLowerUpper (String a s)) =
    if f && isUpperLetter a
       && match s with String c _ => isLowerLetter c | EmptyString => false end
    then String "-" (String a (Doc.hyphenateBoundaries (Some a) s))
    else String a (Doc.hyphenateBoundaries (Some a) s).
Proof.
  induction s as [|b rest IH]; intros f a.
  - cbn [splitLowerUpper]. rewrite splitCapitalRun_cons. now rewrite andb_false_r.
  - rewrite splitLowerUpper_cons. cbn [Doc.hyphenateBoundaries]. unfold Doc.wordBoundary.
    destruct (isLowerLetter a && isUpperLetter b) eqn:Hpair.
    + apply andb_true_iff in Hpair. destruct Hpair as [Ha Hb].
      apply letter_classes in Ha.
      rewrite !splitCapitalRun_cons, Ha, !andb_false_r. cbn [andb orb].
      change (isUpperLetter "-") with false.
      rewrite (IH false b). reflexivity.
    + destruct (splitLowerUpper_head b rest) as [tail Htail].
      rewrite splitCapitalRun_cons, Htail, <- Htail, (IH (isUpperLetter a) b).
      cbn [orb].
      destruct (isUpperLetter a && isUpperLetter b
                && match rest with String c _ => isLowerLetter c | EmptyString => false end);
        reflexivity.
Qed.

(** X25.  Before it is lower-cased, a name is only split: what the
    conversion gives is the name with a hyphen at each word boundary (a
    lowercase letter before a capital, or a capital before a capital that a
    lowercase letter follows) and nowhere else, every character of the
    name being kept in its place and order, the hyphens it had included;
    and in what it gives no lowercase letter comes directly before a capital
    and no capital stands between a capital and a lowercase letter. *)
Theorem toKebabCase_splits (toLowerCase : string -> string) (str : string) :
  exists split,
    toKebabCase toLowerCase str = toLowerCase split
    /\ split = Doc.hyphenateBoundaries None str
    /\ Doc.hyphenated str split
    /\ Doc.withoutHyphens split = Doc.withoutHyphens str
    /\ Doc.hasLowerUpper split = false
    /\ Doc.hasCapitalRunEnd false split = false.
Proof.
  exists (splitCapitalRun false (splitLowerUpper str)).
  split; [reflexivity|]. split; [|split; [|split; [|split]]].
  - destruct str as [|a s]; [reflexivity|].
    now rewrite splitCapitalRun_splitLowerUpper.
  - eapply hyphenated_trans; [apply hyphenated_splitLowerUpper|].
    apply hyphenated_splitCapitalRun.
  - now rewrite withoutHyphens_splitCapitalRun, withoutHyphens_splitLowerUpper.
  - apply hasLowerUpper_splitCapitalRun, hasLowerUpper_splitLowerUpper.
  - apply hasCapitalRunEnd_splitCapitalRun.
Qed.

